(** * The library storage engine of [books] (library.go), embedded in Rocq

    The catalog is an SQLite file with a [books] table and an FTS4 shadow
    table [books_fts]; book files live under a configured books root.  This
    development transcribes [library.go] function by function on top of a
    small model of the services it calls (Go's [strings], [strconv] and
    [path] packages, the [os] file calls, [database/sql] and [os/exec]) and
    proves the properties of the import, lookup, search, placement and
    conversion paths.

    Conventions.
    - A Go [string] is a [string]; a slice is a [list], the nil slice being
      [[]]; [int] and [int64] are [Z].
    - A Go [error] result is an [option error], [None] being [nil].
    - A call that can fail asks the environment [Env] whether it does
      (permissions, devices, I/O errors, engine limits), besides the causes
      of failure that the modelled state itself decides (a missing file, a
      violated [unique] constraint). *)

From Stdlib Require Import Ascii.
From stdpp Require Import gmap strings list pretty sorting.

(** ** Package [strings] *)

(** [strings.Join(elems, sep)]. *)
Fixpoint strings_Join (elems : list string) (sep : string) : string :=
  match elems with
  | [] => ""
  | [a] => a
  | a :: rest => a +:+ sep +:+ strings_Join rest sep
  end.

(** [strings.Repeat(s, count)]. *)
Fixpoint strings_Repeat (s : string) (count : nat) : string :=
  match count with
  | O => ""
  | S n => s +:+ strings_Repeat s n
  end.

(** [strings.Contains(s, substr)]. *)
Fixpoint strings_Contains (s substr : string) : bool :=
  String.prefix substr s ||
  match s with
  | EmptyString => false
  | String _ s' => strings_Contains s' substr
  end.

(** The scan of [strings.Split] for a separator that is not empty: the
    leftmost occurrence of [sep] closes the current piece and the scan goes
    on behind it.  [skip] counts the bytes of a separator that was just
    matched and are still to be passed over.  The head of the result is the
    piece under construction. *)
Fixpoint split_scan (sep : string) (skip : nat) (s : string) : list string :=
  match s with
  | EmptyString => [""]
  | String c s' =>
      match skip with
      | S k => split_scan sep k s'
      | O =>
          if String.prefix sep s
          then "" :: split_scan sep (String.length sep - 1) s'
          else match split_scan sep 0 s' with
               | piece :: pieces => String c piece :: pieces
               | [] => [String c ""]
               end
      end
  end.

(** With an empty separator Go cuts [s] after each UTF-8 sequence; strings
    are cut after each byte here, which is the same on ASCII text.  The
    program only ever splits on ["/"]. *)
Fixpoint explode (s : string) : list string :=
  match s with
  | EmptyString => []
  | String c s' => String c "" :: explode s'
  end.

(** [strings.Split(s, sep)]. *)
Definition strings_Split (s sep : string) : list string :=
  match sep with
  | EmptyString => explode s
  | _ => split_scan sep 0 s
  end.

(** [strings.HasSuffix(s, suffix)]:
    [len(s) >= len(suffix) && s[len(s)-len(suffix):] == suffix]. *)
Definition strings_HasSuffix (s suffix : string) : bool :=
  (String.length suffix <=? String.length s)%nat &&
  String.eqb
    (String.substring (String.length s - String.length suffix)
                      (String.length suffix) s)
    suffix.

(** [strings.TrimSuffix(s, suffix)]. *)
Definition strings_TrimSuffix (s suffix : string) : string :=
  if strings_HasSuffix s suffix
  then String.substring 0 (String.length s - String.length suffix) s
  else s.

(** ** Package [strconv] *)

(** [strconv.Itoa(i)]: the decimal digits of [i], after a minus sign when
    [i] is negative. *)
Definition strconv_Itoa (i : Z) : string := pretty i.

(** ** Package [path] *)

(** [path.Ext(path)]: the loop runs [i] from the last byte down to the last
    slash and returns [path[i:]] at the first dot it meets.  The argument
    [n] of the loop is [i + 1]. *)
Fixpoint Ext_loop (path : string) (n : nat) : string :=
  match n with
  | O => ""
  | S i =>
      match String.get i path with
      | Some c =>
          if Ascii.eqb c "/"%char then ""
          else if Ascii.eqb c "."%char
               then String.substring i (String.length path - i) path
               else Ext_loop path i
      | None => ""
      end
  end.

Definition path_Ext (path : string) : string :=
  Ext_loop path (String.length path).

(** [lastSlash(s) + 1]: the length of the part of [s] up to and including
    its last slash, 0 when it has none. *)
Fixpoint lastSlash_loop (s : string) (n : nat) : nat :=
  match n with
  | O => O
  | S i =>
      match String.get i s with
      | Some c => if Ascii.eqb c "/"%char then S i else lastSlash_loop s i
      | None => lastSlash_loop s i
      end
  end.

(** [path.Split(path)]: [path[:i+1], path[i+1:]] for [i] the last slash. *)
Definition path_Split (path : string) : string * string :=
  let k := lastSlash_loop path (String.length path) in
  (String.substring 0 k path,
   String.substring k (String.length path - k) path).

(** One element of a path met by [path.Clean]; [out] holds the elements
    kept so far, the last one first. *)
Definition clean_elem (rooted : bool) (out : list string) (e : string)
  : list string :=
  if String.eqb e ".."
  then match out with
       | top :: below =>
           if String.eqb top ".." then e :: out else below
       | [] => if rooted then [] else [e]
       end
  else e :: out.

(** [path.Clean(path)]: multiple slashes become one, [.] elements go, an
    inner [..] goes with the element before it, a [..] at the start of a
    rooted path goes; the empty result is ["."]. *)
Definition path_Clean (path : string) : string :=
  let rooted := String.prefix "/" path in
  let elems :=
    List.filter (fun e => negb (String.eqb e "") && negb (String.eqb e "."))
                (strings_Split path "/") in
  let out := fold_left (clean_elem rooted) elems [] in
  let r := (if rooted then "/" else "") +:+ strings_Join (rev out) "/" in
  if String.eqb r "" then "." else r.

(** [path.Join(elem...)]: the elements from the first non-empty one on,
    joined by slashes and cleaned; [""] when all are empty. *)
Fixpoint path_Join (elem : list string) : string :=
  match elem with
  | [] => ""
  | EmptyString :: rest => path_Join rest
  | _ => path_Clean (strings_Join elem "/")
  end.

(** [path.Dir(path)]. *)
Definition path_Dir (path : string) : string :=
  path_Clean (fst (path_Split path)).

(** ** Errors *)

(** Go [error] values: the errors of the services the program calls, the
    errors it makes itself with [errors.Errorf], the exit status of a
    subprocess, and [errors.Wrap]ped errors. *)
Inductive error : Type :=
  | ErrorString (msg : string)
  | ExitError (code : Z)
  | WithMessage (cause : error) (msg : string).

(** [errors.Wrap(err, msg)] (and [errors.Wrapf]): nil stays nil. *)
Definition errors_Wrap (err : option error) (msg : string) : option error :=
  match err with
  | None => None
  | Some e => Some (WithMessage e msg)
  end.

(** [errors.Errorf("A duplicate book already exists with id %d", id)]. *)
Definition duplicate_error (id : Z) : error :=
  ErrorString ("A duplicate book already exists with id " +:+ strconv_Itoa id).

(** ** The data model *)

(** Modelled from the spec: the declaration of the [Book] struct, which is
    not among the sources.  The fields are those that [library.go] reads
    and writes, with the types of the record of §3 of the specification
    (a time is a number of clock ticks). *)
Record Book : Type := mkBook {
  Id : Z;
  Hash : string;
  Author : string;
  Series : string;
  Title : string;
  Extension : string;
  Tags : list string;
  OriginalFilename : string;
  CurrentFilename : string;
  FileSize : Z;
  FileMtime : Z;
  RegexpName : string;
  Source : string
}.

(** A row of table [books] of [initialSchema]. *)
Module books.
Record row : Type := mk {
  id : Z;
  created_on : Z;
  updated_on : Z;
  author : string;
  series : string;
  title : string;
  extension : string;
  tags : string;
  original_filename : string;
  filename : string;
  file_size : Z;
  file_mtime : Z;
  hash : string;
  regexp_name : string;
  template_override : option string;
  source : string
}.
End books.

(** A row of the virtual table [books_fts]. *)
Module books_fts.
Record row : Type := mk {
  docid : Z;
  author : string;
  series : string;
  title : string;
  extension : string;
  tags : string;
  filename : string;
  source : string
}.
End books_fts.

(** The catalog file.  [table_books] lists the rows in the order in which a
    scan of the table meets them, which in SQLite is the order of the
    integer primary key; [table_books_fts] lists the rows of the index in
    the order in which a query on it meets them. *)
Record DB : Type := mkDB {
  table_books : list books.row;
  table_books_fts : list books_fts.row
}.

(** A regular file: its bytes and its modification time. *)
Record File : Type := mkFile {
  content : string;
  mtime : Z
}.

(** The file system: regular files and directories by name.  A name is the
    string the program passes to [os]; two spellings of one path and links
    are not modelled. *)
Record FS : Type := mkFS {
  files : gmap string File;
  dirs : gset string
}.

(** The calls the program makes to the operating system.  Each one is
    recorded when it is made, whether it then succeeds or not. *)
Inductive Event : Type :=
  | EvMkdirAll (path : string)
  | EvRename (src dst : string)
  | EvOpen (name : string)
  | EvCreate (name : string)
  | EvCopy (dst : string)
  | EvChtimes (name : string) (atime mtime : Z)
  | EvRemove (name : string)
  | EvExec (name : string) (args : list string).

(** What the program acts on: the committed catalog, the file system, and
    the record of the calls made so far, the latest first. *)
Record World : Type := mkWorld {
  w_db : DB;
  w_fs : FS;
  w_calls : list Event
}.

(** ** The environment *)

(** The places of [library.go] where a call returns an [error]. *)
Inductive Call : Type :=
  (* ImportBook *)
  | CBegin | CDupQuery | CDupRows | CInsertBook | CLastInsertId
  | CInsertFts | CCommit
  (* moveOrCopyFile, moveFile, copyFile *)
  | CMkdirAll | CRename | COpen | CFstat | CCreate | CCopy | CClose
  | CChtimes | CRemove
  (* Search *)
  | CFtsQuery | CFtsRows
  (* GetBooksById: the query with its number of variables, one for each
     id; SQLite refuses a statement that has more variables than its
     limit, so that whether this call is served depends on that number *)
  | CByIdQuery (n : nat) | CByIdScan | CByIdRows.

(** How a subprocess ends: it exits with a status, or it never starts. *)
Inductive Outcome : Type :=
  | Exited (code : Z)
  | NotStarted (e : error).

(** What the program does not decide.
    - [fails c] is the error of the call at [c] when the service refuses it
      for a reason outside the modelled state.
    - [upto c], for a call that works through a sequence (the rows of a
      query, the bytes of a copy, the [Scan] of successive rows), is how
      many items pass before [fails c] strikes.
    - [now] is the clock.
    - [fts_matches terms r] is whether the full-text engine finds that the
      index row [r] matches [terms].
    - [run name args] is how the external program ends. *)
Record Env : Type := mkEnv {
  fails : Call -> option error;
  upto : Call -> nat;
  now : Z;
  fts_matches : string -> books_fts.row -> bool;
  run : string -> list string -> Outcome
}.

(** The docids that the index pass yields for [match terms]: [books_fts]
    is an [fts4] table made without [order=desc], and a query on it
    without [order by] yields the matching rows in the order of the index,
    by rising docid. *)
Definition fts_match (env : Env) (terms : string) (rows : list books_fts.row)
  : list Z :=
  map books_fts.docid (List.filter (fts_matches env terms) rows).

(** The rows that an iteration [for rows.Next() { ... }] at [c] sees, and
    what [rows.Err()] is afterwards. *)
Definition iterate {A} (env : Env) (c : Call) (result : list A)
  : list A * option error :=
  match fails env c with
  | None => (result, None)
  | Some e => (take (upto env c) result, Some e)
  end.

(** ** The SQL statements *)

(** [select id from books where hash=?] *)
Definition select_id_by_hash (db : DB) (h : string) : list Z :=
  map books.id (List.filter (fun r => String.eqb (books.hash r) h) (table_books db)).

(** The rowid SQLite gives a new row: one more than the largest in use, 1
    in an empty table.  (Rowids are 64-bit; the table is taken to stay
    below the largest one.) *)
Definition next_rowid (ids : list Z) : Z :=
  match ids with
  | [] => 1
  | i :: rest => foldr Z.max i rest + 1
  end.

(** [insert into books (author, ..., source) values (?, ..., ?)]: [hash] is
    [unique]; [id] is the new rowid; [created_on] and [updated_on] take
    their default [datetime()]; [template_override] stays null.  The
    result pairs the table with the value of [res.LastInsertId()]. *)
Definition insert_into_books (env : Env) (db : DB) (book : Book) (tags : string)
  : DB * Z + error :=
  match fails env CInsertBook with
  | Some e => inr e
  | None =>
      if existsb (fun r => String.eqb (books.hash r) (Hash book)) (table_books db)
      then inr (ErrorString "UNIQUE constraint failed: books.hash")
      else
        let id := next_rowid (map books.id (table_books db)) in
        let r := books.mk id (now env) (now env) (Author book) (Series book)
                   (Title book) (Extension book) tags (OriginalFilename book)
                   (CurrentFilename book) (FileSize book) (FileMtime book)
                   (Hash book) (RegexpName book) None (Source book) in
        inl (mkDB (table_books db ++ [r]) (table_books_fts db), id)
  end.

(** [insert into books_fts (docid, author, ..., source) values (?, ..., ?)]:
    [docid] is the key of the index. *)
Definition insert_into_books_fts (env : Env) (db : DB) (id : Z) (book : Book)
    (tags : string) : DB + error :=
  match fails env CInsertFts with
  | Some e => inr e
  | None =>
      if existsb (fun r => Z.eqb (books_fts.docid r) id) (table_books_fts db)
      then inr (ErrorString "constraint failed")
      else
        let r := books_fts.mk id (Author book) (Series book) (Title book)
                   (Extension book) tags (CurrentFilename book) (Source book) in
        inl (mkDB (table_books db) (table_books_fts db ++ [r]))
  end.

(** The parameters of a statement: its question marks. *)
Fixpoint count_params (sql : string) : nat :=
  match sql with
  | EmptyString => O
  | String c sql' =>
      if Ascii.eqb c "?"%char then S (count_params sql') else count_params sql'
  end.

(** [lib.Query(sql, args...)] at [c] for a statement that the program puts
    together itself: besides what the environment does (for the query of
    [GetBooksById] that depends on the number of variables, [c] being
    [CByIdQuery n]: SQLite refuses a statement with more variables than its
    limit), the call is refused when the number of arguments is not the
    number of parameters of the statement. *)
Definition db_Query (env : Env) (c : Call) (sql : string) (nargs : nat)
  : option error :=
  match fails env c with
  | Some e => Some e
  | None =>
      if (count_params sql =? nargs)%nat then None
      else Some (ErrorString "sql: wrong number of arguments")
  end.

(** [select id, hash, author, series, tags, title, extension, filename from
    books where id in (?,...,?)]: the rows of the table whose id is one of
    the arguments, in the order of the table. *)
Definition select_by_ids (db : DB) (ids : list Z) : list books.row :=
  List.filter (fun r => existsb (Z.eqb (books.id r)) ids) (table_books db).

(** [select docid from books_fts where books_fts match ?] *)
Definition select_docid_match (env : Env) (db : DB) (terms : string) : list Z :=
  fts_match env terms (table_books_fts db).

(** ** The calls to package [os], [io] and [os/exec] *)

Definition record (e : Event) (w : World) : World :=
  mkWorld (w_db w) (w_fs w) (e :: w_calls w).

Definition set_files (fs : gmap string File) (w : World) : World :=
  mkWorld (w_db w) (mkFS fs (dirs (w_fs w))) (w_calls w).

Definition set_db (db : DB) (w : World) : World :=
  mkWorld db (w_fs w) (w_calls w).

Definition is_file (fs : FS) (name : string) : bool :=
  bool_decide (is_Some (files fs !! name)).

(** [os.Stat(name)] has a nil error: a file or a directory has that name. *)
Definition os_Stat (fs : FS) (name : string) : bool :=
  is_file fs name || bool_decide (name ∈ dirs fs).

(** The directories on the way to [path], [path] itself last. *)
Fixpoint dir_chain (above : string) (elems : list string) : list string :=
  match elems with
  | [] => []
  | e :: rest => (above +:+ e) :: dir_chain (above +:+ e +:+ "/") rest
  end.

Definition MkdirAll_dirs (path : string) : list string :=
  List.filter (fun d => negb (String.eqb d ""))
              (dir_chain "" (strings_Split path "/")).

(** [os.MkdirAll(path, 0755)]: the directories on the way to [path] are
    made from the top down, [path] itself last.  A regular file in the way
    makes it fail before anything is made.  When the environment refuses
    it, the directories made before the refusal stay: the first
    [upto env CMkdirAll] of the chain, and never [path] itself. *)
Definition os_MkdirAll (env : Env) (w : World) (path : string)
  : World * option error :=
  let w := record (EvMkdirAll path) w in
  match fails env CMkdirAll with
  | Some e =>
      if existsb (is_file (w_fs w)) (MkdirAll_dirs path)
      then (w, Some e)
      else (mkWorld (w_db w)
              (mkFS (files (w_fs w))
                    (dirs (w_fs w)
                     ∪ list_to_set (take (upto env CMkdirAll)
                                         (removelast (MkdirAll_dirs path)))))
              (w_calls w), Some e)
  | None =>
      if existsb (is_file (w_fs w)) (MkdirAll_dirs path)
      then (w, Some (ErrorString "not a directory"))
      else (mkWorld (w_db w)
              (mkFS (files (w_fs w))
                    (dirs (w_fs w) ∪ list_to_set (MkdirAll_dirs path)))
              (w_calls w), None)
  end.

(** [os.Rename(src, dst)] for a regular file. *)
Definition os_Rename (env : Env) (w : World) (src dst : string)
  : World * option error :=
  let w := record (EvRename src dst) w in
  match fails env CRename with
  | Some e => (w, Some e)
  | None =>
      match files (w_fs w) !! src with
      | None => (w, Some (ErrorString "no such file or directory"))
      | Some f => (set_files (<[dst := f]> (delete src (files (w_fs w)))) w, None)
      end
  end.

(** [os.Open(src)]: the regular file as it is when it is opened.  (Go also
    opens a directory and fails at the first read of it; here a directory
    is refused at once.) *)
Definition os_Open (env : Env) (w : World) (name : string)
  : World * (File + error) :=
  let w := record (EvOpen name) w in
  match fails env COpen with
  | Some e => (w, inr e)
  | None =>
      match files (w_fs w) !! name with
      | None => (w, inr (ErrorString "no such file or directory"))
      | Some f => (w, inl f)
      end
  end.

(** [fp.Stat()], of which the program uses [ModTime()]. *)
Definition File_Stat (env : Env) (fp : File) : Z + error :=
  match fails env CFstat with
  | Some e => inr e
  | None => inl (mtime fp)
  end.

(** [os.Create(dst)]: the file is created empty, or emptied. *)
Definition os_Create (env : Env) (w : World) (name : string)
  : World * option error :=
  let w := record (EvCreate name) w in
  match fails env CCreate with
  | Some e => (w, Some e)
  | None =>
      if bool_decide (name ∈ dirs (w_fs w))
      then (w, Some (ErrorString "is a directory"))
      else (set_files (<[name := mkFile "" (now env)]> (files (w_fs w))) w, None)
  end.

(** [io.Copy(fd, fp)], [fd] open on [dst] and [fp] on [src]: the bytes that
    [src] holds at this point go to [dst]; a failure leaves the first
    [upto env CCopy] of them there. *)
Definition io_Copy (env : Env) (w : World) (dst src : string)
  : World * option error :=
  let w := record (EvCopy dst) w in
  let data := default "" (content <$> files (w_fs w) !! src) in
  match fails env CCopy with
  | Some e =>
      (set_files (<[dst := mkFile (String.substring 0 (upto env CCopy) data)
                                  (now env)]> (files (w_fs w))) w, Some e)
  | None =>
      (set_files (<[dst := mkFile data (now env)]> (files (w_fs w))) w, None)
  end.

(** [fd.Close()]. *)
Definition File_Close (env : Env) : option error := fails env CClose.

(** [os.Chtimes(name, atime, mtime)]; access times are not modelled. *)
Definition os_Chtimes (env : Env) (w : World) (name : string) (atime mtime' : Z)
  : World * option error :=
  let w := record (EvChtimes name atime mtime') w in
  match fails env CChtimes with
  | Some e => (w, Some e)
  | None =>
      match files (w_fs w) !! name with
      | None => (w, Some (ErrorString "no such file or directory"))
      | Some f =>
          (set_files (<[name := mkFile (content f) mtime']> (files (w_fs w))) w, None)
      end
  end.

(** [os.Remove(name)] for a regular file. *)
Definition os_Remove (env : Env) (w : World) (name : string)
  : World * option error :=
  let w := record (EvRemove name) w in
  match fails env CRemove with
  | Some e => (w, Some e)
  | None =>
      match files (w_fs w) !! name with
      | None => (w, Some (ErrorString "no such file or directory"))
      | Some _ => (set_files (delete name (files (w_fs w))) w, None)
      end
  end.

(** [exec.Command(name, args...).Run()]: nil exactly when the program
    starts and exits with status zero.  What the program does to the file
    system is its own business and is not modelled. *)
Definition cmd_Run (env : Env) (w : World) (name : string) (args : list string)
  : World * option error :=
  let w := record (EvExec name args) w in
  match run env name args with
  | Exited 0 => (w, None)
  | Exited code => (w, Some (ExitError code))
  | NotStarted e => (w, Some e)
  end.

(** ** library.go *)

(** [type Library struct]: the catalog itself is [w_db] of the world. *)
Record Library : Type := mkLibrary {
  lib_filename : string;
  booksRoot : string
}.

(** [copyFile(src, dst)].  The deferred function closes [dst], which can
    turn the result into an error, and then sets the times of [dst],
    whatever the result; the error of [os.Chtimes] is dropped. *)
Definition copyFile (env : Env) (w : World) (src dst : string)
  : World * option error :=
  match os_Open env w src with
  | (w, inr err) => (w, errors_Wrap (Some err) "Copy file")
  | (w, inl fp) =>
      match File_Stat env fp with
      | inr err => (w, errors_Wrap (Some err) "Copy file")
      | inl st =>
          match os_Create env w dst with
          | (w, Some err) => (w, errors_Wrap (Some err) "Copy file")
          | (w, None) =>
              let '(w, err) := io_Copy env w dst src in
              let e := errors_Wrap err "Copy file" in
              let e := match File_Close env with
                       | Some err => errors_Wrap (Some err) "Copy file"
                       | None => e
                       end in
              let '(w, _) := os_Chtimes env w dst (now env) st in
              (w, e)
          end
      end
  end.

(** [moveFile(src, dst)]. *)
Definition moveFile (env : Env) (w : World) (src dst : string)
  : World * option error :=
  match os_Rename env w src dst with
  | (w, Some _) =>
      match copyFile env w src dst with
      | (w, Some err) => (w, Some err)
      | (w, None) =>
          match os_Remove env w src with
          | (w, Some _) => (w, None)
          | (w, None) => (w, None)
          end
      end
  | (w, None) => (w, None)
  end.

(** [lib.moveOrCopyFile(book, move)]. *)
Definition moveOrCopyFile (lib : Library) (env : Env) (w : World) (book : Book)
    (move : bool) : World * option error :=
  let newName := CurrentFilename book in
  let newPath := path_Join [booksRoot lib; newName] in
  match os_MkdirAll env w (path_Dir newPath) with
  | (w, Some err) => (w, Some err)
  | (w, None) =>
      if move
      then moveFile env w (OriginalFilename book) newPath
      else copyFile env w (OriginalFilename book) newPath
  end.

Definition set_Id (id : Z) (book : Book) : Book :=
  mkBook id (Hash book) (Author book) (Series book) (Title book)
    (Extension book) (Tags book) (OriginalFilename book)
    (CurrentFilename book) (FileSize book) (FileMtime book)
    (RegexpName book) (Source book).

(** [lib.ImportBook(book, move)].  The transaction works on its own copy
    [tx] of the catalog; [tx.Rollback()] drops the copy, [tx.Commit()]
    makes it the catalog.  The duplicate query goes through [lib], outside
    the transaction, and reads the committed catalog.  When the iteration
    of its rows fails, the error that is wrapped is the nil one of the
    query, and wrapping nil gives nil.  The result of [tx.Commit()] is
    dropped. *)
Definition ImportBook (lib : Library) (env : Env) (w : World) (book : Book)
    (move : bool) : World * option error :=
  match fails env CBegin with
  | Some err => (w, Some err)
  | None =>
      let tx := w_db w in
      match fails env CDupQuery with
      | Some err => (w, Some err)
      | None =>
          let err : option error := None in
          let '(rows, rows_err) :=
            iterate env CDupRows (select_id_by_hash (w_db w) (Hash book)) in
          match rows with
          | id :: _ => (w, Some (duplicate_error id))
          | [] =>
              match rows_err with
              | Some _ =>
                  (w, errors_Wrap err
                        ("Searching for duplicate book by hash " +:+ Hash book))
              | None =>
                  let tags := strings_Join (Tags book) "/" in
                  match insert_into_books env tx book tags with
                  | inr err => (w, errors_Wrap (Some err) "Inserting book into the db")
                  | inl (tx, last_id) =>
                      match fails env CLastInsertId with
                      | Some err => (w, errors_Wrap (Some err) "Fetching new book ID")
                      | None =>
                          let id := last_id in
                          let book := set_Id id book in
                          match insert_into_books_fts env tx id book tags with
                          | inr err =>
                              (w, errors_Wrap (Some err) "Indexing book for search")
                          | inl tx =>
                              match moveOrCopyFile lib env w book move with
                              | (w, Some err) =>
                                  (w, errors_Wrap (Some err) "Moving or copying book")
                              | (w, None) =>
                                  match fails env CCommit with
                                  | Some _ => (w, None)
                                  | None => (set_db tx w, None)
                                  end
                              end
                          end
                      end
                  end
              end
          end
      end
  end.

(** The columns that [GetBooksById] scans into a [Book{}]; the other fields
    keep their zero values. *)
Definition scan_book (r : books.row) : Book :=
  mkBook (books.id r) (books.hash r) (books.author r) (books.series r)
    (books.title r) (books.extension r)
    (strings_Split (books.tags r) "/")
    "" (books.filename r) 0 0 "" "".

(** The loop [for rows.Next()] of [GetBooksById]; [i] counts the rows
    scanned so far.  [inr] is the return from inside the loop. *)
Fixpoint scan_rows (env : Env) (i : nat) (rows : list books.row)
    (results : list Book) : list Book + list Book * error :=
  match rows with
  | [] => inl results
  | r :: rows' =>
      match fails env CByIdScan with
      | Some err =>
          if (upto env CByIdScan <=? i)%nat
          then inr (results, WithMessage err "scanning rows")
          else scan_rows env (S i) rows' (results ++ [scan_book r])
      | None => scan_rows env (S i) rows' (results ++ [scan_book r])
      end
  end.

(** The statement of [GetBooksById] around the placeholders. *)
Definition by_ids_select : string :=
  "select id, hash, author, series, tags, title, extension, filename from books where id in (".

Definition by_ids_sql (joined : string) : string :=
  by_ids_select +:+ joined +:+ ")".

(** [lib.GetBooksById(ids)].  [joined[:len(joined)-1]] is taken of a string
    that is not empty, [ids] being not empty there.  After the loop the
    error that is wrapped is the nil one of the query, not [rows.Err()]. *)
Definition GetBooksById (env : Env) (w : World) (ids : list Z)
  : list Book * option error :=
  if (length ids =? 0)%nat then ([], None)
  else
    let results : list Book := [] in
    let joined := strings_Repeat "?," (length ids) in
    let joined := String.substring 0 (String.length joined - 1) joined in
    let iids := ids in
    match db_Query env (CByIdQuery (length iids)) (by_ids_sql joined)
            (length iids) with
    | Some err => (results, errors_Wrap (Some err) "fetching books from database by ID")
    | None =>
        let err : option error := None in
        let '(rows, rows_err) := iterate env CByIdRows (select_by_ids (w_db w) ids) in
        match scan_rows env 0 rows results with
        | inr (results, e) => (results, Some e)
        | inl results =>
            match rows_err with
            | Some _ => (results, errors_Wrap err "querying books by ID")
            | None => (results, None)
            end
        end
    end.

(** [lib.Search(terms)]. *)
Definition Search (env : Env) (w : World) (terms : string)
  : list Book * option error :=
  let results : list Book := [] in
  match fails env CFtsQuery with
  | Some err => (results, errors_Wrap (Some err) "Querying db for search terms")
  | None =>
      let '(ids, err) := iterate env CFtsRows (select_docid_match env (w_db w) terms) in
      match err with
      | Some err => (results, errors_Wrap (Some err) "Retreiving search results from db")
      | None => GetBooksById env w ids
      end
  end.

(** The two paths of [ConvertToEpub]. *)
Definition convert_source (lib : Library) (book : Book) : string :=
  path_Join [booksRoot lib; CurrentFilename book].

Definition convert_newFile (lib : Library) (book : Book) : string :=
  let cacheDir := path_Join [path_Dir (lib_filename lib); "cache"] in
  path_Join [cacheDir; Hash book +:+ ".epub"].

(** [lib.ConvertToEpub(book)]; its only result is the [error]. *)
Definition ConvertToEpub (lib : Library) (env : Env) (w : World) (book : Book)
  : World * option error :=
  let filename := convert_source lib book in
  let newFile := convert_newFile lib book in
  match cmd_Run env w "ebook-convert" [filename; newFile] with
  | (w, Some err) => (w, Some err)
  | (w, None) => (w, None)
  end.

(** Go's [int] is 64 bits wide on the platforms of the program. *)
Definition max_int : Z := 2 ^ 63 - 1.
Definition min_int : Z := - 2 ^ 63.

(** [i++] on an [int]. *)
Definition int_incr (i : Z) : Z :=
  if (i =? max_int)%Z then min_int else (i + 1)%Z.

(** The name that [GetUniqueName] tries for the number [i]. *)
Definition numbered_name (f ext : string) (i : Z) : string :=
  strings_TrimSuffix f ext +:+ " (" +:+ strconv_Itoa i +:+ ")" +:+ ext.

(** The loop [for err == nil] of [GetUniqueName], entered with [newName]
    about to be tested.  The loop has no bound of its own: [fuel] bounds
    the number of names that are tried after the first, and [None] means
    that it ran out. *)
Fixpoint GetUniqueName_loop (fuel : nat) (fs : FS) (f ext : string) (i : Z)
    (newName : string) : option string :=
  if os_Stat fs newName
  then match fuel with
       | O => None
       | S fuel' =>
           GetUniqueName_loop fuel' fs f ext (int_incr i) (numbered_name f ext i)
       end
  else Some newName.

(** [GetUniqueName(f)]. *)
Definition GetUniqueName (fuel : nat) (fs : FS) (f : string) : option string :=
  let i := 1%Z in
  let ext := path_Ext f in
  let newName := f in
  GetUniqueName_loop fuel fs f ext i newName.

(** The values that a call hands back to its caller.  [ConvertToEpub] is
    declared [func (lib *Library) ConvertToEpub(book Book) error]: one
    value, an [error]. *)
Inductive GoValue : Type :=
  | GoString (s : string)
  | GoError (e : option error).

Definition ConvertToEpub_results (lib : Library) (env : Env) (w : World)
    (book : Book) : list GoValue :=
  [GoError (ConvertToEpub lib env w book).2].

(** The names in use on a file system. *)
Definition fs_names (fs : FS) : gset string := dom (files fs) ∪ dirs fs.

(** ** Creating and opening a library *)

(** A catalog file as [CreateLibrary] finds it: [None] is a file without
    tables (a new file among them), [Some db] a file with the tables of
    [initialSchema] and their rows. *)
Definition initial_catalog : DB := mkDB [] [].

(** [db.Exec(initialSchema)]: the first statement is [create table books],
    which SQLite refuses when the table is there; nothing of the script
    runs after a refused statement. *)
Definition exec_initialSchema (exec_err : option error) (file : option DB)
  : option DB * option error :=
  match exec_err with
  | Some e => (file, Some e)
  | None =>
      match file with
      | Some db => (file, Some (ErrorString "table books already exists"))
      | None => (Some initial_catalog, None)
      end
  end.

(** [CreateLibrary(filename)] on the catalog file of that name.  [open_err]
    and [exec_err] are what the environment does to [sql.Open] and to
    [db.Exec]. *)
Definition CreateLibrary (open_err exec_err : option error) (file : option DB)
  : option DB * option error :=
  match open_err with
  | Some err => (file, errors_Wrap (Some err) "Create library")
  | None =>
      match exec_initialSchema exec_err file with
      | (file, Some err) => (file, errors_Wrap (Some err) "Create library")
      | (file, None) => (file, None)
      end
  end.

(** [OpenLibrary(filename, booksRoot)]: [sql.Open] does not touch the file;
    the catalog is looked at by the later calls. *)
Definition OpenLibrary (open_err : option error) (filename root : string)
  : option Library * option error :=
  match open_err with
  | Some err => (None, Some err)
  | None => (Some (mkLibrary filename root), None)
  end.

(** ** Catalogs in good order *)

(** The index row that [ImportBook] writes beside a row of [books]. *)
Definition fts_of_row (r : books.row) : books_fts.row :=
  books_fts.mk (books.id r) (books.author r) (books.series r) (books.title r)
    (books.extension r) (books.tags r) (books.filename r) (books.source r).

(** The rows of [books] are in the order of their ids, no two have one
    hash, and the index holds, row for row, the index rows of [books]. *)
Definition catalog_ok (db : DB) : Prop :=
  StronglySorted Z.lt (map books.id (table_books db)) ∧
  NoDup (map books.hash (table_books db)) ∧
  table_books_fts db = map fts_of_row (table_books db).

(** The ids are 1, 2, ..., up to the number of rows. *)
Definition ids_dense (db : DB) : Prop :=
  map books.id (table_books db)
  = map Z.of_nat (seq 1 (length (table_books db))).

(** A run of calls of [ImportBook], each in its own environment; the
    errors are dropped, the world goes on. *)
Definition import_step (lib : Library) (w : World) (call : Env * Book * bool)
  : World :=
  (ImportBook lib call.1.1 w call.1.2 call.2).1.

Definition imports (lib : Library) (calls : list (Env * Book * bool)) (w : World)
  : World :=
  fold_left (import_step lib) calls w.

(** The row that [ImportBook] writes for [book] under the id [id]. *)
Definition row_of_book (env : Env) (id : Z) (book : Book) : books.row :=
  books.mk id (now env) (now env) (Author book) (Series book) (Title book)
    (Extension book) (strings_Join (Tags book) "/") (OriginalFilename book)
    (CurrentFilename book) (FileSize book) (FileMtime book) (Hash book)
    (RegexpName book) None (Source book).

(** The calls of [ImportBook] on the catalog, in their order. *)
Definition catalog_calls : list Call :=
  [CBegin; CDupQuery; CDupRows; CInsertBook; CLastInsertId; CInsertFts].

(** ** The editor (commands/edit.go) *)

(** The first occurrence of [sep] in [s]: what is before it and what is
    after it. *)
Fixpoint cut_first (sep s : string) : option (string * string) :=
  if String.prefix sep s
  then Some ("", String.substring (String.length sep)
                   (String.length s - String.length sep) s)
  else match s with
       | EmptyString => None
       | String c s' =>
           match cut_first sep s' with
           | Some (before, after) => Some (String c before, after)
           | None => None
           end
       end.

(** The loop of [strings.SplitN] for a separator that is not empty: [k]
    cuts at most, the rest of the string is the last piece. *)
Fixpoint splitN_loop (sep : string) (k : nat) (s : string) : list string :=
  match k with
  | O => [s]
  | S k' =>
      match cut_first sep s with
      | None => [s]
      | Some (before, after) => before :: splitN_loop sep k' after
      end
  end.

(** With an empty separator: at most [k] pieces, all but the last of one
    byte (Go: of one UTF-8 sequence). *)
Fixpoint explode_upto (k : nat) (s : string) : list string :=
  match s with
  | EmptyString => []
  | String c s' =>
      match k with
      | O => []
      | S O => [s]
      | S k' => String c "" :: explode_upto k' s'
      end
  end.

(** [strings.SplitN(s, sep, n)]: nil for [n == 0], all the pieces for
    [n < 0], at most [n] pieces otherwise. *)
Definition strings_SplitN (s sep : string) (n : Z) : list string :=
  if (n =? 0)%Z then []
  else match sep with
       | EmptyString =>
           if (n <? 0)%Z then explode s else explode_upto (Z.to_nat n) s
       | _ =>
           if (n <? 0)%Z then strings_Split s sep
           else splitN_loop sep (Z.to_nat n - 1) s
       end.

(** The text of an error, [err.Error()]: a wrapped error reads
    [message: cause]. *)
Fixpoint error_text (e : error) : string :=
  match e with
  | ErrorString msg => msg
  | ExitError code => "exit status " +:+ strconv_Itoa code
  | WithMessage cause msg => msg +:+ ": " +:+ error_text cause
  end.

(** The line feed. *)
Definition LF : string := String (ascii_of_nat 10) "".

Module commands.

(** Modelled from the spec: the declaration of [books.Book] in the version
    of the library that the editor is compiled against, which is not among
    the sources.  The fields are those that [edit.go] reads and writes. *)
Record Book : Type := mkBook {
  ID : Z;
  Title : string;
  Authors : list string;
  Series : string
}.

(** What [lib.UpdateBook] returns besides nil: a [books.BookExistsError]
    with the id of the other book, or another error. *)
Inductive UpdateError : Type :=
  | BookExistsError (BookID : Z)
  | OtherError (e : error).

Inductive Stream : Type := Stdout | Stderr.

(** What a command writes, in order. *)
Definition Output : Type := list (Stream * string).

(** [fmt.Println(a, b)]: the operands with a space between them, and a
    line feed. *)
Definition Println (operands : list string) : Stream * string :=
  (Stdout, strings_Join operands " " +:+ LF).

Section Editor.

(** The library of that version is not among the sources either: its state
    and the two methods that [cmdSave] calls are taken as they come. *)
Variable Lib : Type.
Variable UpdateBook : Lib → Book → bool → Lib * option UpdateError.
Variable MergeBooks : Lib → list Z → Lib * option error.

(** A command: the book and the library after it, and what it wrote. *)
Definition Command : Type := Book → Lib → string → Book * Lib * Output.

(** [cmdShow]. *)
Definition cmdShow : Command := fun book lib args =>
  (book, lib,
   [Println ["Title: "; Title book];
    Println ["Authors: "; strings_Join (Authors book) " & "];
    Println ["Series: "; Series book]]).

(** [cmdAuthors]. *)
Definition cmdAuthors : Command := fun book lib args =>
  if String.eqb args ""
  then (book, lib, [(Stderr, "Usage: authors <authors>" +:+ LF)])
  else
    let newAuthors := strings_Split args " & " in
    (mkBook (ID book) (Title book) newAuthors (Series book), lib, []).

(** [cmdTitle]. *)
Definition cmdTitle : Command := fun book lib args =>
  if String.eqb args ""
  then (book, lib, [(Stderr, "Usage: title <title>" +:+ LF)])
  else (mkBook (ID book) args (Authors book) (Series book), lib, []).

(** [cmdSeries]. *)
Definition cmdSeries : Command := fun book lib args =>
  if String.eqb args ""
  then (book, lib, [(Stderr, "Usage: series <series>" +:+ LF)])
  else (mkBook (ID book) (Title book) (Authors book) args, lib, []).

(** [cmdSave].  [UpdateBook] is given the book by value. *)
Definition cmdSave : Command := fun book lib args =>
  match UpdateBook lib book true with
  | (lib, Some (BookExistsError BookID)) =>
      if String.eqb args "-m"
      then match MergeBooks lib [BookID; ID book] with
           | (lib, Some err) =>
               (book, lib,
                [(Stderr, "Error merging books: " +:+ error_text err +:+ LF)])
           | (lib, None) =>
               (book, lib,
                [(Stdout, "Merged into " +:+ strconv_Itoa BookID +:+ LF)])
           end
      else (book, lib,
            [(Stdout, "A duplicate book already exists, id: "
                      +:+ strconv_Itoa BookID
                      +:+ ". To merge, type save -m." +:+ LF)])
  | (lib, Some (OtherError err)) =>
      (book, lib,
       [(Stderr, "error while updating book: " +:+ error_text err +:+ LF)])
  | (lib, None) => (book, lib, [])
  end.

(** [cmdtable]. *)
Definition cmdtable : gmap string Command :=
  <["a" := cmdAuthors]>
  (<["authors" := cmdAuthors]>
  (<["show" := cmdShow]>
  (<["title" := cmdTitle]>
  (<["series" := cmdSeries]>
  (<["save" := cmdSave]> ∅))))).

(** [parse(b, lib, cmd)].  [None] is the panic of [lst[0]] on an empty
    slice. *)
Definition parse (b : Book) (lib : Lib) (cmd : string)
  : option (Book * Lib * Output) :=
  let lst := strings_SplitN cmd " " 2 in
  let args := if (length lst =? 1)%nat then "" else default "" (lst !! 1%nat) in
  match lst !! 0%nat with
  | None => None
  | Some name =>
      match cmdtable !! name with
      | None => Some (b, lib, [Println ["Unknown command."]])
      | Some fn => Some (fn b lib args)
      end
  end.

(** The loop at the end of [editFunc], given the lines that the prompt
    returns before it first fails: each line is parsed in turn.  [None] is
    a panic. *)
Fixpoint edit_loop (lines : list string) (b : Book) (lib : Lib)
  : option (Book * Lib * Output) :=
  match lines with
  | [] => Some (b, lib, [])
  | cmd :: lines' =>
      match parse b lib cmd with
      | None => None
      | Some (b, lib, out) =>
          match edit_loop lines' b lib with
          | None => None
          | Some (b, lib, out') => Some (b, lib, out ++ out')
          end
      end
  end.

End Editor.

End commands.

(** A piece of a file name: neither a dot nor a slash in it. *)
Definition plain (s : string) : bool :=
  negb (strings_Contains s ".") && negb (strings_Contains s "/").

(** The parts of [path.Clean]: the elements it looks at, and the path it
    writes for the elements it kept (the last one first). *)
Definition clean_elems (path : string) : list string :=
  List.filter (fun e => negb (String.eqb e "") && negb (String.eqb e "."))
              (strings_Split path "/").

Definition clean_render (rooted : bool) (out : list string) : string :=
  let r := (if rooted then "/" else "") +:+ strings_Join (rev out) "/" in
  if String.eqb r "" then "." else r.

(** An element that [path.Clean] keeps: not empty, not a dot, and, being a
    piece between slashes, without a slash. *)
Definition path_element (e : string) : bool :=
  negb (String.eqb e "") && negb (String.eqb e ".")
  && negb (strings_Contains e "/").

(** The stacks [path.Clean] builds: kept elements, then, in a path that is
    not rooted, the [..] that nothing could take off. *)
Definition clean_stack (rooted : bool) (out : list string) : Prop :=
  ∃ tops k, out = tops ++ replicate k ".." ∧ (".." ∉ tops) ∧
            (rooted = true → k = 0%nat) ∧
            Forall (fun e => path_element e = true) out.

(** ** Sample data *)

(** A run of the program used below to try the statements: a library, an
    inbox with two files, and the two books made from them. *)
Definition lib0 : Library := mkLibrary "/home/u/library.db" "/srv/books".

Definition dune : Book :=
  mkBook 0 "h-dune" "Frank Herbert" "Dune" "Dune" "epub" ["sf"; "classic"]
    "/in/dune.epub" "Herbert/Dune.epub" 5 1000 "author-title" "inbox".

Definition emma : Book :=
  mkBook 0 "h-emma" "Jane Austen" "" "Emma" "epub" []
    "/in/emma.epub" "Austen/Emma.epub" 4 1500 "author-title" "inbox".

(** The same bytes as [dune] under another title. *)
Definition dune_again : Book :=
  mkBook 0 "h-dune" "Frank Herbert" "Dune" "Dune (dup)" "epub" []
    "/in/dune2.epub" "Herbert/Dune (dup).epub" 5 1200 "author-title" "inbox".

Definition fs0 : FS :=
  mkFS (<["/in/dune.epub" := mkFile "dune!" 1000]>
          (<["/in/emma.epub" := mkFile "emma" 1500]> ∅))
       {["/in"]}.

Definition w0 : World := mkWorld (mkDB [] []) fs0 [].

(** An engine for which every row matches. *)
Definition every_row (terms : string) (r : books_fts.row) : bool := true.

(** An engine that looks for [terms] as the whole of one of the columns. *)
Definition whole_column (terms : string) (r : books_fts.row) : bool :=
  existsb (String.eqb terms)
    [books_fts.author r; books_fts.series r; books_fts.title r;
     books_fts.extension r; books_fts.tags r; books_fts.filename r;
     books_fts.source r].

(** Nothing fails; the clock shows 2000; the converter exits with 0. *)
Definition env_ok : Env :=
  mkEnv (fun _ => None) (fun _ => O) 2000 every_row (fun _ _ => Exited 0).

Definition env_whole_column : Env :=
  mkEnv (fun _ => None) (fun _ => O) 2000 whole_column (fun _ _ => Exited 0).

(** The directory of the book cannot be made. *)
Definition env_mkdir_fails : Env :=
  mkEnv (fun c => match c with
                  | CMkdirAll => Some (ErrorString "permission denied")
                  | _ => None
                  end)
        (fun _ => O) 2000 every_row (fun _ _ => Exited 0).

(** The books root is on another device, and the inbox is read-only. *)
Definition env_other_device : Env :=
  mkEnv (fun c => match c with
                  | CRename => Some (ErrorString "invalid cross-device link")
                  | CRemove => Some (ErrorString "permission denied")
                  | _ => None
                  end)
        (fun _ => O) 2000 every_row (fun _ _ => Exited 0).

(** The destination can be written but its times cannot be set (a file
    of another owner that the group may write). *)
Definition env_chtimes_fails : Env :=
  mkEnv (fun c => match c with
                  | CChtimes => Some (ErrorString "operation not permitted")
                  | _ => None
                  end)
        (fun _ => O) 2000 every_row (fun _ _ => Exited 0).

(** The catalog after [dune], and after [dune] and [emma], were imported
    by copy. *)
Definition w1 : World := (ImportBook lib0 env_ok w0 dune false).1.
Definition w2 : World := (ImportBook lib0 env_ok w1 emma false).1.

Definition row_dune : books.row :=
  books.mk 1 2000 2000 "Frank Herbert" "Dune" "Dune" "epub" "sf/classic"
    "/in/dune.epub" "Herbert/Dune.epub" 5 1000 "h-dune" "author-title" None
    "inbox".

Definition fts_dune : books_fts.row :=
  books_fts.mk 1 "Frank Herbert" "Dune" "Dune" "epub" "sf/classic"
    "Herbert/Dune.epub" "inbox".

Definition row_emma : books.row :=
  books.mk 2 2000 2000 "Jane Austen" "" "Emma" "epub" ""
    "/in/emma.epub" "Austen/Emma.epub" 4 1500 "h-emma" "author-title" None
    "inbox".

(** The disk is full when the book row is to be written. *)
Definition env_insert_fails : Env :=
  mkEnv (fun c => match c with
                  | CInsertBook => Some (ErrorString "database or disk is full")
                  | _ => None
                  end)
        (fun _ => O) 2000 every_row (fun _ _ => Exited 0).

(** The disk is full once the first directory on the way is made. *)
Definition env_mkdir_fails_late : Env :=
  mkEnv (fun c => match c with
                  | CMkdirAll => Some (ErrorString "no space left on device")
                  | _ => None
                  end)
        (fun _ => 1%nat) 2000 every_row (fun _ _ => Exited 0).

(** SQLite's limit on the number of variables of a statement, as it is
    built since version 3.32 (it was 999 before). *)
Definition SQLITE_MAX_VARIABLE_NUMBER : Z := 32766.

(** Nothing fails but a query with more variables than SQLite takes. *)
Definition env_sqlite : Env :=
  mkEnv (fun c => match c with
                  | CByIdQuery n =>
                      if (SQLITE_MAX_VARIABLE_NUMBER <? Z.of_nat n)%Z
                      then Some (ErrorString "too many SQL variables")
                      else None
                  | _ => None
                  end)
        (fun _ => O) 2000 every_row (fun _ _ => Exited 0).

(** The commit is refused. *)
Definition env_commit_fails : Env :=
  mkEnv (fun c => match c with
                  | CCommit => Some (ErrorString "database is locked")
                  | _ => None
                  end)
        (fun _ => O) 2000 every_row (fun _ _ => Exited 0).

(** The iteration of the rows of the duplicate query is refused before its
    first row. *)
Definition env_dup_rows_fail : Env :=
  mkEnv (fun c => match c with
                  | CDupRows => Some (ErrorString "database is locked")
                  | _ => None
                  end)
        (fun _ => O) 2000 every_row (fun _ _ => Exited 0).

(** A book in the editor, and a library for it that keeps the list of the
    merges it was asked for and in which book 1 has the title and authors
    that the edited book is saved with. *)
Definition edited : commands.Book :=
  commands.mkBook 3 "Dune" ["Frank Herbert"] "Dune".

Definition UpdateBook_taken (lib : list (list Z)) (b : commands.Book)
    (overwrite : bool) : list (list Z) * option commands.UpdateError :=
  (lib, Some (commands.BookExistsError 1)).

Definition MergeBooks_logged (lib : list (list Z)) (ids : list Z)
  : list (list Z) * option error :=
  (ids :: lib, None).

(** * Properties *)

(** ** The library functions on examples from their documentation *)

Example Split_tags : strings_Split "sf/classic/dune" "/" = ["sf"; "classic"; "dune"].
Proof. reflexivity. Qed.

Example Split_edges : strings_Split "/a//" "/" = [""; "a"; ""; ""].
Proof. reflexivity. Qed.

Example Split_long_sep : strings_Split "a & b & c" " & " = ["a"; "b"; "c"].
Proof. reflexivity. Qed.

Example Ext_examples :
  map path_Ext ["foo.epub"; "a.b/c"; "x/y.tar.gz"; "noext"; ".bashrc"]
  = [".epub"; ""; ".gz"; ""; ".bashrc"].
Proof. reflexivity. Qed.

Example Clean_examples :
  map path_Clean ["a/c"; "a//c"; "a/c/."; "a/c/b/.."; "/../a/c";
                  "/../a/b/../././/c"; ""; "../../a"; "/"; "a/../.."]
  = ["a/c"; "a/c"; "a/c"; "a/c"; "/a/c"; "/a/c"; "."; "../../a"; "/"; ".."].
Proof. reflexivity. Qed.

Example Join_Dir_examples :
  (path_Join ["/srv/books"; "Herbert/Dune.epub"],
   path_Join [""; "a"; ""; "b"],
   path_Dir "/home/u/books.db", path_Dir "books.db", path_Dir "/a/b/")
  = ("/srv/books/Herbert/Dune.epub", "a/b", "/home/u", ".", "/a/b").
Proof. reflexivity. Qed.

(** ** Tags: [strings.Join] and [strings.Split] on ["/"] *)

Section Tags.

Lemma append_cons c (s t : string) : String c s +:+ t = String c (s +:+ t).
Proof. reflexivity. Qed.

Lemma append_nil_l (t : string) : "" +:+ t = t.
Proof. reflexivity. Qed.

Lemma prefix_slash c s :
  String.prefix "/" (String c s) = bool_decide (c = "/"%char).
Proof.
  change (String.prefix "/" (String c s))
    with (if ascii_dec "/" c then String.prefix "" s else false).
  destruct (ascii_dec "/" c) as [<-|Hne].
  - destruct s; reflexivity.
  - rewrite bool_decide_eq_false_2; [reflexivity | congruence].
Qed.

Lemma Contains_slash_cons c s :
  strings_Contains (String c s) "/"
  = bool_decide (c = "/"%char) || strings_Contains s "/".
Proof.
  change (strings_Contains (String c s) "/")
    with (String.prefix "/" (String c s) || strings_Contains s "/").
  by rewrite prefix_slash.
Qed.

Lemma split_scan_cons_slash s :
  split_scan "/" 0 (String "/" s) = "" :: split_scan "/" 0 s.
Proof.
  change (split_scan "/" 0 (String "/" s))
    with (if String.prefix "/" (String "/" s)
          then "" :: split_scan "/" 0 s
          else match split_scan "/" 0 s with
               | piece :: pieces => String "/" piece :: pieces
               | [] => [String "/" ""]
               end).
  by rewrite prefix_slash, bool_decide_eq_true_2.
Qed.

Lemma split_scan_cons_other c s :
  c ≠ "/"%char →
  split_scan "/" 0 (String c s)
  = match split_scan "/" 0 s with
    | piece :: pieces => String c piece :: pieces
    | [] => [String c ""]
    end.
Proof.
  intros Hc.
  change (split_scan "/" 0 (String c s))
    with (if String.prefix "/" (String c s)
          then "" :: split_scan "/" 0 s
          else match split_scan "/" 0 s with
               | piece :: pieces => String c piece :: pieces
               | [] => [String c ""]
               end).
  by rewrite prefix_slash, bool_decide_eq_false_2.
Qed.

(** A split has at least one piece. *)
Lemma split_scan_length s : (1 <= length (split_scan "/" 0 s))%nat.
Proof.
  induction s as [|c s IH]; [cbn; lia|].
  destruct (decide (c = "/"%char)) as [->|Hc].
  - rewrite split_scan_cons_slash. cbn. lia.
  - rewrite split_scan_cons_other by done.
    destruct (split_scan "/" 0 s); cbn; lia.
Qed.

(** A tag without a slash, followed by a slash, is the first piece. *)
Lemma split_scan_piece t rest :
  strings_Contains t "/" = false →
  split_scan "/" 0 (t +:+ String "/" rest) = t :: split_scan "/" 0 rest.
Proof.
  induction t as [|c t IH]; intros Ht.
  - rewrite append_nil_l. apply split_scan_cons_slash.
  - rewrite Contains_slash_cons in Ht.
    apply orb_false_iff in Ht as [Hc Ht].
    apply bool_decide_eq_false in Hc.
    rewrite append_cons, split_scan_cons_other by done.
    by rewrite IH.
Qed.

(** A tag without a slash is its own single piece. *)
Lemma split_scan_whole t :
  strings_Contains t "/" = false → split_scan "/" 0 t = [t].
Proof.
  induction t as [|c t IH]; intros Ht; [reflexivity|].
  rewrite Contains_slash_cons in Ht.
  apply orb_false_iff in Ht as [Hc Ht].
  apply bool_decide_eq_false in Hc.
  rewrite split_scan_cons_other by done.
  by rewrite IH.
Qed.

Lemma Split_Join_nonempty (t : string) (T : list string) :
  Forall (fun t => strings_Contains t "/" = false) (t :: T) →
  strings_Split (strings_Join (t :: T) "/") "/" = t :: T.
Proof.
  revert t. induction T as [|t' T IH]; intros t HT.
  - apply Forall_cons in HT as [Ht _]. by apply split_scan_whole.
  - apply Forall_cons in HT as [Ht HT].
    change (strings_Join (t :: t' :: T) "/")
      with (t +:+ String "/" (strings_Join (t' :: T) "/")).
    unfold strings_Split. rewrite split_scan_piece by done.
    f_equal. by apply IH.
Qed.

End Tags.

(** ** Strings and their pieces *)

Section Substrings.

Lemma append_inv_head (s a b : string) : s +:+ a = s +:+ b → a = b.
Proof.
  induction s as [|c s IH]; [done|].
  rewrite !append_cons. intros [= H]. by apply IH.
Qed.

Lemma length_append (a b : string) :
  String.length (a +:+ b) = (String.length a + String.length b)%nat.
Proof.
  induction a as [|c a IH]; [done|].
  rewrite append_cons. cbn [String.length]. by rewrite IH.
Qed.

Lemma append_inv_tail (a b s : string) : a +:+ s = b +:+ s → a = b.
Proof.
  revert b. induction a as [|c a IH]; intros [|c' b] H.
  - done.
  - apply (f_equal String.length) in H.
    rewrite append_nil_l, append_cons in H. cbn [String.length] in H.
    rewrite length_append in H. lia.
  - apply (f_equal String.length) in H.
    rewrite append_nil_l, append_cons in H. cbn [String.length] in H.
    rewrite length_append in H. lia.
  - rewrite !append_cons in H. injection H as -> H. f_equal. by apply IH.
Qed.

Lemma substring_none n (s : string) : String.substring n 0 s = "".
Proof.
  revert n. induction s as [|c s IH]; intros [|n]; cbn; auto.
Qed.

Lemma substring_all (s : string) : String.substring 0 (String.length s) s = s.
Proof. induction s as [|c s IH]; [done|]. cbn. by rewrite IH. Qed.

(** [s[:k] + s[k:] == s]. *)
Lemma substring_split (s : string) k :
  (k ≤ String.length s)%nat →
  String.substring 0 k s +:+ String.substring k (String.length s - k) s = s.
Proof.
  revert k. induction s as [|c s IH]; intros [|k] Hk; cbn in *.
  - done.
  - lia.
  - by rewrite substring_all.
  - rewrite append_cons. f_equal. apply IH. lia.
Qed.

Lemma length_substring (s : string) k :
  (k ≤ String.length s)%nat →
  String.length (String.substring k (String.length s - k) s)
  = (String.length s - k)%nat.
Proof.
  revert k. induction s as [|c s IH]; intros [|k] Hk; cbn in *.
  - done.
  - lia.
  - by rewrite substring_all.
  - apply IH. lia.
Qed.

Lemma get_Some_lt (s : string) i c : String.get i s = Some c → (i < String.length s)%nat.
Proof.
  revert i. induction s as [|c' s IH]; intros [|i]; cbn; try done; [lia|].
  intros H%IH. lia.
Qed.

(** The extension is a tail of the path. *)
Lemma Ext_loop_tail path n :
  ∃ k, (k ≤ String.length path)%nat ∧
       Ext_loop path n = String.substring k (String.length path - k) path.
Proof.
  assert (Hnone : ∃ k, (k ≤ String.length path)%nat ∧
            "" = String.substring k (String.length path - k) path).
  { exists (String.length path). split; [done|].
    by rewrite Nat.sub_diag, substring_none. }
  induction n as [|i IH]; cbn [Ext_loop]; [done|].
  destruct (String.get i path) as [c|] eqn:Hget; [|done].
  destruct (Ascii.eqb c "/"); [done|].
  destruct (Ascii.eqb c "."); [|done].
  exists i. split; [|done]. apply get_Some_lt in Hget. lia.
Qed.

(** Go cuts the extension off and puts it back: nothing else of [f]
    changes. *)
Lemma TrimSuffix_Ext f : strings_TrimSuffix f (path_Ext f) +:+ path_Ext f = f.
Proof.
  unfold path_Ext.
  destruct (Ext_loop_tail f (String.length f)) as (k & Hk & ->).
  unfold strings_TrimSuffix, strings_HasSuffix.
  rewrite length_substring by done.
  replace (String.length f - (String.length f - k))%nat with k by lia.
  rewrite String.eqb_refl.
  replace (String.length f - k <=? String.length f)%nat with true
    by (symmetry; apply Nat.leb_le; lia).
  cbn [andb]. by apply substring_split.
Qed.

(** Two numbers give two names. *)
Lemma numbered_name_inj f ext i j :
  numbered_name f ext i = numbered_name f ext j → i = j.
Proof.
  unfold numbered_name, strconv_Itoa. intros H.
  do 2 apply append_inv_head in H.
  apply append_inv_tail in H. by apply (inj pretty) in H.
Qed.

End Substrings.

(** ** The calls to the operating system leave the catalog alone *)

Section Frame.
Context (env : Env).

Lemma os_MkdirAll_db w p : w_db (os_MkdirAll env w p).1 = w_db w.
Proof. unfold os_MkdirAll. repeat case_match; reflexivity. Qed.

Lemma os_Rename_db w src dst : w_db (os_Rename env w src dst).1 = w_db w.
Proof. unfold os_Rename. repeat case_match; reflexivity. Qed.

Lemma os_Open_db w src : w_db (os_Open env w src).1 = w_db w.
Proof. unfold os_Open. repeat case_match; reflexivity. Qed.

Lemma os_Create_db w dst : w_db (os_Create env w dst).1 = w_db w.
Proof. unfold os_Create. repeat case_match; reflexivity. Qed.

Lemma io_Copy_db w dst src : w_db (io_Copy env w dst src).1 = w_db w.
Proof. unfold io_Copy. repeat case_match; reflexivity. Qed.

Lemma os_Chtimes_db w name a m : w_db (os_Chtimes env w name a m).1 = w_db w.
Proof. unfold os_Chtimes. repeat case_match; reflexivity. Qed.

Lemma os_Remove_db w name : w_db (os_Remove env w name).1 = w_db w.
Proof. unfold os_Remove. repeat case_match; reflexivity. Qed.

Lemma copyFile_db w src dst : w_db (copyFile env w src dst).1 = w_db w.
Proof.
  unfold copyFile.
  destruct (os_Open env w src) as [w1 [fp|e]] eqn:Ho;
    pose proof (os_Open_db w src) as H1; rewrite Ho in H1; simpl in H1;
    [|done].
  destruct (File_Stat env fp) as [st|e]; [|done].
  destruct (os_Create env w1 dst) as [w2 [e|]] eqn:Hc;
    pose proof (os_Create_db w1 dst) as H2; rewrite Hc in H2; simpl in H2;
    [simpl; congruence|].
  destruct (io_Copy env w2 dst src) as [w3 err] eqn:Hi.
  pose proof (io_Copy_db w2 dst src) as H3; rewrite Hi in H3; simpl in H3.
  destruct (os_Chtimes env w3 dst (now env) st) as [w4 e4] eqn:Ht.
  pose proof (os_Chtimes_db w3 dst (now env) st) as H4.
  rewrite Ht in H4; simpl in H4. simpl. congruence.
Qed.

Lemma moveFile_db w src dst : w_db (moveFile env w src dst).1 = w_db w.
Proof.
  unfold moveFile.
  destruct (os_Rename env w src dst) as [w1 [e|]] eqn:Hr;
    pose proof (os_Rename_db w src dst) as H1; rewrite Hr in H1; simpl in H1;
    [|done].
  destruct (copyFile env w1 src dst) as [w2 [e2|]] eqn:Hc;
    pose proof (copyFile_db w1 src dst) as H2; rewrite Hc in H2; simpl in H2;
    [simpl; congruence|].
  destruct (os_Remove env w2 src) as [w3 [e3|]] eqn:Hm;
    pose proof (os_Remove_db w2 src) as H3; rewrite Hm in H3; simpl in H3;
    simpl; congruence.
Qed.

Lemma moveOrCopyFile_db lib w book move :
  w_db (moveOrCopyFile lib env w book move).1 = w_db w.
Proof.
  unfold moveOrCopyFile.
  destruct (os_MkdirAll env w _) as [w1 [e|]] eqn:Hm;
    pose proof (os_MkdirAll_db w
      (path_Dir (path_Join [booksRoot lib; CurrentFilename book]))) as H1;
    rewrite Hm in H1; simpl in H1; [done|].
  destruct move.
  - rewrite moveFile_db. done.
  - rewrite copyFile_db. done.
Qed.

End Frame.

(** ** ImportBook *)

Section ImportSteps.
Context (lib : Library) (env : Env).

(** Whatever [ImportBook] returns, the catalog is the one before the call
    unless every step up to the commit went through.  It returns nil
    without a commit in two cases only: the iteration of the duplicate
    query failed, or the commit did. *)
Lemma ImportBook_db w book move w' r :
  ImportBook lib env w book move = (w', r) →
  (w_db w' = w_db w ∧
   (is_Some r ∨ is_Some (fails env CDupRows) ∨ is_Some (fails env CCommit))) ∨
  (r = None ∧ fails env CCommit = None ∧
   ∃ tx1 id tx2,
     insert_into_books env (w_db w) book (strings_Join (Tags book) "/")
       = inl (tx1, id) ∧
     insert_into_books_fts env tx1 id (set_Id id book)
       (strings_Join (Tags book) "/") = inl tx2 ∧
     w_db w' = tx2).
Proof.
  unfold ImportBook. intros H.
  destruct (fails env CBegin); [left; split; [congruence|left; by simplify_eq]|].
  destruct (fails env CDupQuery); [left; split; [congruence|left; by simplify_eq]|].
  unfold iterate in H.
  destruct (fails env CDupRows) as [e|] eqn:Hrows.
  - left. destruct (take _ _); (split; [congruence|right; left; done]).
  - destruct (select_id_by_hash (w_db w) (Hash book)) as [|i l] eqn:Hsel;
      [|left; split; [congruence|left; by simplify_eq]].
    destruct (insert_into_books _ _ _ _) as [[tx1 id]|e] eqn:Hins;
      [|left; split; [congruence|left; by simplify_eq]].
    destruct (fails env CLastInsertId);
      [left; split; [congruence|left; by simplify_eq]|].
    destruct (insert_into_books_fts _ _ _ _ _) as [tx2|e] eqn:Hfts;
      [|left; split; [congruence|left; by simplify_eq]].
    destruct (moveOrCopyFile lib env w (set_Id id book) move) as [w1 [e|]] eqn:Hp;
      pose proof (moveOrCopyFile_db env lib w (set_Id id book) move) as Hdb;
      rewrite Hp in Hdb; simpl in Hdb.
    + left. split; [congruence|left; by simplify_eq].
    + destruct (fails env CCommit) eqn:Hc.
      * left. split; [congruence|right; right; done].
      * right. inversion H; subst.
        split_and!; [done..|]. by exists tx1, id, tx2.
Qed.

End ImportSteps.

(** ** Duplicates *)

Section Duplicates.
Context (lib : Library) (env : Env).

Lemma filter_hash_none (rows : list books.row) h :
  h ∉ map books.hash rows →
  List.filter (fun r => String.eqb (books.hash r) h) rows = [].
Proof.
  induction rows as [|a rows IH]; intros Hh; [done|].
  cbn [List.filter map] in *. apply not_elem_of_cons in Hh as [Hne Hh].
  destruct (String.eqb_spec (books.hash a) h) as [Heq|_]; [congruence|].
  by apply IH.
Qed.

(** With [hash] unique, the duplicate query finds the one row that has
    the hash. *)
Lemma filter_hash_unique (rows : list books.row) r :
  NoDup (map books.hash rows) → r ∈ rows →
  List.filter (fun r' => String.eqb (books.hash r') (books.hash r)) rows = [r].
Proof.
  induction rows as [|a rows IH]; intros Hnd Hr; [by apply elem_of_nil in Hr|].
  cbn [map] in Hnd. apply NoDup_cons in Hnd as [Ha Hnd].
  cbn [List.filter]. apply elem_of_cons in Hr as [->|Hr].
  - rewrite String.eqb_refl. f_equal. by apply filter_hash_none.
  - destruct (String.eqb_spec (books.hash a) (books.hash r)) as [Heq|_].
    + exfalso. apply Ha. rewrite Heq. by apply list_elem_of_fmap_2.
    + by apply IH.
Qed.

(** The error names the id: two ids give two errors. *)
Lemma duplicate_error_inj i j : duplicate_error i = duplicate_error j → i = j.
Proof.
  unfold duplicate_error, strconv_Itoa. intros [= H].
  apply append_inv_head in H. by apply (inj pretty) in H.
Qed.

(** C1. When the committed catalog holds a row [r] with the hash of
    [book], [ImportBook] changes nothing at all, whatever the
    environment does: the catalog (book rows and index rows), the file
    system and the record of calls to the operating system are those
    before the call.  When the transaction begins and the duplicate
    query is answered, the result is the duplicate error made from the
    id of [r], from which that id can be read back. *)
Theorem ImportBook_duplicate w book move (r : books.row) :
  r ∈ table_books (w_db w) →
  books.hash r = Hash book →
  NoDup (map books.hash (table_books (w_db w))) →
  (ImportBook lib env w book move).1 = w ∧
  (fails env CBegin = None → fails env CDupQuery = None →
   fails env CDupRows = None →
   (ImportBook lib env w book move).2 = Some (duplicate_error (books.id r)) ∧
   ∀ i, duplicate_error i = duplicate_error (books.id r) → i = books.id r).
Proof.
  intros Hr Hh Hnd.
  assert (Hsel : select_id_by_hash (w_db w) (Hash book) = [books.id r]).
  { unfold select_id_by_hash. rewrite <- Hh.
    by rewrite filter_hash_unique. }
  unfold ImportBook, iterate. rewrite Hsel. split.
  - destruct (fails env CBegin); [done|].
    destruct (fails env CDupQuery); [done|].
    destruct (fails env CDupRows); [|done].
    by destruct (take _ _).
  - intros -> -> ->. split; [done|]. intros i. apply duplicate_error_inj.
Qed.

End Duplicates.

(** ** GetBooksById and Search *)

Section Lookup.

Lemma elem_of_select_by_ids db ids (r : books.row) :
  r ∈ select_by_ids db ids ↔ r ∈ table_books db ∧ books.id r ∈ ids.
Proof.
  unfold select_by_ids. split.
  - intros H. apply list_elem_of_In, filter_In in H as [Hr Hex].
    apply existsb_exists in Hex as (i & Hi & Heq).
    apply Z.eqb_eq in Heq as <-.
    split; by apply list_elem_of_In.
  - intros [Hr Hi]. apply list_elem_of_In, filter_In.
    split; [by apply list_elem_of_In|].
    apply existsb_exists. exists (books.id r).
    split; [by apply list_elem_of_In | apply Z.eqb_refl].
Qed.

Lemma select_by_ids_filter db ids :
  select_by_ids db ids
  = List.filter (fun r => bool_decide (books.id r ∈ ids)) (table_books db).
Proof.
  unfold select_by_ids. apply filter_ext. intros r.
  apply eq_true_iff_eq. rewrite bool_decide_eq_true, existsb_exists.
  split.
  - intros (i & Hi & <-%Z.eqb_eq). by apply list_elem_of_In.
  - intros Hi. exists (books.id r).
    split; [by apply list_elem_of_In | apply Z.eqb_refl].
Qed.

Lemma iterate_ok {A} env c (l : list A) :
  fails env c = None → iterate env c l = (l, None).
Proof. unfold iterate. by intros ->. Qed.

Lemma iterate_sublist {A} env c (l : list A) x :
  x ∈ (iterate env c l).1 → x ∈ l.
Proof.
  unfold iterate. destruct (fails env c); [|done].
  cbn. intros Hx. apply list_elem_of_lookup in Hx as [i Hi].
  apply lookup_take_Some in Hi as [Hi _]. by eapply list_elem_of_lookup_2.
Qed.

(** Without a failing [Scan] the loop appends the book of every row. *)
Lemma scan_rows_ok env i rows results :
  fails env CByIdScan = None →
  scan_rows env i rows results = inl (results ++ map scan_book rows).
Proof.
  intros Hs. revert i results.
  induction rows as [|r rows IH]; intros i results; cbn [scan_rows map].
  - by rewrite app_nil_r.
  - rewrite Hs, IH, <- app_assoc. done.
Qed.

(** Whatever happens, the books of the loop come from the rows. *)
Lemma scan_rows_elem env i rows results bk :
  bk ∈ match scan_rows env i rows results with
       | inl rs => rs
       | inr (rs, _) => rs
       end →
  bk ∈ results ∨ ∃ r, r ∈ rows ∧ bk = scan_book r.
Proof.
  revert i results.
  induction rows as [|r rows IH]; intros i results; cbn [scan_rows].
  - by left.
  - assert (Hstep : bk ∈ match scan_rows env (S i) rows (results ++ [scan_book r]) with
                         | inl rs => rs
                         | inr (rs, _) => rs
                         end →
                    bk ∈ results ∨ ∃ r0, r0 ∈ r :: rows ∧ bk = scan_book r0).
    { intros H. apply IH in H as [H|(r0 & Hr0 & ->)].
      - apply elem_of_app in H as [H|H]; [by left|].
        apply list_elem_of_singleton in H as ->.
        right. exists r. split; [left|done].
      - right. exists r0. split; [by right|done]. }
    destruct (fails env CByIdScan); [|done].
    destruct (upto env CByIdScan <=? i)%nat; [by left|done].
Qed.

(** Every book that [GetBooksById] returns, with or without an error, is
    the scan of a row of the committed catalog whose id was asked for. *)
Lemma GetBooksById_elem env w ids bk :
  bk ∈ (GetBooksById env w ids).1 →
  ∃ r, r ∈ table_books (w_db w) ∧ books.id r ∈ ids ∧ bk = scan_book r.
Proof.
  unfold GetBooksById.
  destruct (length ids =? 0)%nat; [by intros ?%elem_of_nil|].
  destruct (db_Query env (CByIdQuery _) _ _); [by intros ?%elem_of_nil|].
  destruct (iterate env CByIdRows (select_by_ids (w_db w) ids))
    as [rows rows_err] eqn:Hit.
  pose proof (scan_rows_elem env 0 rows [] bk) as Hscan.
  intros Hbk.
  assert (Hin : bk ∈ [] ∨ ∃ r, r ∈ rows ∧ bk = scan_book r).
  { apply Hscan. destruct (scan_rows env 0 rows []) as [rs|[rs e]]; [|done].
    by destruct rows_err. }
  destruct Hin as [?%elem_of_nil|(r & Hr & ->)]; [done|].
  assert (Hsel : r ∈ select_by_ids (w_db w) ids).
  { apply (iterate_sublist env CByIdRows). by rewrite Hit. }
  apply elem_of_select_by_ids in Hsel as [??]. by exists r.
Qed.

Lemma count_params_append (a b : string) :
  count_params (a +:+ b) = (count_params a + count_params b)%nat.
Proof.
  induction a as [|c a IH]; [done|].
  rewrite append_cons. cbn [count_params]. rewrite IH.
  by destruct (Ascii.eqb c "?").
Qed.

(** The placeholders: [n + 1] question marks, with the commas between
    them. *)
Lemma placeholders n :
  String.substring 0 (String.length (strings_Repeat "?," (S n)) - 1)
                   (strings_Repeat "?," (S n))
  = String "?" (strings_Repeat ",?" n).
Proof.
  assert (Hlen : ∀ m, String.length (strings_Repeat "?," m) = (2 * m)%nat).
  { induction m as [|m IH]; [done|]. cbn [strings_Repeat].
    rewrite length_append, IH. cbn. lia. }
  induction n as [|n IH].
  - reflexivity.
  - rewrite Hlen in IH |- *.
    change (strings_Repeat "?," (S (S n)))
      with (String "?" (String "," (strings_Repeat "?," (S n)))).
    replace (2 * S (S n) - 1)%nat with (S (S (2 * S n - 1))) by lia.
    cbn [String.substring]. rewrite IH. reflexivity.
Qed.

(** The statement has as many parameters as there are ids. *)
Lemma by_ids_sql_params joined :
  count_params (by_ids_sql joined) = count_params joined.
Proof.
  unfold by_ids_sql. rewrite !count_params_append.
  replace (count_params by_ids_select) with 0%nat by (by vm_compute).
  replace (count_params ")") with 0%nat by (by vm_compute).
  lia.
Qed.

Lemma db_Query_by_ids env c (n : nat) :
  fails env c = None →
  db_Query env c
    (by_ids_sql
       (String.substring 0
          (String.length (strings_Repeat "?," (S n)) - 1)
          (strings_Repeat "?," (S n))))
    (S n) = None.
Proof.
  intros Hq. unfold db_Query. rewrite Hq.
  rewrite placeholders, by_ids_sql_params.
  assert (Hc : ∀ m, count_params (strings_Repeat ",?" m) = m).
  { intros m. induction m as [|m IH]; [done|]. cbn [strings_Repeat].
    rewrite count_params_append, IH. reflexivity. }
  change (count_params (String "?" (strings_Repeat ",?" n)))
    with (S (count_params (strings_Repeat ",?" n))).
  by rewrite Hc, Nat.eqb_refl.
Qed.

(** When the query, the iteration and the scans go through, the result
    is the scan of the selected rows, and there is no error. *)
Lemma GetBooksById_ok env w ids :
  fails env (CByIdQuery (length ids)) = None → fails env CByIdScan = None →
  fails env CByIdRows = None →
  GetBooksById env w ids = (map scan_book (select_by_ids (w_db w) ids), None).
Proof.
  intros Hq Hs Hr. unfold GetBooksById.
  destruct ids as [|i ids]; cbn [length Nat.eqb].
  - unfold select_by_ids. cbn [existsb].
    by induction (table_books (w_db w)).
  - rewrite db_Query_by_ids, iterate_ok, scan_rows_ok by done. done.
Qed.

(** Both read the committed catalog and nothing else of the world. *)
Lemma GetBooksById_db env w w' ids :
  w_db w' = w_db w → GetBooksById env w' ids = GetBooksById env w ids.
Proof. unfold GetBooksById. by intros ->. Qed.

Lemma Search_db env w w' terms :
  w_db w' = w_db w → Search env w' terms = Search env w terms.
Proof.
  intros H. unfold Search, select_docid_match. rewrite H.
  destruct (fails env CFtsQuery); [done|].
  destruct (iterate _ _ _) as [ids [e|]]; [done|].
  by apply GetBooksById_db.
Qed.

(** A query that is refused gives no book and the wrapped error. *)
Lemma GetBooksById_refused env w ids e :
  ids ≠ [] → fails env (CByIdQuery (length ids)) = Some e →
  GetBooksById env w ids
  = ([], Some (WithMessage e "fetching books from database by ID")).
Proof.
  intros Hne Hq. unfold GetBooksById. destruct ids as [|i ids]; [done|].
  cbn [length Nat.eqb] in *. unfold db_Query. by rewrite Hq.
Qed.

(** C5, as amended.  When the query of [GetBooksById] is served (the query
    itself, which SQLite refuses for a list of more ids than a statement
    may have variables, the iteration of its rows and each [Scan]), the
    result has no error and holds, in the order of the table, one book for
    each row of the catalog whose id is among [ids], and nothing else.
    The book has the id, hash, author, series, title, extension and file
    name of its row, the pieces of the [tags] column between slashes as
    its tags, and the zero value in its other fields.  So the ids of the
    books are exactly the ids of [ids] that have a row: an id without a
    row contributes nothing and raises nothing.  With no ids at all the
    result is the empty sequence and no error, whatever the environment:
    the catalog is not even asked. *)
Theorem GetBooksById_known_ids env w ids :
  fails env (CByIdQuery (length ids)) = None → fails env CByIdScan = None →
  fails env CByIdRows = None →
  (GetBooksById env w ids).2 = None ∧
  (GetBooksById env w ids).1
    = map (fun r => mkBook (books.id r) (books.hash r) (books.author r)
                      (books.series r) (books.title r) (books.extension r)
                      (strings_Split (books.tags r) "/")
                      "" (books.filename r) 0 0 "" "")
        (List.filter (fun r => bool_decide (books.id r ∈ ids))
                     (table_books (w_db w))) ∧
  (∀ i, i ∈ map Id (GetBooksById env w ids).1 ↔
        i ∈ ids ∧ i ∈ map books.id (table_books (w_db w))) ∧
  (∀ env', GetBooksById env' w [] = ([], None)).
Proof.
  intros Hq Hs Hr. rewrite GetBooksById_ok by done. cbn [fst snd].
  split_and!; [done| | |done].
  - by rewrite select_by_ids_filter.
  - intros i. rewrite !list_elem_of_fmap. split.
    + intros (bk & -> & (r & -> & [??]%elem_of_select_by_ids)%list_elem_of_fmap).
      split; [done|]. by exists r.
    + intros (Hi & r & -> & Hr'). exists (scan_book r). split; [done|].
      apply list_elem_of_fmap. exists r. split; [done|].
      by apply elem_of_select_by_ids.
Qed.

End Lookup.

(** ** The two inserts *)

Section Inserts.

Lemma foldr_max_ge (a : Z) (rest : list Z) :
  (a ≤ foldr Z.max a rest)%Z ∧ ∀ i, i ∈ rest → (i ≤ foldr Z.max a rest)%Z.
Proof.
  induction rest as [|b rest [IHa IH]]; cbn [foldr].
  - split; [lia|]. by intros i ?%elem_of_nil.
  - split; [lia|]. intros i [->|Hi]%elem_of_cons; [lia|].
    specialize (IH i Hi). lia.
Qed.

(** The new rowid is above every rowid in use. *)
Lemma next_rowid_gt (ids : list Z) i : i ∈ ids → (i < next_rowid ids)%Z.
Proof.
  destruct ids as [|a rest]; [by intros ?%elem_of_nil|].
  unfold next_rowid. destruct (foldr_max_ge a rest) as [Ha Hrest].
  intros [->|Hi]%elem_of_cons; [lia|]. specialize (Hrest i Hi). lia.
Qed.

Lemma insert_into_books_inv env db book tags tx id :
  insert_into_books env db book tags = inl (tx, id) →
  (∀ r, r ∈ table_books db → books.hash r ≠ Hash book) ∧
  id = next_rowid (map books.id (table_books db)) ∧
  table_books_fts tx = table_books_fts db ∧
  ∃ r, table_books tx = table_books db ++ [r] ∧
       books.id r = id ∧ books.hash r = Hash book ∧ books.tags r = tags.
Proof.
  unfold insert_into_books. destruct (fails env CInsertBook); [done|].
  destruct (existsb _ _) eqn:Hex; [done|]. intros [= <- <-].
  split_and!; [|done|done|eexists; split_and!; done].
  intros r Hr Heq. apply not_true_iff_false in Hex. apply Hex.
  apply existsb_exists. exists r.
  split; [by apply list_elem_of_In | by apply String.eqb_eq].
Qed.

Lemma insert_into_books_fts_inv env db id book tags tx :
  insert_into_books_fts env db id book tags = inl tx →
  (∀ r, r ∈ table_books_fts db → books_fts.docid r ≠ id) ∧
  table_books tx = table_books db ∧
  ∃ r, table_books_fts tx = table_books_fts db ++ [r] ∧
       books_fts.docid r = id ∧ books_fts.tags r = tags.
Proof.
  unfold insert_into_books_fts. destruct (fails env CInsertFts); [done|].
  destruct (existsb _ _) eqn:Hex; [done|]. intros [= <-].
  split_and!; [|done|eexists; split_and!; done].
  intros r Hr Heq. apply not_true_iff_false in Hex. apply Hex.
  apply existsb_exists. exists r.
  split; [by apply list_elem_of_In | by apply Z.eqb_eq].
Qed.

End Inserts.

(** ** Atomicity of the import *)

Section Atomicity.
Context (lib : Library) (env : Env).

(** C2. When the steps on the catalog go through (the transaction
    begins, the duplicate query finds nothing, both inserts succeed) and
    [moveOrCopyFile] then fails with [e], [ImportBook] returns the error
    [e] wrapped as a placement error, and the committed catalog is the one
    before the call.  Hence [GetBooksById] and [Search] answer what they
    answered before, in every environment; no book that [GetBooksById]
    returns has the hash or the id of the attempt, and no row of the
    index has its docid. *)
Theorem ImportBook_placement_failure w book move tx1 id tx2 w1 e :
  fails env CBegin = None →
  fails env CDupQuery = None →
  fails env CDupRows = None →
  insert_into_books env (w_db w) book (strings_Join (Tags book) "/")
    = inl (tx1, id) →
  fails env CLastInsertId = None →
  insert_into_books_fts env tx1 id (set_Id id book)
    (strings_Join (Tags book) "/") = inl tx2 →
  moveOrCopyFile lib env w (set_Id id book) move = (w1, Some e) →
  ImportBook lib env w book move
    = (w1, Some (WithMessage e "Moving or copying book")) ∧
  w_db w1 = w_db w ∧
  (∀ env' ids, GetBooksById env' w1 ids = GetBooksById env' w ids) ∧
  (∀ env' terms, Search env' w1 terms = Search env' w terms) ∧
  (∀ env' ids bk, bk ∈ (GetBooksById env' w1 ids).1 →
                  Hash bk ≠ Hash book ∧ Id bk ≠ id) ∧
  (∀ env' terms i,
     i ∈ (iterate env' CFtsRows (select_docid_match env' (w_db w1) terms)).1 →
     i ∈ fts_match env' terms (table_books_fts (w_db w))) ∧
  (∀ r, r ∈ table_books_fts (w_db w1) → books_fts.docid r ≠ id).
Proof.
  intros Hb Hq Hr Hins Hid Hfts Hp.
  pose proof (moveOrCopyFile_db env lib w (set_Id id book) move) as Hdb.
  rewrite Hp in Hdb. cbn [fst] in Hdb.
  apply insert_into_books_inv in Hins as Hi.
  destruct Hi as (Hfresh & Hnext & Hfts1 & _).
  apply insert_into_books_fts_inv in Hfts as Hf.
  destruct Hf as (Hdoc & _).
  assert (Hsel : select_id_by_hash (w_db w) (Hash book) = []).
  { unfold select_id_by_hash.
    destruct (List.filter _ _) as [|r l] eqn:Hfil; [done|].
    assert (Hin : In r (List.filter
              (fun r => String.eqb (books.hash r) (Hash book))
              (table_books (w_db w)))) by (rewrite Hfil; by left).
    apply filter_In in Hin as [Hin Heq].
    apply String.eqb_eq in Heq. apply list_elem_of_In in Hin.
    by destruct (Hfresh r Hin). }
  split_and!.
  - unfold ImportBook, iterate.
    by rewrite Hb, Hq, Hr, Hsel, Hins, Hid, Hfts, Hp.
  - done.
  - intros env' ids. by apply GetBooksById_db.
  - intros env' terms. by apply Search_db.
  - intros env' ids bk Hbk. rewrite (GetBooksById_db _ w w1) in Hbk by done.
    apply GetBooksById_elem in Hbk as (r & Hrin & _ & ->).
    cbn [scan_book Hash Id]. split; [by apply Hfresh|].
    assert (books.id r < id)%Z; [|lia].
    rewrite Hnext. apply next_rowid_gt. by apply list_elem_of_fmap_2.
  - intros env' terms i Hi%iterate_sublist.
    unfold select_docid_match in Hi. by rewrite Hdb in Hi.
  - intros r. rewrite Hdb, <- Hfts1. apply Hdoc.
Qed.

(** [strings.Split] on ["/"] never gives the empty list. *)
Lemma Split_slash_length s : (1 ≤ length (strings_Split s "/"))%nat.
Proof. apply split_scan_length. Qed.

End Atomicity.

(** ** Tags through the catalog *)

Section StoredTags.

Lemma select_by_ids_new (rows : list books.row) (r : books.row) fts :
  (∀ r', r' ∈ rows → (books.id r' < books.id r)%Z) →
  select_by_ids (mkDB (rows ++ [r]) fts) [books.id r] = [r].
Proof.
  intros Hlt. unfold select_by_ids. cbn [table_books].
  rewrite List.filter_app. cbn [List.filter existsb].
  rewrite Z.eqb_refl. cbn [orb].
  replace (List.filter _ rows) with (@nil books.row); [done|].
  symmetry. induction rows as [|a rows IH]; [done|].
  cbn [List.filter existsb].
  assert (books.id a < books.id r)%Z as Ha by (apply Hlt; left).
  destruct (Z.eqb_spec (books.id a) (books.id r)) as [?|_]; [lia|].
  cbn [orb]. apply IH. intros r' Hr'. apply Hlt. by right.
Qed.

(** C10. Every book that [GetBooksById] returns has at least one tag,
    whatever the catalog and the environment.  A book with no tags that
    [ImportBook] has imported (it returned nil, and the iteration of the
    duplicate query and the commit did not fail) is a new last row of
    [books] whose [tags] column is the empty string, and [GetBooksById]
    on its id returns it with the one-element tag list [[""]]. *)
Theorem empty_tags_come_back_as_one_empty_tag :
  (∀ env w ids bk,
     bk ∈ (GetBooksById env w ids).1 → (1 ≤ length (Tags bk))%nat) ∧
  (∀ lib env w book move w',
     Tags book = [] →
     ImportBook lib env w book move = (w', None) →
     fails env CDupRows = None →
     fails env CCommit = None →
     ∃ r, table_books (w_db w') = table_books (w_db w) ++ [r] ∧
          books.hash r = Hash book ∧
          books.tags r = "" ∧
          ∀ env', fails env' (CByIdQuery 1) = None →
                  fails env' CByIdScan = None →
                  fails env' CByIdRows = None →
                  GetBooksById env' w' [books.id r] = ([scan_book r], None) ∧
                  Hash (scan_book r) = Hash book ∧
                  Tags (scan_book r) = [""]).
Proof.
  split.
  - intros env w ids bk (r & _ & _ & ->)%GetBooksById_elem.
    cbn [scan_book Tags]. apply Split_slash_length.
  - intros lib env w book move w' Htags Himp Hrows Hcommit.
    apply ImportBook_db in Himp
      as [[_ [[? [=]]|[Hx|Hx]]]|(_ & _ & tx1 & id & tx2 & Hins & Hfts & Hdb)].
    { rewrite Hrows in Hx. by destruct Hx. }
    { rewrite Hcommit in Hx. by destruct Hx. }
    apply insert_into_books_inv in Hins
      as (_ & Hnext & _ & r & Hrows1 & Hid & Hhash & Htag).
    apply insert_into_books_fts_inv in Hfts as (_ & Hrows2 & _).
    rewrite Htags in Htag. cbn [strings_Join] in Htag.
    exists r. rewrite Hdb, Hrows2, Hrows1. split_and!; [done..|].
    intros env' Hq Hs Hr. rewrite GetBooksById_ok by done.
    assert (Hsel : select_by_ids (w_db w') [books.id r] = [r]).
    { rewrite Hdb. destruct tx2 as [rows2 fts2]. cbn [table_books] in Hrows2.
      rewrite Hrows2, Hrows1. apply select_by_ids_new.
      intros r' Hr'. rewrite Hid, Hnext.
      apply next_rowid_gt. by apply list_elem_of_fmap_2. }
    rewrite Hsel. cbn [map scan_book Hash Tags]. rewrite Htag.
    by split_and!.
Qed.

(** C3, as amended.  For a tag list in which no tag contains a slash,
    splitting the joined tags gives the list back when it is not empty;
    the empty list is joined to the empty string, which splits into the
    one-element list [[""]]. *)
Theorem Split_Join_tags (T : list string) :
  Forall (fun t => strings_Contains t "/" = false) T →
  strings_Split (strings_Join T "/") "/"
  = match T with
    | [] => [""]
    | _ => T
    end.
Proof.
  destruct T as [|t T]; [done|]. apply Split_Join_nonempty.
Qed.

End StoredTags.

(** ** The order of search results *)

Section SearchOrder.



Lemma map_Id_scan_book (rows : list books.row) :
  map Id (map scan_book rows) = map books.id rows.
Proof. induction rows as [|a rows IH]; [done|]. cbn [map]. by rewrite IH. Qed.





End SearchOrder.

(** ** Copying and moving files *)

Section Files.
Context (env : Env).

(** What a successful [copyFile] has done: [src] was a regular file [f];
    [dst] now holds the bytes that [src] held when they were read (none
    when [dst] is [src] itself, which [os.Create] has just emptied), with
    the modification time of [f] when [os.Chtimes] worked and the time of
    the writing when it did not. *)
Lemma copyFile_nil_inv w src dst w' :
  copyFile env w src dst = (w', None) →
  ∃ f, files (w_fs w) !! src = Some f ∧
       files (w_fs w')
       = <[dst := mkFile (if decide (src = dst) then "" else content f)
                         (match fails env CChtimes with
                          | Some _ => now env
                          | None => mtime f
                          end)]> (files (w_fs w)) ∧
       dirs (w_fs w') = dirs (w_fs w).
Proof.
  destruct w as [db [fs ds] calls].
  unfold copyFile, os_Open, File_Stat, os_Create, io_Copy, File_Close,
    os_Chtimes, record, set_files. cbn.
  destruct (fails env COpen); [done|].
  destruct (fs !! src) as [f|] eqn:Hsrc; [|done].
  destruct (fails env CFstat); [done|].
  destruct (fails env CCreate); [done|].
  case_bool_decide; [done|].
  destruct (fails env CCopy); cbn.
  { by destruct (fails env CClose), (fails env CChtimes); cbn;
      repeat case_match. }
  destruct (fails env CClose); cbn.
  { by destruct (fails env CChtimes); cbn; repeat case_match. }
  assert (Hdata :
    default "" (content <$> <[dst:=mkFile "" (now env)]> fs !! src)
    = if decide (src = dst) then "" else content f).
  { destruct (decide (src = dst)) as [->|Hne].
    - by rewrite lookup_insert_eq.
    - rewrite lookup_insert_ne by done. by rewrite Hsrc. }
  rewrite Hdata, lookup_insert_eq, !insert_insert_eq.
  destruct (fails env CChtimes); intros [= <-]; cbn; eauto.
Qed.

(** A call that fails leaves the files as they are. *)
Lemma os_Rename_fail_fs w src dst w1 e :
  os_Rename env w src dst = (w1, Some e) → w_fs w1 = w_fs w.
Proof.
  unfold os_Rename, record. cbn.
  destruct (fails env CRename); [by intros [= <- _]|].
  destruct (files (w_fs w) !! src); [done|]. by intros [= <- _].
Qed.

Lemma os_Remove_fail_fs w name w1 e :
  os_Remove env w name = (w1, Some e) → w_fs w1 = w_fs w.
Proof.
  unfold os_Remove, record. cbn.
  destruct (fails env CRemove); [by intros [= <- _]|].
  destruct (files (w_fs w) !! name); [done|]. by intros [= <- _].
Qed.

(** C7. When the rename fails, the copy then succeeds and the removal of
    the source then fails, [moveFile] returns nil.  The source is still
    there, the destination is there, and the two hold the same bytes;
    for two different names these are the bytes that the source held
    before the call, and the source file is as it was. *)
Theorem moveFile_stale_source w src dst w1 e1 w2 w3 e3 :
  os_Rename env w src dst = (w1, Some e1) →
  copyFile env w1 src dst = (w2, None) →
  os_Remove env w2 src = (w3, Some e3) →
  moveFile env w src dst = (w3, None) ∧
  ∃ f, files (w_fs w) !! src = Some f ∧
       (∃ fsrc fdst, files (w_fs w3) !! src = Some fsrc ∧
                     files (w_fs w3) !! dst = Some fdst ∧
                     content fdst = content fsrc) ∧
       (src ≠ dst →
        files (w_fs w3) !! src = Some f ∧
        content <$> files (w_fs w3) !! dst = Some (content f)).
Proof.
  intros Hren Hcp Hrm. split.
  - unfold moveFile. by rewrite Hren, Hcp, Hrm.
  - apply os_Rename_fail_fs in Hren. apply os_Remove_fail_fs in Hrm.
    apply copyFile_nil_inv in Hcp as (f & Hsrc & Hfiles & _).
    rewrite Hren in Hsrc, Hfiles. exists f. rewrite Hrm, Hfiles.
    split; [done|]. destruct (decide (src = dst)) as [->|Hne].
    + split; [|done]. rewrite lookup_insert_eq. by eexists _, _.
    + split.
      * rewrite lookup_insert_eq, lookup_insert_ne by done.
        by eexists _, _.
      * intros _. by rewrite lookup_insert_eq, lookup_insert_ne.
Qed.

(** C8, as amended.  After a successful [copyFile] the modification time
    of the destination is the one the source had when it was opened if
    the call of [os.Chtimes] worked.  The error of that call is dropped:
    when it fails, [copyFile] succeeds all the same and the destination
    keeps the time at which its bytes were written. *)
Theorem copyFile_mtime w src dst w' :
  copyFile env w src dst = (w', None) →
  ∃ f f', files (w_fs w) !! src = Some f ∧
          files (w_fs w') !! dst = Some f' ∧
          mtime f' = match fails env CChtimes with
                     | None => mtime f
                     | Some _ => now env
                     end.
Proof.
  intros (f & Hsrc & Hfiles & _)%copyFile_nil_inv.
  exists f. eexists. split; [done|]. rewrite Hfiles, lookup_insert_eq.
  split; [done|]. cbn. by destruct (fails env CChtimes).
Qed.

End Files.

(** ** Conversion *)

Section Conversion.
Context (lib : Library) (env : Env).

(** C9, as amended.  [ConvertToEpub] makes one call to the operating
    system: it runs [ebook-convert] with two arguments, first the
    current file name of the book joined to the books root, then the
    file named by the hash of the book followed by [.epub] in the
    directory [cache] next to the catalog file.  Its result is nil when
    the program exits with status zero, the exit error when it exits
    with another status, and the error of the start when it does not
    start.  It returns that error and nothing else: no path. *)
Theorem ConvertToEpub_command w book :
  let filename := path_Join [booksRoot lib; CurrentFilename book] in
  let newFile :=
    path_Join [path_Join [path_Dir (lib_filename lib); "cache"];
               Hash book +:+ ".epub"] in
  w_calls (ConvertToEpub lib env w book).1
    = EvExec "ebook-convert" [filename; newFile] :: w_calls w ∧
  w_db (ConvertToEpub lib env w book).1 = w_db w ∧
  w_fs (ConvertToEpub lib env w book).1 = w_fs w ∧
  (ConvertToEpub lib env w book).2
    = match run env "ebook-convert" [filename; newFile] with
      | Exited 0 => None
      | Exited code => Some (ExitError code)
      | NotStarted e => Some e
      end ∧
  ((ConvertToEpub lib env w book).2 = None ↔
   run env "ebook-convert" [filename; newFile] = Exited 0) ∧
  ConvertToEpub_results lib env w book
    = [GoError (ConvertToEpub lib env w book).2].
Proof.
  intros filename newFile.
  unfold ConvertToEpub_results, ConvertToEpub, cmd_Run, convert_source,
    convert_newFile.
  fold filename newFile.
  destruct (run env "ebook-convert" [filename; newFile]) as [[|c|c]|e];
    cbn; split_and!; try done; split; done.
Qed.

End Conversion.

(** ** Unique names *)

Section UniqueName.
Context (fs : FS).

Lemma os_Stat_names name : os_Stat fs name = true ↔ name ∈ fs_names fs.
Proof.
  unfold os_Stat, is_file, fs_names.
  rewrite orb_true_iff, !bool_decide_eq_true, elem_of_union, elem_of_dom.
  done.
Qed.

(** The loop, entered with a name that is taken and the number [i] next
    to try, returns the name of the first free number [N] from [i] on,
    given fuel for the names up to it. *)
Lemma GetUniqueName_loop_finds f ext (N : Z) :
  (N ≤ max_int)%Z →
  (∀ k, (1 ≤ k < N)%Z → os_Stat fs (numbered_name f ext k) = true) →
  os_Stat fs (numbered_name f ext N) = false →
  ∀ (d : nat) (i : Z) fuel newName,
    Z.of_nat d = (N - i)%Z → (1 ≤ i)%Z →
    os_Stat fs newName = true →
    (S d ≤ fuel)%nat →
    GetUniqueName_loop fuel fs f ext i newName = Some (numbered_name f ext N).
Proof.
  intros Hmax Htaken Hfree.
  induction d as [|d IH]; intros i fuel newName Hd Hi Hnew Hfuel;
    (destruct fuel as [|fuel]; [lia|]); cbn [GetUniqueName_loop];
    rewrite Hnew.
  - assert (i = N) as -> by lia.
    destruct fuel; cbn [GetUniqueName_loop]; by rewrite Hfree.
  - assert (int_incr i = (i + 1)%Z) as ->.
    { unfold int_incr. destruct (Z.eqb_spec i max_int); [lia|done]. }
    apply IH; [lia|lia| |lia]. apply Htaken. lia.
Qed.

(** Among the first [size + 1] numbers one gives a free name: the names
    differ and only [size] names are taken. *)
Lemma free_number_exists f ext :
  ∃ k : nat, (1 ≤ k ≤ S (size (fs_names fs)))%nat ∧
             os_Stat fs (numbered_name f ext (Z.of_nat k)) = false.
Proof.
  set (n := size (fs_names fs)).
  set (name := fun k : nat => numbered_name f ext (Z.of_nat k)).
  destruct (decide (Forall (fun k => os_Stat fs (name k) = true) (seq 1 (S n))))
    as [Hall|Hex].
  - exfalso.
    assert (Hnd : NoDup (name <$> seq 1 (S n))).
    { apply NoDup_fmap_2_strong; [|apply NoDup_seq].
      intros x y _ _ Hxy. apply numbered_name_inj in Hxy. lia. }
    assert (Hsub : name <$> seq 1 (S n) ⊆+ elements (fs_names fs)).
    { apply NoDup_submseteq; [done|]. intros x Hx.
      apply list_elem_of_fmap in Hx as (k & -> & Hk).
      apply elem_of_elements, os_Stat_names.
      rewrite Forall_forall in Hall. by apply Hall. }
    apply submseteq_length in Hsub.
    rewrite length_fmap, length_seq in Hsub.
    unfold n, size, set_size in Hsub. cbn in Hsub. lia.
  - apply not_Forall_Exists in Hex; [|intros k; apply _].
    apply Exists_exists in Hex as (k & Hk & Hfree).
    apply elem_of_seq in Hk. exists k. split; [lia|].
    by apply not_true_is_false.
Qed.

(** The least number with a property that some number has. *)
Lemma least_number (P : nat → bool) m :
  P m = false →
  ∃ N, (N ≤ m)%nat ∧ P N = false ∧ ∀ k, (k < N)%nat → P k = true.
Proof.
  induction m as [m IH] using lt_wf_ind. intros Hm.
  destruct (decide (Forall (fun k => P k = true) (seq 0 m))) as [Hall|Hex].
  - exists m. split; [done|]. split; [done|]. intros k Hk.
    rewrite Forall_forall in Hall. apply Hall, elem_of_seq. lia.
  - apply not_Forall_Exists in Hex; [|intros k; apply _].
    apply Exists_exists in Hex as (k & Hk & Hfree).
    apply elem_of_seq in Hk. apply not_true_is_false in Hfree.
    destruct (IH k ltac:(lia) Hfree) as (N & HN & HPN & Hleast).
    exists N. split; [lia|done].
Qed.

Lemma first_free_number f ext :
  ∃ N : Z, (1 ≤ N ≤ Z.of_nat (size (fs_names fs)) + 1)%Z ∧
           (∀ k, (1 ≤ k < N)%Z → os_Stat fs (numbered_name f ext k) = true) ∧
           os_Stat fs (numbered_name f ext N) = false.
Proof.
  destruct (free_number_exists f ext) as (k & Hk & Hfree).
  destruct (least_number
              (fun j => os_Stat fs (numbered_name f ext (Z.of_nat (S j))))
              (pred k)) as (N & HN & HPN & Hleast).
  { by replace (S (pred k)) with k by lia. }
  exists (Z.of_nat (S N)). split; [lia|]. split; [|done].
  intros j Hj. specialize (Hleast (pred (Z.to_nat j)) ltac:(lia)).
  by replace (Z.of_nat (S (pred (Z.to_nat j)))) with j in Hleast by lia.
Qed.

End UniqueName.

(** C6. For a name [f] that is taken, on a file system with fewer names
    than an [int] can count, [GetUniqueName] returns [f] with [" (N)"] put
    in before the extension [path.Ext(f)], where [N] is the first of 1, 2,
    3, ... whose name is free: the names of the numbers below [N] are
    taken, the one of [N] is not, and the loop returns once it has fuel for
    [N] names.  With [foo.epub] taken and [foo (1).epub] free the result is
    [foo (1).epub]; with both taken and [foo (2).epub] free it is
    [foo (2).epub]. *)
Theorem GetUniqueName_numbered :
  (∀ fs f,
     os_Stat fs f = true →
     (Z.of_nat (size (fs_names fs)) < max_int)%Z →
     ∃ N : Z,
       (1 ≤ N ≤ Z.of_nat (size (fs_names fs)) + 1)%Z ∧
       (∀ k, (1 ≤ k < N)%Z →
             os_Stat fs (numbered_name f (path_Ext f) k) = true) ∧
       os_Stat fs (numbered_name f (path_Ext f) N) = false ∧
       (∀ fuel, (Z.to_nat N ≤ fuel)%nat →
          GetUniqueName fuel fs f
          = Some (strings_TrimSuffix f (path_Ext f)
                  +:+ " (" +:+ strconv_Itoa N +:+ ")" +:+ path_Ext f)) ∧
       strings_TrimSuffix f (path_Ext f) +:+ path_Ext f = f) ∧
  (∀ fs fuel,
     os_Stat fs "foo.epub" = true →
     os_Stat fs "foo (1).epub" = false →
     GetUniqueName (S fuel) fs "foo.epub" = Some "foo (1).epub") ∧
  (∀ fs fuel,
     os_Stat fs "foo.epub" = true →
     os_Stat fs "foo (1).epub" = true →
     os_Stat fs "foo (2).epub" = false →
     GetUniqueName (S (S fuel)) fs "foo.epub" = Some "foo (2).epub").
Proof.
  split_and!.
  - intros fs f Hf Hsize.
    destruct (first_free_number fs f (path_Ext f)) as (N & HN & Htaken & Hfree).
    exists N. split_and!; [lia|lia|done|done| |apply TrimSuffix_Ext].
    intros fuel Hfuel. unfold GetUniqueName.
    apply (GetUniqueName_loop_finds fs f (path_Ext f) N ltac:(lia) Htaken Hfree
             (Z.to_nat (N - 1))); [lia|lia|done|lia].
  - intros fs fuel H0 H1. unfold GetUniqueName.
    change (path_Ext "foo.epub") with ".epub".
    cbn [GetUniqueName_loop]. rewrite H0.
    replace (numbered_name "foo.epub" ".epub" 1) with "foo (1).epub"
      by (by vm_compute).
    destruct fuel; cbn [GetUniqueName_loop]; by rewrite H1.
  - intros fs fuel H0 H1 H2. unfold GetUniqueName.
    change (path_Ext "foo.epub") with ".epub".
    cbn [GetUniqueName_loop]. rewrite H0.
    replace (numbered_name "foo.epub" ".epub" 1) with "foo (1).epub"
      by (by vm_compute).
    rewrite H1.
    replace (numbered_name "foo.epub" ".epub" (int_incr 1)) with "foo (2).epub"
      by (by vm_compute).
    destruct fuel; cbn [GetUniqueName_loop]; by rewrite H2.
Qed.

(** ** Errors that do not reach the caller *)

Section DroppedErrors.
Context (lib : Library) (env : Env).

(** When the iteration of the duplicate query fails before its first row,
    [ImportBook] rolls back and returns nil: it wraps [err], which is nil
    there, instead of [rows.Err()]. *)
Remark ImportBook_rows_error w book move e :
  fails env CBegin = None → fails env CDupQuery = None →
  fails env CDupRows = Some e → upto env CDupRows = O →
  ImportBook lib env w book move = (w, None).
Proof.
  intros Hb Hq Hr Hu. unfold ImportBook, iterate. by rewrite Hb, Hq, Hr, Hu.
Qed.

(** The same slip in [GetBooksById]: the rows that were read before the
    iteration failed are returned with a nil error. *)
Remark GetBooksById_rows_error w (i : Z) (ids : list Z) e :
  fails env (CByIdQuery (length (i :: ids))) = None →
  fails env CByIdScan = None →
  fails env CByIdRows = Some e →
  GetBooksById env w (i :: ids)
  = (map scan_book (take (upto env CByIdRows) (select_by_ids (w_db w) (i :: ids))),
     None).
Proof.
  intros Hq Hs Hr. unfold GetBooksById. cbn [length Nat.eqb].
  rewrite db_Query_by_ids by done. unfold iterate. rewrite Hr.
  by rewrite scan_rows_ok.
Qed.

(** The result of [tx.Commit()] is not looked at: when the commit fails,
    [ImportBook] returns nil although the file was placed and the catalog
    has no row for it. *)
Remark ImportBook_commit_error w book move w' e :
  fails env CCommit = Some e →
  ImportBook lib env w book move = (w', None) →
  w_db w' = w_db w.
Proof.
  intros Hc [[H _]|(_ & Hc' & _)]%ImportBook_db; [done|congruence].
Qed.

End DroppedErrors.

(** * The statements on the sample data *)

Example sample_catalog :
  w_db w1 = mkDB [row_dune] [fts_dune] ∧
  table_books (w_db w2) = [row_dune; row_emma] ∧
  map books_fts.docid (table_books_fts (w_db w2)) = [1; 2]%Z ∧
  w_calls w1 = [EvChtimes "/srv/books/Herbert/Dune.epub" 2000 1000;
                EvCopy "/srv/books/Herbert/Dune.epub";
                EvCreate "/srv/books/Herbert/Dune.epub";
                EvOpen "/in/dune.epub";
                EvMkdirAll "/srv/books/Herbert"].
Proof. by vm_compute. Qed.

(** [dune_again] has the hash of the committed [dune]. *)
Lemma ImportBook_duplicate_witness :
  row_dune ∈ table_books (w_db w1) ∧
  books.hash row_dune = Hash dune_again ∧
  NoDup (map books.hash (table_books (w_db w1))) ∧
  (ImportBook lib0 env_ok w1 dune_again true).1 = w1 ∧
  (fails env_ok CBegin = None → fails env_ok CDupQuery = None →
   fails env_ok CDupRows = None →
   (ImportBook lib0 env_ok w1 dune_again true).2 = Some (duplicate_error 1) ∧
   ∀ i, duplicate_error i = duplicate_error 1 → i = 1%Z).
Proof.
  assert (H1 : row_dune ∈ table_books (w_db w1)) by (vm_compute; left).
  assert (H2 : books.hash row_dune = Hash dune_again) by reflexivity.
  assert (H3 : NoDup (map books.hash (table_books (w_db w1)))).
  { vm_compute. apply NoDup_singleton. }
  split_and!; [exact H1 | exact H2 | exact H3 | |];
    apply (ImportBook_duplicate lib0 env_ok w1 dune_again true row_dune H1 H2 H3).
Defined.

(** The directory for [dune] cannot be made. *)
Lemma ImportBook_placement_failure_witness :
  fails env_mkdir_fails CBegin = None ∧
  fails env_mkdir_fails CDupQuery = None ∧
  fails env_mkdir_fails CDupRows = None ∧
  insert_into_books env_mkdir_fails (w_db w0) dune (strings_Join (Tags dune) "/")
    = inl (mkDB [row_dune] [], 1%Z) ∧
  fails env_mkdir_fails CLastInsertId = None ∧
  insert_into_books_fts env_mkdir_fails (mkDB [row_dune] []) 1 (set_Id 1 dune)
    (strings_Join (Tags dune) "/") = inl (mkDB [row_dune] [fts_dune]) ∧
  moveOrCopyFile lib0 env_mkdir_fails w0 (set_Id 1 dune) false
    = (record (EvMkdirAll "/srv/books/Herbert") w0,
       Some (ErrorString "permission denied")) ∧
  ImportBook lib0 env_mkdir_fails w0 dune false
    = (record (EvMkdirAll "/srv/books/Herbert") w0,
       Some (WithMessage (ErrorString "permission denied")
                         "Moving or copying book")) ∧
  (∀ env' ids, GetBooksById env' (record (EvMkdirAll "/srv/books/Herbert") w0) ids
               = GetBooksById env' w0 ids).
Proof.
  assert (Hins : insert_into_books env_mkdir_fails (w_db w0) dune
                   (strings_Join (Tags dune) "/")
                 = inl (mkDB [row_dune] [], 1%Z)) by reflexivity.
  assert (Hfts : insert_into_books_fts env_mkdir_fails (mkDB [row_dune] []) 1
                   (set_Id 1 dune) (strings_Join (Tags dune) "/")
                 = inl (mkDB [row_dune] [fts_dune])) by reflexivity.
  assert (Hp : moveOrCopyFile lib0 env_mkdir_fails w0 (set_Id 1 dune) false
               = (record (EvMkdirAll "/srv/books/Herbert") w0,
                  Some (ErrorString "permission denied"))) by reflexivity.
  pose proof (ImportBook_placement_failure lib0 env_mkdir_fails w0 dune false
                _ _ _ _ _ eq_refl eq_refl eq_refl Hins eq_refl Hfts Hp)
    as (Himp & _ & Hget & _).
  split_and!; [reflexivity | reflexivity | reflexivity | exact Hins
              | reflexivity | exact Hfts | exact Hp | exact Himp | exact Hget].
Defined.

(** C3: the empty tag list does not come back. *)
Lemma Split_Join_empty_tags :
  Forall (fun t => strings_Contains t "/" = false) [] ∧
  strings_Split (strings_Join [] "/") "/" = [""] ∧
  strings_Split (strings_Join [] "/") "/" ≠ [].
Proof. split; [constructor|]. split; [reflexivity|discriminate]. Qed.

Lemma Split_Join_tags_witness :
  Forall (fun t => strings_Contains t "/" = false) ["sf"; "classic"] ∧
  strings_Split (strings_Join ["sf"; "classic"] "/") "/" = ["sf"; "classic"].
Proof.
  assert (H : Forall (fun t => strings_Contains t "/" = false) ["sf"; "classic"])
    by (repeat constructor).
  split; [exact H | exact (Split_Join_tags ["sf"; "classic"] H)].
Defined.

(** C5: every id of the list has a row, and the list is one id longer
    than SQLite takes variables: the query is refused, and what comes
    back is the error and no book.  The same environment serves the list
    of the one id. *)
Lemma GetBooksById_too_many_ids :
  (∀ i, i ∈ replicate (Z.to_nat 32767) 1%Z →
        i ∈ map books.id (table_books (w_db w1))) ∧
  GetBooksById env_sqlite w1 (replicate (Z.to_nat 32767) 1%Z)
  = ([], Some (WithMessage (ErrorString "too many SQL variables")
                 "fetching books from database by ID")) ∧
  GetBooksById env_sqlite w1 [1%Z] = ([scan_book row_dune], None).
Proof.
  split_and!.
  - intros i ->%elem_of_replicate_inv. vm_compute. left.
  - apply GetBooksById_refused.
    + intros H. apply (f_equal length) in H. rewrite length_replicate in H.
      cbn [length] in H. lia.
    + rewrite length_replicate. unfold env_sqlite. cbn [fails].
      rewrite Z2Nat.id by lia. reflexivity.
  - by vm_compute.
Qed.

(** Id 7 has no row. *)
Lemma GetBooksById_known_ids_witness :
  fails env_sqlite (CByIdQuery (length [2; 7]%Z)) = None ∧
  fails env_sqlite CByIdScan = None ∧
  fails env_sqlite CByIdRows = None ∧
  (GetBooksById env_sqlite w2 [2; 7]%Z).2 = None ∧
  (GetBooksById env_sqlite w2 [2; 7]%Z).1
    = [mkBook 2 "h-emma" "Jane Austen" "" "Emma" "epub" [""] ""
         "Austen/Emma.epub" 0 0 "" ""].
Proof.
  split_and!; [reflexivity..| |];
    apply (GetBooksById_known_ids env_sqlite w2 [2; 7]%Z
             eq_refl eq_refl eq_refl).
Defined.

Lemma GetUniqueName_numbered_witness :
  os_Stat fs0 "/in/dune.epub" = true ∧
  (Z.of_nat (size (fs_names fs0)) < max_int)%Z ∧
  ∃ N : Z,
    (1 ≤ N ≤ Z.of_nat (size (fs_names fs0)) + 1)%Z ∧
    (∀ k, (1 ≤ k < N)%Z →
          os_Stat fs0 (numbered_name "/in/dune.epub" (path_Ext "/in/dune.epub") k)
          = true) ∧
    os_Stat fs0 (numbered_name "/in/dune.epub" (path_Ext "/in/dune.epub") N)
    = false ∧
    (∀ fuel, (Z.to_nat N ≤ fuel)%nat →
       GetUniqueName fuel fs0 "/in/dune.epub"
       = Some (strings_TrimSuffix "/in/dune.epub" (path_Ext "/in/dune.epub")
               +:+ " (" +:+ strconv_Itoa N +:+ ")"
               +:+ path_Ext "/in/dune.epub")) ∧
    strings_TrimSuffix "/in/dune.epub" (path_Ext "/in/dune.epub")
    +:+ path_Ext "/in/dune.epub" = "/in/dune.epub".
Proof.
  assert (H1 : os_Stat fs0 "/in/dune.epub" = true) by (vm_compute; reflexivity).
  assert (H2 : (Z.of_nat (size (fs_names fs0)) < max_int)%Z)
    by (vm_compute; reflexivity).
  split; [exact H1|]. split; [exact H2|].
  exact (proj1 GetUniqueName_numbered fs0 "/in/dune.epub" H1 H2).
Defined.

Example GetUniqueName_sample :
  GetUniqueName 5 fs0 "/in/dune.epub" = Some "/in/dune (1).epub" ∧
  GetUniqueName 5 fs0 "/in/new.epub" = Some "/in/new.epub" ∧
  GetUniqueName 0 fs0 "/in/dune.epub" = None.
Proof. by vm_compute. Qed.

(** [dune.epub] moves to another device out of a read-only inbox. *)
Lemma moveFile_stale_source_witness :
  os_Rename env_other_device w0 "/in/dune.epub" "/srv/books/dune.epub"
    = (record (EvRename "/in/dune.epub" "/srv/books/dune.epub") w0,
       Some (ErrorString "invalid cross-device link")) ∧
  (copyFile env_other_device
     (record (EvRename "/in/dune.epub" "/srv/books/dune.epub") w0)
     "/in/dune.epub" "/srv/books/dune.epub").2 = None ∧
  (os_Remove env_other_device
     (copyFile env_other_device
        (record (EvRename "/in/dune.epub" "/srv/books/dune.epub") w0)
        "/in/dune.epub" "/srv/books/dune.epub").1 "/in/dune.epub").2
    = Some (ErrorString "permission denied") ∧
  (moveFile env_other_device w0 "/in/dune.epub" "/srv/books/dune.epub").2 = None ∧
  content <$> files (w_fs (moveFile env_other_device w0 "/in/dune.epub"
                             "/srv/books/dune.epub").1) !! "/srv/books/dune.epub"
    = Some "dune!" ∧
  files (w_fs (moveFile env_other_device w0 "/in/dune.epub"
                 "/srv/books/dune.epub").1) !! "/in/dune.epub"
    = Some (mkFile "dune!" 1000).
Proof.
  set (w1' := record (EvRename "/in/dune.epub" "/srv/books/dune.epub") w0).
  set (w2' := (copyFile env_other_device w1' "/in/dune.epub"
                 "/srv/books/dune.epub").1).
  set (w3' := (os_Remove env_other_device w2' "/in/dune.epub").1).
  assert (Hren : os_Rename env_other_device w0 "/in/dune.epub"
                   "/srv/books/dune.epub"
                 = (w1', Some (ErrorString "invalid cross-device link")))
    by reflexivity.
  assert (Hcp : copyFile env_other_device w1' "/in/dune.epub"
                  "/srv/books/dune.epub" = (w2', None))
    by (vm_compute; reflexivity).
  assert (Hrm : os_Remove env_other_device w2' "/in/dune.epub"
                = (w3', Some (ErrorString "permission denied")))
    by (vm_compute; reflexivity).
  pose proof (moveFile_stale_source env_other_device w0 "/in/dune.epub"
                "/srv/books/dune.epub" w1' _ w2' w3' _ Hren Hcp Hrm)
    as (Hmv & f & Hf & _ & Hne).
  assert (Hsrc : files (w_fs w0) !! "/in/dune.epub" = Some (mkFile "dune!" 1000))
    by (vm_compute; reflexivity).
  rewrite Hsrc in Hf. injection Hf as <-.
  destruct (Hne ltac:(discriminate)) as [Hs Hd].
  rewrite Hmv. cbn [fst snd].
  split_and!; [exact Hren | by rewrite Hcp | by rewrite Hrm | reflexivity
              | exact Hd | exact Hs].
Defined.

(** C8: the times of the destination cannot be set; the copy succeeds and
    the destination has the time of the copy, 2000, not the 1000 of the
    source. *)
Lemma copyFile_mtime_lost :
  (copyFile env_chtimes_fails w0 "/in/dune.epub" "/srv/books/dune.epub").2 = None ∧
  mtime <$> files (w_fs w0) !! "/in/dune.epub" = Some 1000%Z ∧
  mtime <$> files (w_fs (copyFile env_chtimes_fails w0 "/in/dune.epub"
                           "/srv/books/dune.epub").1) !! "/srv/books/dune.epub"
    = Some 2000%Z ∧
  mtime <$> files (w_fs (copyFile env_chtimes_fails w0 "/in/dune.epub"
                           "/srv/books/dune.epub").1) !! "/srv/books/dune.epub"
    ≠ mtime <$> files (w_fs w0) !! "/in/dune.epub".
Proof. split_and!; [by vm_compute..|]. vm_compute. discriminate. Qed.

Lemma copyFile_mtime_witness :
  copyFile env_ok w0 "/in/dune.epub" "/srv/books/dune.epub"
    = ((copyFile env_ok w0 "/in/dune.epub" "/srv/books/dune.epub").1, None) ∧
  ∃ f f',
    files (w_fs w0) !! "/in/dune.epub" = Some f ∧
    files (w_fs (copyFile env_ok w0 "/in/dune.epub" "/srv/books/dune.epub").1)
      !! "/srv/books/dune.epub" = Some f' ∧
    mtime f' = match fails env_ok CChtimes with
               | None => mtime f
               | Some _ => now env_ok
               end.
Proof.
  assert (H : copyFile env_ok w0 "/in/dune.epub" "/srv/books/dune.epub"
              = ((copyFile env_ok w0 "/in/dune.epub" "/srv/books/dune.epub").1,
                 None)) by (vm_compute; reflexivity).
  split; [exact H|].
  exact (copyFile_mtime env_ok w0 "/in/dune.epub" "/srv/books/dune.epub" _ H).
Defined.

(** C9: the converter exits with 0; what comes back is the nil error, and
    the path of the converted file is not among the results. *)
Lemma ConvertToEpub_returns_no_path :
  convert_newFile lib0 dune = "/home/u/cache/h-dune.epub" ∧
  run env_ok "ebook-convert"
    [convert_source lib0 dune; convert_newFile lib0 dune] = Exited 0 ∧
  ConvertToEpub_results lib0 env_ok w1 dune = [GoError None] ∧
  GoString (convert_newFile lib0 dune) ∉ ConvertToEpub_results lib0 env_ok w1 dune.
Proof.
  split_and!; [by vm_compute..|].
  intros H. apply list_elem_of_singleton in H. discriminate H.
Qed.

Example ConvertToEpub_sample :
  w_calls (ConvertToEpub lib0 env_ok w0 dune).1
  = [EvExec "ebook-convert"
       ["/srv/books/Herbert/Dune.epub"; "/home/u/cache/h-dune.epub"]].
Proof. by vm_compute. Qed.

(** [emma] has no tags. *)
Lemma empty_tags_come_back_as_one_empty_tag_witness :
  Tags emma = [] ∧
  ImportBook lib0 env_ok w1 emma false = (w2, None) ∧
  fails env_ok CDupRows = None ∧
  fails env_ok CCommit = None ∧
  ∃ r, table_books (w_db w2) = table_books (w_db w1) ++ [r] ∧
       books.hash r = Hash emma ∧
       books.tags r = "" ∧
       ∀ env', fails env' (CByIdQuery 1) = None →
               fails env' CByIdScan = None →
               fails env' CByIdRows = None →
               GetBooksById env' w2 [books.id r] = ([scan_book r], None) ∧
               Hash (scan_book r) = Hash emma ∧
               Tags (scan_book r) = [""].
Proof.
  assert (H : ImportBook lib0 env_ok w1 emma false = (w2, None))
    by (vm_compute; reflexivity).
  split_and!; [reflexivity | exact H | reflexivity | reflexivity |].
  exact (proj2 empty_tags_come_back_as_one_empty_tag
           lib0 env_ok w1 emma false w2 eq_refl H eq_refl eq_refl).
Defined.

Example empty_tags_sample :
  map Tags (GetBooksById env_ok w2 [1; 2]%Z).1 = [["sf"; "classic"]; [""]].
Proof. by vm_compute. Qed.

(** * More of library.go *)

(** ** What an import writes *)

Section ImportEffect.
Context (lib : Library) (env : Env).

Lemma existsb_false_iff {A} (p : A → bool) (l : list A) :
  existsb p l = false ↔ ∀ x, x ∈ l → p x = false.
Proof.
  induction l as [|a l IH]; cbn [existsb].
  - split; [by intros _ x ?%elem_of_nil|done].
  - rewrite orb_false_iff, IH. split.
    + intros [Ha Hl] x [->|Hx]%elem_of_cons; auto.
    + intros H. split; [apply H; left|intros x Hx; apply H; by right].
Qed.

Lemma insert_into_books_eq db book tx id :
  insert_into_books env db book (strings_Join (Tags book) "/") = inl (tx, id) →
  id = next_rowid (map books.id (table_books db)) ∧
  tx = mkDB (table_books db ++ [row_of_book env id book]) (table_books_fts db).
Proof.
  unfold insert_into_books. destruct (fails env CInsertBook); [done|].
  destruct (existsb _ _); [done|]. by intros [= <- <-].
Qed.

Lemma insert_into_books_ok db book :
  fails env CInsertBook = None →
  (∀ r, r ∈ table_books db → books.hash r ≠ Hash book) →
  insert_into_books env db book (strings_Join (Tags book) "/")
  = inl (mkDB (table_books db
               ++ [row_of_book env (next_rowid (map books.id (table_books db))) book])
              (table_books_fts db),
         next_rowid (map books.id (table_books db))).
Proof.
  intros Hf Hfresh. unfold insert_into_books. rewrite Hf.
  replace (existsb _ _) with false; [done|].
  symmetry. apply existsb_false_iff. intros r Hr.
  apply not_true_is_false. intros Heq%String.eqb_eq. by apply (Hfresh r).
Qed.

Lemma insert_into_books_fts_eq db id book tx :
  insert_into_books_fts env db id (set_Id id book) (strings_Join (Tags book) "/")
    = inl tx →
  tx = mkDB (table_books db)
            (table_books_fts db ++ [fts_of_row (row_of_book env id book)]).
Proof.
  unfold insert_into_books_fts. destruct (fails env CInsertFts); [done|].
  destruct (existsb _ _); [done|]. by intros [= <-].
Qed.

Lemma insert_into_books_fts_ok db id book :
  fails env CInsertFts = None →
  (∀ r, r ∈ table_books_fts db → books_fts.docid r ≠ id) →
  insert_into_books_fts env db id (set_Id id book) (strings_Join (Tags book) "/")
  = inl (mkDB (table_books db)
              (table_books_fts db ++ [fts_of_row (row_of_book env id book)])).
Proof.
  intros Hf Hfresh. unfold insert_into_books_fts. rewrite Hf.
  replace (existsb _ _) with false; [done|].
  symmetry. apply existsb_false_iff. intros r Hr.
  apply not_true_is_false. intros Heq%Z.eqb_eq. by apply (Hfresh r).
Qed.

Lemma select_id_by_hash_none db h :
  (∀ r, r ∈ table_books db → books.hash r ≠ h) → select_id_by_hash db h = [].
Proof.
  intros Hfresh. unfold select_id_by_hash.
  rewrite filter_hash_none; [done|].
  intros (r & -> & Hr)%list_elem_of_fmap. by apply (Hfresh r).
Qed.

(** The catalog after a committed import, in full. *)
Lemma ImportBook_ok w book move w1 :
  Forall (fun c => fails env c = None) catalog_calls →
  fails env CCommit = None →
  (∀ r, r ∈ table_books (w_db w) → books.hash r ≠ Hash book) →
  (∀ r, r ∈ table_books_fts (w_db w) →
        books_fts.docid r ≠ next_rowid (map books.id (table_books (w_db w)))) →
  moveOrCopyFile lib env w
    (set_Id (next_rowid (map books.id (table_books (w_db w)))) book) move
    = (w1, None) →
  ImportBook lib env w book move
  = (set_db
       (mkDB (table_books (w_db w)
              ++ [row_of_book env
                    (next_rowid (map books.id (table_books (w_db w)))) book])
             (table_books_fts (w_db w)
              ++ [fts_of_row
                    (row_of_book env
                       (next_rowid (map books.id (table_books (w_db w)))) book)]))
       w1, None).
Proof.
  intros Hcalls Hcommit Hhash Hdoc Hp.
  unfold catalog_calls in Hcalls. repeat apply Forall_cons in Hcalls as [? Hcalls].
  unfold ImportBook, iterate.
  repeat match goal with H : fails env _ = None |- _ => rewrite H; clear H end.
  rewrite select_id_by_hash_none by done.
  rewrite insert_into_books_ok by done.
  rewrite insert_into_books_fts_ok by done.
  by rewrite Hp.
Qed.

(** What [ImportBook_db] leaves open, with the rows spelled out. *)
Lemma ImportBook_cases w book move w' r :
  ImportBook lib env w book move = (w', r) →
  w_db w' = w_db w ∨
  (r = None ∧
   (∀ r0, r0 ∈ table_books (w_db w) → books.hash r0 ≠ Hash book) ∧
   w_db w'
   = mkDB (table_books (w_db w)
           ++ [row_of_book env
                 (next_rowid (map books.id (table_books (w_db w)))) book])
          (table_books_fts (w_db w)
           ++ [fts_of_row
                 (row_of_book env
                    (next_rowid (map books.id (table_books (w_db w)))) book)])).
Proof.
  intros [[H _]|(-> & _ & tx1 & id & tx2 & Hins & Hfts & ->)]%ImportBook_db;
    [by left|right].
  pose proof (insert_into_books_inv _ _ _ _ _ _ Hins) as (Hfresh & _).
  apply insert_into_books_eq in Hins as [-> ->].
  apply insert_into_books_fts_eq in Hfts as ->. done.
Qed.

End ImportEffect.

Section ImportLaws.
Context (lib : Library).

(** A call that returned nil after a served duplicate query and a served
    commit has committed. *)
Lemma ImportBook_committed env w book move w' :
  ImportBook lib env w book move = (w', None) →
  fails env CDupRows = None → fails env CCommit = None →
  (∀ r0, r0 ∈ table_books (w_db w) → books.hash r0 ≠ Hash book) ∧
  w_db w'
  = mkDB (table_books (w_db w)
          ++ [row_of_book env
                (next_rowid (map books.id (table_books (w_db w)))) book])
         (table_books_fts (w_db w)
          ++ [fts_of_row
                (row_of_book env
                   (next_rowid (map books.id (table_books (w_db w)))) book)]).
Proof.
  intros Himp Hrows Hcommit.
  apply ImportBook_db in Himp
    as [[_ [[? [=]]|[Hx|Hx]]]|(_ & _ & tx1 & id & tx2 & Hins & Hfts & ->)].
  { rewrite Hrows in Hx. by destruct Hx. }
  { rewrite Hcommit in Hx. by destruct Hx. }
  pose proof (insert_into_books_inv _ _ _ _ _ _ Hins) as (Hfresh & _).
  apply insert_into_books_eq in Hins as [-> ->].
  apply insert_into_books_fts_eq in Hfts as ->. done.
Qed.

(** X1. When the calls on the catalog and the commit are served, no row
    has the hash of [book], no index row has the next rowid, and the file is
    placed, [ImportBook] returns nil; [books] has one more row, the last,
    which holds the fields of [book], its joined tags and the next rowid;
    the index has one more row, the index row of that row; the files are
    as the placement left them. *)
Theorem ImportBook_commits env w book move w1 :
  Forall (fun c => fails env c = None) catalog_calls →
  fails env CCommit = None →
  (∀ r, r ∈ table_books (w_db w) → books.hash r ≠ Hash book) →
  (∀ r, r ∈ table_books_fts (w_db w) →
        books_fts.docid r ≠ next_rowid (map books.id (table_books (w_db w)))) →
  moveOrCopyFile lib env w
    (set_Id (next_rowid (map books.id (table_books (w_db w)))) book) move
    = (w1, None) →
  (ImportBook lib env w book move).2 = None ∧
  table_books (w_db (ImportBook lib env w book move).1)
    = table_books (w_db w)
      ++ [row_of_book env (next_rowid (map books.id (table_books (w_db w)))) book] ∧
  table_books_fts (w_db (ImportBook lib env w book move).1)
    = table_books_fts (w_db w)
      ++ [fts_of_row
            (row_of_book env
               (next_rowid (map books.id (table_books (w_db w)))) book)] ∧
  w_fs (ImportBook lib env w book move).1 = w_fs w1 ∧
  w_calls (ImportBook lib env w book move).1 = w_calls w1.
Proof.
  intros Hcalls Hcommit Hhash Hdoc Hp.
  by rewrite (ImportBook_ok lib env w book move w1).
Qed.

(** X2. Whenever [ImportBook] returns an error, the committed catalog is
    the one before the call, so that [GetBooksById] and [Search] answer as
    before, in every environment. *)
Theorem ImportBook_error_keeps_catalog env w book move w' e :
  ImportBook lib env w book move = (w', Some e) →
  w_db w' = w_db w ∧
  (∀ env' ids, GetBooksById env' w' ids = GetBooksById env' w ids) ∧
  (∀ env' terms, Search env' w' terms = Search env' w terms).
Proof.
  intros [[H _]|(? & _)]%ImportBook_db; [|done].
  split_and!; [done| |].
  - intros. by apply GetBooksById_db.
  - intros. by apply Search_db.
Qed.

(** X3. The placement is the last step that can be refused: when the
    environment refuses one of the calls on the catalog that come before
    it, [ImportBook] leaves the world as it is; no call to the operating
    system is made and no row is written. *)
Theorem ImportBook_refused_makes_no_call env w book move :
  Exists (fun c => is_Some (fails env c)) catalog_calls →
  (ImportBook lib env w book move).1 = w.
Proof.
  intros Hex. unfold ImportBook, iterate.
  destruct (fails env CBegin) eqn:H1; [done|].
  destruct (fails env CDupQuery) eqn:H2; [done|].
  destruct (fails env CDupRows) eqn:H3; [by destruct (take _ _)|].
  destruct (select_id_by_hash _ _); [|done].
  unfold insert_into_books.
  destruct (fails env CInsertBook) eqn:H4; [done|].
  destruct (existsb _ _); [done|].
  destruct (fails env CLastInsertId) eqn:H5; [done|].
  unfold insert_into_books_fts.
  destruct (fails env CInsertFts) eqn:H6; [done|].
  exfalso. unfold catalog_calls in Hex.
  repeat (apply Exists_cons in Hex as [[? Hx]|Hex]; [congruence|]).
  by apply Exists_nil in Hex.
Qed.

Lemma StronglySorted_snoc_lt (l : list Z) x :
  StronglySorted Z.lt l → (∀ y, y ∈ l → (y < x)%Z) →
  StronglySorted Z.lt (l ++ [x]).
Proof.
  intros Hl Hx. apply StronglySorted_app. split_and!; [|done|repeat constructor].
  intros y z Hy ->%list_elem_of_singleton. by apply Hx.
Qed.

Lemma ImportBook_catalog_ok env w book move :
  catalog_ok (w_db w) → catalog_ok (w_db (ImportBook lib env w book move).1).
Proof.
  intros (Hsorted & Hnd & Hfts).
  destruct (ImportBook lib env w book move) as [w' r] eqn:Himp. cbn [fst].
  apply ImportBook_cases in Himp as [->|(_ & Hfresh & ->)]; [done|].
  unfold catalog_ok. cbn [table_books table_books_fts].
  rewrite !map_app. cbn [map]. split_and!.
  - apply StronglySorted_snoc_lt; [done|]. intros y Hy.
    cbn [row_of_book books.id]. by apply next_rowid_gt.
  - apply NoDup_app. split_and!; [done| |apply NoDup_singleton].
    intros h (r0 & -> & Hr)%list_elem_of_fmap Hh%list_elem_of_singleton.
    by apply (Hfresh r0).
  - by rewrite Hfts.
Qed.

(** X4. [ImportBook] keeps the catalog in good order, whatever it returns
    and whatever the environment does: the rows of [books] stay in the
    order of their ids, no two rows have one hash, and the index holds, row
    for row, the indexed fields of [books]. *)
Theorem ImportBook_keeps_catalog_ok env w book move :
  catalog_ok (w_db w) → catalog_ok (w_db (ImportBook lib env w book move).1).
Proof. apply ImportBook_catalog_ok. Qed.

Lemma next_rowid_in (i : Z) (ids : list Z) :
  (next_rowid (i :: ids) - 1)%Z ∈ i :: ids.
Proof.
  unfold next_rowid. replace (foldr Z.max i ids + 1 - 1)%Z
    with (foldr Z.max i ids) by lia.
  induction ids as [|a ids IH]; cbn [foldr]; [left|].
  destruct (Z.max_spec a (foldr Z.max i ids)) as [[_ ->]|[_ ->]].
  - apply elem_of_cons in IH as [->|IH]; [left|by do 2 right].
  - right. left.
Qed.

Lemma next_rowid_dense (n : nat) :
  next_rowid (map Z.of_nat (seq 1 n)) = (Z.of_nat n + 1)%Z.
Proof.
  destruct n as [|n]; [done|].
  set (ids := map Z.of_nat (seq 1 (S n))).
  assert (Hin : Z.of_nat (S n) ∈ ids).
  { apply list_elem_of_fmap_2, elem_of_seq. lia. }
  pose proof (next_rowid_gt ids _ Hin) as Hgt.
  assert (Hmax : (next_rowid ids - 1)%Z ∈ ids).
  { unfold ids. cbn [seq map]. apply next_rowid_in. }
  apply list_elem_of_fmap in Hmax as (k & Hk & Hseq).
  apply elem_of_seq in Hseq. lia.
Qed.

Lemma ImportBook_ids_dense env w book move :
  ids_dense (w_db w) → ids_dense (w_db (ImportBook lib env w book move).1).
Proof.
  unfold ids_dense. intros Hd.
  destruct (ImportBook lib env w book move) as [w' r] eqn:Himp. cbn [fst].
  apply ImportBook_cases in Himp as [->|(_ & _ & ->)]; [done|].
  cbn [table_books]. rewrite map_app, length_app, Hd. cbn [map length].
  rewrite next_rowid_dense, Nat.add_1_r, seq_S, map_app. cbn [map].
  cbn [row_of_book books.id]. do 2 f_equal. lia.
Qed.

(** X5. [CreateLibrary] never touches a file that has the tables: it
    returns a wrapped error and the file is as it was.  On a file without
    tables, when it returns nil the catalog is empty; from there on, after
    any run of calls of [ImportBook], in any environments and whatever they
    return, the catalog is in good order and the ids of its rows are 1, 2,
    ..., in this order. *)
Theorem library_ids_count_up :
  (∀ oe ee db, ∃ e, CreateLibrary oe ee (Some db)
                    = (Some db, Some (WithMessage e "Create library"))) ∧
  (∀ oe ee db w calls,
     CreateLibrary oe ee None = (Some db, None) →
     w_db w = db →
     catalog_ok (w_db (imports lib calls w)) ∧
     ids_dense (w_db (imports lib calls w))).
Proof.
  split.
  - intros oe ee db. unfold CreateLibrary, exec_initialSchema.
    destruct oe as [e|]; [by exists e|].
    destruct ee as [e|]; by eexists.
  - intros oe ee db w calls Hc Hw.
    assert (Hdb : db = initial_catalog).
    { unfold CreateLibrary, exec_initialSchema in Hc.
      destruct oe; [done|]. destruct ee; [done|]. by simplify_eq. }
    subst db. assert (Hinit : catalog_ok (w_db w) ∧ ids_dense (w_db w)).
    { rewrite Hdb. split; [|done].
      split_and!; [constructor|constructor|done]. }
    clear Hc Hdb. revert w Hinit.
    induction calls as [|[[env book] move] calls IH]; intros w [Hok Hd]; [done|].
    cbn [imports fold_left]. apply IH. unfold import_step. cbn [fst snd].
    split; [by apply ImportBook_catalog_ok | by apply ImportBook_ids_dense].
Qed.

End ImportLaws.

(** ** An import seen by the later calls *)

Section AfterImport.
Context (lib : Library).

Lemma select_id_by_hash_new (rows : list books.row) (r : books.row) fts :
  (∀ r0, r0 ∈ rows → books.hash r0 ≠ books.hash r) →
  select_id_by_hash (mkDB (rows ++ [r]) fts) (books.hash r) = [books.id r].
Proof.
  intros Hfresh. unfold select_id_by_hash. cbn [table_books].
  rewrite List.filter_app, filter_hash_none.
  - cbn [List.filter]. by rewrite String.eqb_refl.
  - intros (r0 & Heq & Hr0)%list_elem_of_fmap. by apply (Hfresh r0).
Qed.

(** X6. After a committed import of [book], a call of [ImportBook] for any
    book with the same hash, in any environment that serves the beginning of
    the transaction and the duplicate query, returns the duplicate error
    with the id that the first import gave, and leaves the world as the
    first import left it. *)
Theorem ImportBook_twice env w book move w' env' book' move' :
  ImportBook lib env w book move = (w', None) →
  fails env CDupRows = None → fails env CCommit = None →
  Hash book' = Hash book →
  fails env' CBegin = None → fails env' CDupQuery = None →
  fails env' CDupRows = None →
  ImportBook lib env' w' book' move'
  = (w', Some (duplicate_error
                 (next_rowid (map books.id (table_books (w_db w)))))).
Proof.
  intros Himp Hrows Hcommit Hh Hb Hq Hr.
  apply ImportBook_committed in Himp as [Hfresh Hdb]; [|done..].
  unfold ImportBook, iterate. rewrite Hb, Hq, Hr, Hdb, Hh.
  change (Hash book) with
    (books.hash (row_of_book env
       (next_rowid (map books.id (table_books (w_db w)))) book)).
  by rewrite select_id_by_hash_new.
Qed.

(** X7. After a committed import of [book], [GetBooksById] on the id it
    was given returns one book: that id, the hash, author, series, title,
    extension and current file name of [book], and the split of its joined
    tags (the tags themselves when there are some and none has a slash).
    The original file name, the size, the time, the name of the naming
    rule and the source do not come back: they have their zero values. *)
Theorem ImportBook_then_GetBooksById env w book move w' env' :
  ImportBook lib env w book move = (w', None) →
  fails env CDupRows = None → fails env CCommit = None →
  fails env' (CByIdQuery 1) = None → fails env' CByIdScan = None →
  fails env' CByIdRows = None →
  GetBooksById env' w' [next_rowid (map books.id (table_books (w_db w)))]
  = ([mkBook (next_rowid (map books.id (table_books (w_db w))))
        (Hash book) (Author book) (Series book) (Title book) (Extension book)
        (strings_Split (strings_Join (Tags book) "/") "/")
        "" (CurrentFilename book) 0 0 "" ""], None) ∧
  (Tags book ≠ [] →
   Forall (fun t => strings_Contains t "/" = false) (Tags book) →
   strings_Split (strings_Join (Tags book) "/") "/" = Tags book).
Proof.
  intros Himp Hrows Hcommit Hq Hs Hr.
  apply ImportBook_committed in Himp as [Hfresh Hdb]; [|done..].
  split.
  - rewrite GetBooksById_ok, Hdb by done.
    set (id := next_rowid (map books.id (table_books (w_db w)))).
    change id with (books.id (row_of_book env id book)) at 1.
    rewrite select_by_ids_new; [done|].
    intros r' Hr'. cbn [row_of_book books.id].
    apply next_rowid_gt. by apply list_elem_of_fmap_2.
  - destruct (Tags book) as [|t T]; [done|]. intros _.
    apply Split_Join_nonempty.
Qed.

End AfterImport.

(** ** Tags with slashes *)

Section SlashedTags.

(** Splitting goes through a slash between two strings. *)
Lemma split_scan_app (a b : string) :
  split_scan "/" 0 (a +:+ String "/" b)
  = split_scan "/" 0 a ++ split_scan "/" 0 b.
Proof.
  induction a as [|c a IH].
  - rewrite append_nil_l. apply split_scan_cons_slash.
  - rewrite append_cons. destruct (decide (c = "/"%char)) as [->|Hc].
    + rewrite !split_scan_cons_slash, IH. done.
    + rewrite !split_scan_cons_other, IH by done.
      pose proof (split_scan_length a).
      by destruct (split_scan "/" 0 a); [cbn in *; lia|].
Qed.

Lemma Split_Join_concat (t : string) (T : list string) :
  strings_Split (strings_Join (t :: T) "/") "/"
  = concat (map (fun t => strings_Split t "/") (t :: T)).
Proof.
  revert t. induction T as [|t' T IH]; intros t.
  - cbn [map concat strings_Join]. by rewrite app_nil_r.
  - change (strings_Join (t :: t' :: T) "/")
      with (t +:+ String "/" (strings_Join (t' :: T) "/")).
    unfold strings_Split at 1. rewrite split_scan_app.
    change (split_scan "/" 0 (strings_Join (t' :: T) "/"))
      with (strings_Split (strings_Join (t' :: T) "/") "/").
    by rewrite IH.
Qed.

Lemma split_scan_slash_length t :
  strings_Contains t "/" = true → (2 ≤ length (split_scan "/" 0 t))%nat.
Proof.
  induction t as [|c t IH]; [done|].
  rewrite Contains_slash_cons. destruct (decide (c = "/"%char)) as [->|Hc].
  - intros _. rewrite split_scan_cons_slash. cbn [length].
    pose proof (split_scan_length t). lia.
  - rewrite bool_decide_eq_false_2 by done. cbn [orb]. intros Ht%IH.
    rewrite split_scan_cons_other by done.
    destruct (split_scan "/" 0 t); cbn [length] in *; lia.
Qed.

Lemma concat_split_length (T : list string) :
  (length T ≤ length (concat (map (fun t => strings_Split t "/") T)))%nat ∧
  (Exists (fun t => strings_Contains t "/" = true) T →
   (length T < length (concat (map (fun t => strings_Split t "/") T)))%nat).
Proof.
  induction T as [|t T [IH1 IH2]]; cbn [map concat length].
  - split; [lia|]. by intros ?%Exists_nil.
  - rewrite length_app. pose proof (split_scan_length t) as H1.
    change (split_scan "/" 0 t) with (strings_Split t "/") in H1.
    split; [lia|]. intros [Ht|HT]%Exists_cons.
    + apply split_scan_slash_length in Ht.
      change (split_scan "/" 0 t) with (strings_Split t "/") in Ht. lia.
    + specialize (IH2 HT). lia.
Qed.

(** X8. What comes back for the tags that [ImportBook] joins and
    [GetBooksById] splits: for a list with at least one tag, the pieces of
    all the tags between their slashes, in order.  Hence the tags come back
    as they were exactly when there is at least one tag and no tag has a
    slash. *)
Theorem tags_round_trip_iff (T : list string) :
  (T ≠ [] →
   strings_Split (strings_Join T "/") "/"
   = concat (map (fun t => strings_Split t "/") T)) ∧
  (strings_Split (strings_Join T "/") "/" = T ↔
   T ≠ [] ∧ Forall (fun t => strings_Contains t "/" = false) T).
Proof.
  split.
  - destruct T as [|t T]; [done|]. intros _. apply Split_Join_concat.
  - split.
    + intros Heq. destruct T as [|t T]; [done|]. split; [done|].
      destruct (decide (Forall (fun t => strings_Contains t "/" = false) (t :: T)))
        as [Hall|Hex]; [done|].
      exfalso. apply not_Forall_Exists in Hex; [|intros ?; apply _].
      rewrite Split_Join_concat in Heq.
      destruct (concat_split_length (t :: T)) as [_ Hlt].
      rewrite Heq in Hlt.
      assert (length (t :: T) < length (t :: T))%nat; [|lia].
      apply Hlt. eapply Exists_impl; [exact Hex|].
      intros x Hx. by apply not_false_is_true.
    + intros [Hne Hall]. destruct T as [|t T]; [done|].
      by apply Split_Join_nonempty.
Qed.

End SlashedTags.

(** ** Joining what was split *)

Section JoinSplit.

Lemma split_scan_nonempty sep k s : split_scan sep k s ≠ [].
Proof.
  revert k. induction s as [|c s IH]; intros k; [done|].
  cbn [split_scan]. destruct k as [|k]; [|apply IH].
  destruct (String.prefix sep (String c s)); [done|].
  by destruct (split_scan sep 0 s).
Qed.

Lemma Join_cons_byte c piece pieces sep :
  strings_Join (String c piece :: pieces) sep
  = String c (strings_Join (piece :: pieces) sep).
Proof. by destruct pieces. Qed.

Lemma Join_cons_empty pieces sep :
  pieces ≠ [] → strings_Join ("" :: pieces) sep = sep +:+ strings_Join pieces sep.
Proof. by destruct pieces. Qed.

Lemma prefix_split (a b : string) :
  String.prefix a b = true → ∃ rest, b = a +:+ rest.
Proof.
  revert b. induction a as [|c a IH]; intros b; [by exists b|].
  destruct b as [|c' b]; [done|].
  change (String.prefix (String c a) (String c' b))
    with (if ascii_dec c c' then String.prefix a b else false).
  destruct (ascii_dec c c') as [->|]; [|done].
  intros [rest ->]%IH. by exists rest.
Qed.

Lemma substring_after (a b : string) :
  String.substring (String.length a)
    (String.length (a +:+ b) - String.length a) (a +:+ b) = b.
Proof.
  induction a as [|c a IH].
  - rewrite append_nil_l. cbn [String.length]. rewrite Nat.sub_0_r.
    apply substring_all.
  - rewrite append_cons. cbn [String.length String.substring].
    exact IH.
Qed.

(** Joining the pieces of a split with the separator gives the string
    back, from the point where the scan started. *)
Lemma Join_split_scan sep s k :
  sep ≠ "" →
  strings_Join (split_scan sep k s) sep
  = String.substring k (String.length s - k) s.
Proof.
  intros Hsep. revert k. induction s as [|c s IH]; intros k.
  - cbn [split_scan strings_Join String.length]. by rewrite substring_none.
  - cbn [split_scan]. destruct k as [|k].
    + destruct (String.prefix sep (String c s)) eqn:Hp.
      * rewrite Join_cons_empty by apply split_scan_nonempty.
        rewrite IH. destruct sep as [|c0 sep']; [done|].
        change (String.prefix (String c0 sep') (String c s))
          with (if ascii_dec c0 c then String.prefix sep' s else false) in Hp.
        destruct (ascii_dec c0 c) as [->|]; [|done].
        apply prefix_split in Hp as [rest ->].
        cbn [String.length].
        replace (S (String.length sep') - 1)%nat with (String.length sep') by lia.
        rewrite substring_after, append_cons, !Nat.sub_0_r.
        cbn [String.substring]. by rewrite substring_all.
      * specialize (IH 0%nat). rewrite Nat.sub_0_r, substring_all in IH.
        pose proof (split_scan_nonempty sep 0 s) as Hne.
        destruct (split_scan sep 0 s) as [|piece pieces]; [done|].
        by rewrite Join_cons_byte, IH, Nat.sub_0_r, substring_all.
    + rewrite IH. reflexivity.
Qed.

Lemma Join_Split s sep : sep ≠ "" → strings_Join (strings_Split s sep) sep = s.
Proof.
  intros Hsep. unfold strings_Split. destruct sep as [|c sep']; [done|].
  rewrite Join_split_scan by done. by rewrite Nat.sub_0_r, substring_all.
Qed.

(** X9. The [tags] column can be read back from any book that
    [GetBooksById] makes of a row: joining the tags of the book with ["/"],
    as [ImportBook] does, gives the column, whatever string it holds. *)
Theorem stored_tags_read_back (r : books.row) :
  strings_Join (Tags (scan_book r)) "/" = books.tags r.
Proof. cbn [scan_book Tags]. by apply Join_Split. Qed.

End JoinSplit.

(** ** The ids asked for, as a set *)

Section IdSets.

Lemma db_Query_by_ids_any env c (n : nat) :
  db_Query env c
    (by_ids_sql
       (String.substring 0
          (String.length (strings_Repeat "?," (S n)) - 1)
          (strings_Repeat "?," (S n))))
    (S n) = fails env c.
Proof.
  destruct (fails env c) as [e|] eqn:Hf.
  - unfold db_Query. by rewrite Hf.
  - by apply db_Query_by_ids.
Qed.

Lemma select_by_ids_ext db (ids ids' : list Z) :
  (∀ i, i ∈ ids ↔ i ∈ ids') → select_by_ids db ids = select_by_ids db ids'.
Proof.
  intros Hset. rewrite !select_by_ids_filter. apply filter_ext. intros r.
  apply bool_decide_ext, Hset.
Qed.

(** X10. [GetBooksById] looks at its ids as a set, as far as the query
    goes through: two lists with the same members, in whatever order and
    however often, for which the environment gives the query the same
    answer (both are served, or both are refused with the same error: the
    statement has one variable for each id of the list, and SQLite refuses
    one with too many), give the same books and the same error. *)
Theorem GetBooksById_ids_as_set env w (ids ids' : list Z) :
  (∀ i, i ∈ ids ↔ i ∈ ids') →
  fails env (CByIdQuery (length ids)) = fails env (CByIdQuery (length ids')) →
  GetBooksById env w ids = GetBooksById env w ids'.
Proof.
  intros Hset Hq. destruct ids as [|i ids], ids' as [|i' ids'].
  - done.
  - exfalso. eapply elem_of_nil, Hset. left.
  - exfalso. eapply elem_of_nil, Hset. left.
  - unfold GetBooksById. cbn [length Nat.eqb] in *.
    rewrite !db_Query_by_ids_any, Hq.
    by rewrite (select_by_ids_ext _ _ _ Hset).
Qed.

(** X11. Every book that [Search] returns, with or without an error, is
    the scan of a row of [books] whose id the index pass yielded: an id of
    the index without a row in [books] gives nothing and no error.  When the
    full-text query is served and yields no id, the result is empty and
    there is no error, and [books] is not asked. *)
Theorem Search_sound env w terms :
  (∀ bk, bk ∈ (Search env w terms).1 →
         ∃ r, r ∈ table_books (w_db w) ∧
              books.id r ∈ fts_match env terms (table_books_fts (w_db w)) ∧
              bk = scan_book r) ∧
  (fails env CFtsQuery = None → fails env CFtsRows = None →
   fts_match env terms (table_books_fts (w_db w)) = [] →
   Search env w terms = ([], None)).
Proof.
  split.
  - intros bk. unfold Search.
    destruct (fails env CFtsQuery); [by intros ?%elem_of_nil|].
    destruct (iterate env CFtsRows (select_docid_match env (w_db w) terms))
      as [ids [e|]] eqn:Hit; [by intros ?%elem_of_nil|].
    intros (r & Hr & Hid & ->)%GetBooksById_elem.
    exists r. split_and!; [done| |done].
    change (fts_match env terms (table_books_fts (w_db w)))
      with (select_docid_match env (w_db w) terms).
    apply (iterate_sublist env CFtsRows). by rewrite Hit.
  - intros Hq Hr Hnone. unfold Search, select_docid_match.
    by rewrite Hq, iterate_ok, Hnone.
Qed.

End IdSets.

(** ** What copying and moving touch *)

Section FileLaws.
Context (env : Env).

(** [copyFile] writes to [dst] and to nothing else, whatever happens. *)
Lemma copyFile_frame w src dst :
  (∀ p, p ≠ dst →
        files (w_fs (copyFile env w src dst).1) !! p = files (w_fs w) !! p) ∧
  dirs (w_fs (copyFile env w src dst).1) = dirs (w_fs w).
Proof.
  destruct w as [db [fs ds] calls].
  unfold copyFile, os_Open, File_Stat, os_Create, io_Copy, File_Close,
    os_Chtimes, record, set_files. cbn.
  destruct (fails env COpen); [done|].
  destruct (fs !! src) as [f|]; [|done].
  destruct (fails env CFstat); [done|].
  destruct (fails env CCreate); [done|].
  case_bool_decide; [done|].
  destruct (fails env CCopy), (fails env CChtimes); cbn;
    rewrite ?lookup_insert_eq; cbn; (split; [|done]); intros p Hp;
    by rewrite ?lookup_insert_ne.
Qed.

Lemma copyFile_error_form w src dst e :
  (copyFile env w src dst).2 = Some e → ∃ cause, e = WithMessage cause "Copy file".
Proof.
  destruct w as [db [fs ds] calls].
  unfold copyFile, os_Open, File_Stat, os_Create, io_Copy, File_Close,
    os_Chtimes, record, set_files. cbn.
  destruct (fails env COpen); [intros [= <-]; by eexists|].
  destruct (fs !! src) as [f|]; [|intros [= <-]; by eexists].
  destruct (fails env CFstat); [intros [= <-]; by eexists|].
  destruct (fails env CCreate); [intros [= <-]; by eexists|].
  case_bool_decide; [intros [= <-]; by eexists|].
  destruct (fails env CCopy), (fails env CClose), (fails env CChtimes); cbn;
    rewrite ?lookup_insert_eq; cbn; try done; intros [= <-]; by eexists.
Qed.

Lemma copyFile_no_source w src dst :
  files (w_fs w) !! src = None →
  ∃ cause, copyFile env w src dst
           = (record (EvOpen src) w, Some (WithMessage cause "Copy file")).
Proof.
  intros Hsrc. unfold copyFile, os_Open. cbn.
  destruct (fails env COpen); [by eexists|]. rewrite Hsrc. by eexists.
Qed.

(** X12. [copyFile] changes no file but [dst] and no directory, whether it
    succeeds or at which step ever it fails; every error it returns is
    wrapped as ["Copy file"]; and when nothing has the name [src], neither
    a file nor a directory, it fails at once: its one call is the [Open],
    and [dst] is neither made nor emptied. *)
Theorem copyFile_touches_dst_only w src dst :
  (∀ p, p ≠ dst →
        files (w_fs (copyFile env w src dst).1) !! p = files (w_fs w) !! p) ∧
  dirs (w_fs (copyFile env w src dst).1) = dirs (w_fs w) ∧
  (∀ e, (copyFile env w src dst).2 = Some e →
        ∃ cause, e = WithMessage cause "Copy file") ∧
  (os_Stat (w_fs w) src = false →
   is_Some (copyFile env w src dst).2 ∧
   w_fs (copyFile env w src dst).1 = w_fs w ∧
   w_calls (copyFile env w src dst).1 = EvOpen src :: w_calls w).
Proof.
  destruct (copyFile_frame w src dst) as [H1 H2].
  split_and!; [done|done|apply copyFile_error_form|].
  intros [Hfile _]%orb_false_iff. unfold is_file in Hfile.
  apply bool_decide_eq_false in Hfile.
  assert (Hsrc : files (w_fs w) !! src = None).
  { destruct (files (w_fs w) !! src) eqn:E; [|done]. destruct Hfile. by eexists. }
  apply (copyFile_no_source w src dst) in Hsrc as [cause ->]. by split_and!.
Qed.

(** X13. After a successful [copyFile] to another name, the destination
    holds the bytes of the source and the source is the file it was. *)
Theorem copyFile_copies w src dst w' :
  copyFile env w src dst = (w', None) → src ≠ dst →
  ∃ f, files (w_fs w) !! src = Some f ∧
       files (w_fs w') !! src = Some f ∧
       content <$> files (w_fs w') !! dst = Some (content f).
Proof.
  intros (f & Hsrc & Hfiles & _)%copyFile_nil_inv Hne.
  exists f. rewrite Hfiles, lookup_insert_eq, lookup_insert_ne by done.
  split_and!; [done..|]. cbn. by rewrite decide_False.
Qed.

(** X14. A successful [copyFile] of a file onto itself leaves it empty:
    [os.Create] empties the file before a byte of it is read. *)
Theorem copyFile_onto_itself w name w' :
  copyFile env w name name = (w', None) →
  is_Some (files (w_fs w) !! name) ∧
  content <$> files (w_fs w') !! name = Some "".
Proof.
  intros (f & Hsrc & Hfiles & _)%copyFile_nil_inv.
  split; [by eexists|]. rewrite Hfiles, lookup_insert_eq. cbn.
  by rewrite decide_True.
Qed.

Lemma os_Rename_ok w src dst f :
  fails env CRename = None → files (w_fs w) !! src = Some f →
  os_Rename env w src dst
  = (set_files (<[dst := f]> (delete src (files (w_fs w))))
       (record (EvRename src dst) w), None).
Proof. intros Hf Hsrc. unfold os_Rename. cbn. by rewrite Hf, Hsrc. Qed.

(** X15. When the rename is served, [moveFile] makes that one call and
    returns nil: the file, bytes and time, is under the new name, and the
    old name, when it is another one, is free. *)
Theorem moveFile_renames w src dst f :
  fails env CRename = None → files (w_fs w) !! src = Some f →
  (moveFile env w src dst).2 = None ∧
  w_calls (moveFile env w src dst).1 = EvRename src dst :: w_calls w ∧
  files (w_fs (moveFile env w src dst).1) !! dst = Some f ∧
  (src ≠ dst → files (w_fs (moveFile env w src dst).1) !! src = None) ∧
  (∀ p, p ≠ src → p ≠ dst →
        files (w_fs (moveFile env w src dst).1) !! p = files (w_fs w) !! p).
Proof.
  intros Hf Hsrc. unfold moveFile. rewrite (os_Rename_ok w src dst f) by done.
  cbn. split_and!; [done|done|apply lookup_insert_eq| |].
  - intros Hne. by rewrite lookup_insert_ne, lookup_delete_eq.
  - intros p Hp1 Hp2. by rewrite lookup_insert_ne, lookup_delete_ne.
Qed.

Lemma os_Rename_cases w src dst w1 r :
  os_Rename env w src dst = (w1, r) →
  (r = None ∧ ∃ f, files (w_fs w) !! src = Some f ∧
                   files (w_fs w1) = <[dst := f]> (delete src (files (w_fs w)))) ∨
  (is_Some r ∧ w_fs w1 = w_fs w).
Proof.
  unfold os_Rename. cbn.
  destruct (fails env CRename); [intros [= <- <-]; right; by split|].
  destruct (files (w_fs w) !! src) as [f|] eqn:Hsrc;
    intros [= <- <-]; [left|right; by split].
  split; [done|]. by exists f.
Qed.

Lemma os_Remove_cases w name w1 r :
  os_Remove env w name = (w1, r) →
  files (w_fs w1) = delete name (files (w_fs w)) ∨ w_fs w1 = w_fs w.
Proof.
  unfold os_Remove. cbn.
  destruct (fails env CRemove); [intros [= <- <-]; by right|].
  destruct (files (w_fs w) !! name); intros [= <- <-]; [by left|by right].
Qed.

(** X16. [moveFile] between two different names never loses the bytes of
    the source, whatever the environment does: afterwards the source is
    the file it was, or the destination holds its bytes.  When [moveFile]
    returns an error, the source is the file it was. *)
Theorem moveFile_keeps_the_bytes w src dst f :
  src ≠ dst → files (w_fs w) !! src = Some f →
  (files (w_fs (moveFile env w src dst).1) !! src = Some f ∨
   content <$> files (w_fs (moveFile env w src dst).1) !! dst = Some (content f)) ∧
  (is_Some (moveFile env w src dst).2 →
   files (w_fs (moveFile env w src dst).1) !! src = Some f).
Proof.
  intros Hne Hsrc. unfold moveFile.
  destruct (os_Rename env w src dst) as [w1 r1] eqn:Hren.
  apply os_Rename_cases in Hren as [(-> & f' & Hf' & Hfiles)|[[e1 ->] Hfs1]].
  - cbn. rewrite Hfiles, lookup_insert_eq.
    rewrite Hsrc in Hf'. injection Hf' as <-.
    split; [by right|]. by intros [? [=]].
  - destruct (copyFile env w1 src dst) as [w2 r2] eqn:Hcp.
    destruct r2 as [e2|].
    + cbn. pose proof (copyFile_frame w1 src dst) as [Hframe _].
      rewrite Hcp in Hframe. cbn in Hframe.
      rewrite (Hframe src Hne), Hfs1. split; [by left|done].
    + apply copyFile_nil_inv in Hcp as (f1 & Hf1 & Hfiles2 & _).
      rewrite Hfs1, Hsrc in Hf1. injection Hf1 as <-.
      rewrite decide_False in Hfiles2 by done.
      destruct (os_Remove env w2 src) as [w3 r3] eqn:Hrm.
      assert (Hdst : content <$> files (w_fs w3) !! dst = Some (content f)).
      { apply os_Remove_cases in Hrm as [->| ->].
        - by rewrite lookup_delete_ne, Hfiles2, lookup_insert_eq.
        - by rewrite Hfiles2, lookup_insert_eq. }
      destruct r3; cbn; (split; [by right|by intros [? [=]]]).
Qed.

End FileLaws.

(** ** Placing a book *)

Section Placement.
Context (lib : Library) (env : Env).

Lemma append_assoc (a b c : string) : (a +:+ b) +:+ c = a +:+ (b +:+ c).
Proof. induction a as [|x a IH]; [done|]. rewrite !append_cons. by rewrite IH. Qed.



Lemma path_Clean_nonempty p : path_Clean p ≠ "".
Proof.
  unfold path_Clean.
  match goal with |- (if String.eqb ?r "" then _ else _) ≠ _ =>
    destruct (String.eqb_spec r "") end; done.
Qed.

Lemma os_MkdirAll_cases w d w1 r :
  os_MkdirAll env w d = (w1, r) →
  w_calls w1 = EvMkdirAll d :: w_calls w ∧
  files (w_fs w1) = files (w_fs w) ∧
  match r with
  | Some _ =>
      ∃ made, made `prefix_of` removelast (MkdirAll_dirs d) ∧
              dirs (w_fs w1) = dirs (w_fs w) ∪ list_to_set made
  | None => dirs (w_fs w1) = dirs (w_fs w) ∪ list_to_set (MkdirAll_dirs d)
  end.
Proof.
  unfold os_MkdirAll. cbn.
  destruct (fails env CMkdirAll).
  - destruct (existsb _ _); intros [= <- <-]; cbn; (split_and!; [done..|]).
    + exists []. split; [apply prefix_nil|]. cbn. by rewrite (right_id_L ∅ (∪)).
    + eexists. split; [apply prefix_take|done].
  - destruct (existsb _ _); intros [= <- <-]; cbn; (split_and!; [done..|]).
    + exists []. split; [apply prefix_nil|]. cbn. by rewrite (right_id_L ∅ (∪)).
    + done.
Qed.


(** X18. When the directory of the destination cannot be made,
    [moveOrCopyFile] returns the error of [os.MkdirAll] as it is, and that
    call is the only one it makes: no file is opened, made, renamed or
    removed.  The directories that were there stay, and what is new are
    directories on the way to the directory of the destination that were
    made before the failure, from the top down; the directory of the
    destination itself is not among those made. *)
Theorem moveOrCopyFile_without_directory w book move w1 e :
  os_MkdirAll env w (path_Dir (path_Join [booksRoot lib; CurrentFilename book]))
    = (w1, Some e) →
  moveOrCopyFile lib env w book move = (w1, Some e) ∧
  files (w_fs w1) = files (w_fs w) ∧
  w_calls w1
    = EvMkdirAll (path_Dir (path_Join [booksRoot lib; CurrentFilename book]))
      :: w_calls w ∧
  ∃ made,
    made `prefix_of`
      removelast
        (MkdirAll_dirs
           (path_Dir (path_Join [booksRoot lib; CurrentFilename book]))) ∧
    dirs (w_fs w1) = dirs (w_fs w) ∪ list_to_set made.
Proof.
  intros Hmk. unfold moveOrCopyFile. rewrite Hmk. split; [done|].
  by apply os_MkdirAll_cases in Hmk as (Hc & Hf & Hd).
Qed.

End Placement.

(** ** Names that are free *)

Section FreeNames.

Lemma GetUniqueName_loop_free fuel fs f ext i newName n :
  GetUniqueName_loop fuel fs f ext i newName = Some n →
  os_Stat fs n = false ∧ (n = newName ∨ ∃ j, n = numbered_name f ext j).
Proof.
  revert i newName. induction fuel as [|fuel IH]; intros i newName;
    cbn [GetUniqueName_loop]; destruct (os_Stat fs newName) eqn:Hs.
  - done.
  - intros [= <-]. split; [done|by left].
  - intros [Hfree [->|Hj]]%IH; (split; [done|right]); [by exists i|done].
  - intros [= <-]. split; [done|by left].
Qed.

(** X19. Whatever [GetUniqueName] returns is a name that is free, and it is
    [f] itself or [f] with a number put in before its extension; for a
    name [f] that is free it returns [f] at once. *)
Theorem GetUniqueName_is_free :
  (∀ fuel fs f n,
     GetUniqueName fuel fs f = Some n →
     os_Stat fs n = false ∧
     (n = f ∨ ∃ j, n = numbered_name f (path_Ext f) j)) ∧
  (∀ fuel fs f, os_Stat fs f = false → GetUniqueName fuel fs f = Some f).
Proof.
  split.
  - intros fuel fs f n. apply GetUniqueName_loop_free.
  - intros fuel fs f Hf. unfold GetUniqueName.
    destruct fuel; cbn [GetUniqueName_loop]; by rewrite Hf.
Qed.

End FreeNames.

(** * The editor *)

Section EditorLaws.
Context (Lib : Type).
Context (UpdateBook : Lib → commands.Book → bool → Lib * option commands.UpdateError).
Context (MergeBooks : Lib → list Z → Lib * option error).

Lemma prefix_byte x c s :
  String.prefix (String x "") (String c s) = bool_decide (x = c).
Proof.
  change (String.prefix (String x "") (String c s))
    with (if ascii_dec x c then String.prefix "" s else false).
  destruct (ascii_dec x c) as [->|Hne].
  - rewrite bool_decide_eq_true_2 by done. by destruct s.
  - by rewrite bool_decide_eq_false_2.
Qed.

Lemma Contains_space_cons c s :
  strings_Contains (String c s) " "
  = bool_decide (" "%char = c) || strings_Contains s " ".
Proof.
  change (strings_Contains (String c s) " ")
    with (String.prefix " " (String c s) || strings_Contains s " ").
  by rewrite prefix_byte.
Qed.

Lemma cut_first_cons sep c s :
  cut_first sep (String c s)
  = if String.prefix sep (String c s)
    then Some ("", String.substring (String.length sep)
                     (String.length (String c s) - String.length sep)
                     (String c s))
    else match cut_first sep s with
         | Some (before, after) => Some (String c before, after)
         | None => None
         end.
Proof. reflexivity. Qed.

(** A word is cut off at the space behind it. *)
Lemma cut_first_word w rest :
  strings_Contains w " " = false →
  cut_first " " (w +:+ String " " rest) = Some (w, rest).
Proof.
  induction w as [|c w IH]; intros Hw.
  - rewrite append_nil_l, cut_first_cons, prefix_byte.
    rewrite bool_decide_eq_true_2 by done.
    cbn [String.length String.substring Nat.sub].
    by rewrite ?Nat.sub_0_r, substring_all.
  - rewrite Contains_space_cons in Hw.
    apply orb_false_iff in Hw as [Hc Hw]. apply bool_decide_eq_false in Hc.
    rewrite append_cons, cut_first_cons, prefix_byte.
    rewrite bool_decide_eq_false_2 by done. by rewrite IH.
Qed.

Lemma cut_first_no_space w :
  strings_Contains w " " = false → cut_first " " w = None.
Proof.
  induction w as [|c w IH]; intros Hw; [done|].
  rewrite Contains_space_cons in Hw.
  apply orb_false_iff in Hw as [Hc Hw]. apply bool_decide_eq_false in Hc.
  rewrite cut_first_cons, prefix_byte.
  rewrite bool_decide_eq_false_2 by done. by rewrite IH.
Qed.

Lemma SplitN_word w rest :
  strings_Contains w " " = false →
  strings_SplitN (w +:+ String " " rest) " " 2 = [w; rest].
Proof.
  intros Hw. unfold strings_SplitN. cbn [Z.eqb Z.ltb Z.compare].
  change (Z.to_nat 2 - 1)%nat with 1%nat. cbn [splitN_loop].
  by rewrite cut_first_word.
Qed.

Lemma SplitN_single w :
  strings_Contains w " " = false → strings_SplitN w " " 2 = [w].
Proof.
  intros Hw. unfold strings_SplitN. cbn [Z.eqb Z.ltb Z.compare].
  change (Z.to_nat 2 - 1)%nat with 1%nat. cbn [splitN_loop].
  by rewrite cut_first_no_space.
Qed.

Lemma SplitN_2_shape cmd :
  (∃ w, strings_SplitN cmd " " 2 = [w]) ∨
  (∃ w rest, strings_SplitN cmd " " 2 = [w; rest]).
Proof.
  unfold strings_SplitN. cbn [Z.eqb Z.ltb Z.compare].
  change (Z.to_nat 2 - 1)%nat with 1%nat. cbn [splitN_loop].
  destruct (cut_first " " cmd) as [[before after]|];
    [right; by eexists _, _|left; by eexists].
Qed.

(** A line with a word and a rest is the call of the command of that
    name on the rest; a line of one word is its call on [""]. *)
Lemma parse_word b lib w rest :
  strings_Contains w " " = false →
  commands.parse Lib UpdateBook MergeBooks b lib (w +:+ String " " rest)
  = Some (match commands.cmdtable Lib UpdateBook MergeBooks !! w with
          | None => (b, lib, [commands.Println ["Unknown command."]])
          | Some fn => fn b lib rest
          end).
Proof.
  intros Hw. unfold commands.parse. rewrite SplitN_word by done. cbn.
  by destruct (_ !! w).
Qed.

Lemma parse_single b lib w :
  strings_Contains w " " = false →
  commands.parse Lib UpdateBook MergeBooks b lib w
  = Some (match commands.cmdtable Lib UpdateBook MergeBooks !! w with
          | None => (b, lib, [commands.Println ["Unknown command."]])
          | Some fn => fn b lib ""
          end).
Proof.
  intros Hw. unfold commands.parse. rewrite SplitN_single by done. cbn.
  by destruct (_ !! w).
Qed.

Lemma cmdtable_cases name fn :
  commands.cmdtable Lib UpdateBook MergeBooks !! name = Some fn →
  fn = commands.cmdAuthors Lib ∨ fn = commands.cmdShow Lib ∨
  fn = commands.cmdTitle Lib ∨ fn = commands.cmdSeries Lib ∨
  (name = "save" ∧ fn = commands.cmdSave Lib UpdateBook MergeBooks).
Proof.
  unfold commands.cmdtable.
  repeat (rewrite lookup_insert; case_decide; [intros [= <-]; subst; auto 10|]).
  by rewrite lookup_empty.
Qed.

Lemma parse_is_Some b lib cmd :
  is_Some (commands.parse Lib UpdateBook MergeBooks b lib cmd).
Proof.
  unfold commands.parse.
  destruct (SplitN_2_shape cmd) as [[w ->]|(w & rest & ->)]; cbn;
    by destruct (_ !! w).
Qed.

Lemma cmdtable_unknown w :
  w ∉ ["a"; "authors"; "show"; "title"; "series"; "save"] →
  commands.cmdtable Lib UpdateBook MergeBooks !! w = None.
Proof.
  intros Hw. repeat (apply not_elem_of_cons in Hw as [? Hw]).
  unfold commands.cmdtable. rewrite !lookup_insert_ne by done.
  apply lookup_empty.
Qed.

(** X26. [parse] never panics: the split of a line has a first piece,
    whatever the line is, the empty one too.  A line whose first word is no
    key of [cmdtable] changes neither the book nor the library and writes
    [Unknown command.] *)
Theorem parse_unknown_command b lib cmd :
  is_Some (commands.parse Lib UpdateBook MergeBooks b lib cmd) ∧
  (∀ w, (cmd = w ∨ ∃ rest, cmd = w +:+ String " " rest) →
        strings_Contains w " " = false →
        w ∉ ["a"; "authors"; "show"; "title"; "series"; "save"] →
        commands.parse Lib UpdateBook MergeBooks b lib cmd
        = Some (b, lib, [(commands.Stdout, "Unknown command." +:+ LF)])).
Proof.
  split; [apply parse_is_Some|].
  intros w [->|[rest ->]] Hw Hun.
  - by rewrite parse_single, cmdtable_unknown.
  - by rewrite parse_word, cmdtable_unknown.
Qed.

(** X27. [title] and [series] take the whole rest of the line, spaces and
    all, as the new title or series, and change nothing else; without a
    rest they change nothing and write their usage to the standard error. *)
Theorem parse_title_series b lib text :
  (text ≠ "" →
   commands.parse Lib UpdateBook MergeBooks b lib ("title " +:+ text)
   = Some (commands.mkBook (commands.ID b) text (commands.Authors b)
             (commands.Series b), lib, []) ∧
   commands.parse Lib UpdateBook MergeBooks b lib ("series " +:+ text)
   = Some (commands.mkBook (commands.ID b) (commands.Title b)
             (commands.Authors b) text, lib, [])) ∧
  commands.parse Lib UpdateBook MergeBooks b lib "title"
  = Some (b, lib, [(commands.Stderr, "Usage: title <title>" +:+ LF)]) ∧
  commands.parse Lib UpdateBook MergeBooks b lib "title "
  = Some (b, lib, [(commands.Stderr, "Usage: title <title>" +:+ LF)]) ∧
  commands.parse Lib UpdateBook MergeBooks b lib "series"
  = Some (b, lib, [(commands.Stderr, "Usage: series <series>" +:+ LF)]).
Proof.
  split_and!.
  - intros Htext.
    change ("title " +:+ text) with ("title" +:+ String " " text).
    change ("series " +:+ text) with ("series" +:+ String " " text).
    rewrite !parse_word by done.
    unfold commands.cmdtable. simplify_map_eq.
    unfold commands.cmdTitle, commands.cmdSeries.
    apply String.eqb_neq in Htext. by rewrite Htext.
  - rewrite parse_single by done. unfold commands.cmdtable. by simplify_map_eq.
  - change "title " with ("title" +:+ String " " "").
    rewrite parse_word by done. unfold commands.cmdtable. by simplify_map_eq.
  - rewrite parse_single by done. unfold commands.cmdtable. by simplify_map_eq.
Qed.

(** X28. After [authors text], and after [a text] as well, the authors are
    the pieces of [text] between [" & "], and [show] writes [text] back as
    the line of the authors, whatever [text] is. *)
Theorem parse_authors_show b lib text :
  text ≠ "" →
  commands.parse Lib UpdateBook MergeBooks b lib ("authors " +:+ text)
  = Some (commands.mkBook (commands.ID b) (commands.Title b)
            (strings_Split text " & ") (commands.Series b), lib, []) ∧
  commands.parse Lib UpdateBook MergeBooks b lib ("a " +:+ text)
  = commands.parse Lib UpdateBook MergeBooks b lib ("authors " +:+ text) ∧
  commands.parse Lib UpdateBook MergeBooks
    (commands.mkBook (commands.ID b) (commands.Title b)
       (strings_Split text " & ") (commands.Series b)) lib "show"
  = Some (commands.mkBook (commands.ID b) (commands.Title b)
            (strings_Split text " & ") (commands.Series b), lib,
          [(commands.Stdout, "Title:  " +:+ commands.Title b +:+ LF);
           (commands.Stdout, "Authors:  " +:+ text +:+ LF);
           (commands.Stdout, "Series:  " +:+ commands.Series b +:+ LF)]).
Proof.
  intros Htext. apply String.eqb_neq in Htext.
  change ("authors " +:+ text) with ("authors" +:+ String " " text).
  change ("a " +:+ text) with ("a" +:+ String " " text).
  rewrite !parse_word, parse_single by done.
  unfold commands.cmdtable. simplify_map_eq.
  unfold commands.cmdAuthors, commands.cmdShow. rewrite Htext.
  split_and!; [done..|]. cbn [commands.Authors commands.Title commands.Series].
  change (split_scan " & " 0 text) with (strings_Split text " & ").
  rewrite Join_Split by done. reflexivity.
Qed.

(** X29. [save] leaves the book of the editor as it is.  When
    [UpdateBook] reports a book that exists and the argument is [-m],
    [MergeBooks] is called on the library that [UpdateBook] left, with the
    id of that book followed by the id of the book of the editor, and the
    library after [save] is the one that [MergeBooks] leaves.  In every
    other case the library after [save] is the one that [UpdateBook]
    left. *)
Theorem cmdSave_merges_on_request b lib args :
  (commands.cmdSave Lib UpdateBook MergeBooks b lib args).1.1 = b ∧
  (∀ BookID,
     (UpdateBook lib b true).2 = Some (commands.BookExistsError BookID) →
     args = "-m" →
     (commands.cmdSave Lib UpdateBook MergeBooks b lib args).1.2
     = (MergeBooks (UpdateBook lib b true).1 [BookID; commands.ID b]).1) ∧
  ((args ≠ "-m" ∨
    ∀ BookID,
      (UpdateBook lib b true).2 ≠ Some (commands.BookExistsError BookID)) →
   (commands.cmdSave Lib UpdateBook MergeBooks b lib args).1.2
   = (UpdateBook lib b true).1).
Proof.
  unfold commands.cmdSave.
  destruct (UpdateBook lib b true) as [lib1 [[BookID|e]|]]; cbn [fst snd].
  - destruct (String.eqb_spec args "-m") as [->|Hne].
    + destruct (MergeBooks lib1 [BookID; commands.ID b]) as [lib2 [e|]] eqn:Hm;
        cbn [fst snd]; (split_and!; [done| |]).
      * intros ? [= <-] _. by rewrite Hm.
      * intros [?|Hno]; [done|]. by destruct (Hno BookID).
      * intros ? [= <-] _. by rewrite Hm.
      * intros [?|Hno]; [done|]. by destruct (Hno BookID).
    + cbn [fst snd]. split_and!; [done| |done]. by intros ? _ ?.
  - split_and!; [done| |done]. by intros ? [=].
  - split_and!; [done| |done]. by intros ? [=].
Qed.

Lemma cmdSave_keeps_book b lib args :
  (commands.cmdSave Lib UpdateBook MergeBooks b lib args).1.1 = b.
Proof.
  unfold commands.cmdSave.
  destruct (UpdateBook lib b true) as [lib1 [[BookID|e]|]]; [|done..].
  destruct (String.eqb args "-m"); [|done].
  by destruct (MergeBooks lib1 [BookID; commands.ID b]) as [lib2 [e|]].
Qed.

Lemma parse_step b lib cmd b' lib' out :
  commands.parse Lib UpdateBook MergeBooks b lib cmd = Some (b', lib', out) →
  commands.ID b' = commands.ID b ∧
  (strings_SplitN cmd " " 2 !! 0%nat ≠ Some "save" → lib' = lib).
Proof.
  unfold commands.parse.
  destruct (strings_SplitN cmd " " 2 !! 0%nat) as [name|]; [|done].
  destruct (_ !! name) as [fn|] eqn:Hfn; [|by intros [= <- <- _]].
  apply cmdtable_cases in Hfn as [->|[->|[->|[->|[-> ->]]]]].
  - unfold commands.cmdAuthors. destruct (String.eqb _ _); by intros [= <- <- _].
  - unfold commands.cmdShow. by intros [= <- <- _].
  - unfold commands.cmdTitle. destruct (String.eqb _ _); by intros [= <- <- _].
  - unfold commands.cmdSeries. destruct (String.eqb _ _); by intros [= <- <- _].
  - intros [= Hsave]. split; [|done].
    match type of Hsave with
    | ?t = _ => assert (Hb : t.1.1 = b) by apply cmdSave_keeps_book
    end.
    rewrite Hsave in Hb. cbn in Hb. by subst.
Qed.

(** X30. Through a whole session of the editor, whatever the lines are, the
    loop does not panic and the id of the book stays what it was; and as
    long as no line has [save] as its first word, the library is not
    touched: the edits are in the book of the editor only. *)
Theorem edit_loop_keeps_id lines b lib :
  ∃ b' lib' out,
    commands.edit_loop Lib UpdateBook MergeBooks lines b lib
      = Some (b', lib', out) ∧
    commands.ID b' = commands.ID b ∧
    ((∀ line, line ∈ lines → strings_SplitN line " " 2 !! 0%nat ≠ Some "save") →
     lib' = lib).
Proof.
  revert b lib. induction lines as [|cmd lines IH]; intros b lib.
  - by exists b, lib, [].
  - cbn [commands.edit_loop].
    destruct (parse_is_Some b lib cmd) as [[[b1 lib1] out1] Hp]. rewrite Hp.
    apply parse_step in Hp as [Hid Hlib].
    destruct (IH b1 lib1) as (b2 & lib2 & out2 & -> & Hid2 & Hlib2).
    exists b2, lib2, (out1 ++ out2). split_and!; [done|congruence|].
    intros Hno. rewrite Hlib2, Hlib; [done| |].
    + apply Hno. left.
    + intros line Hline. apply Hno. by right.
Qed.

End EditorLaws.

(** * The further statements on the sample data *)

Lemma ImportBook_commits_witness :
  Forall (fun c => fails env_ok c = None) catalog_calls ∧
  fails env_ok CCommit = None ∧
  (∀ r, r ∈ table_books (w_db w0) → books.hash r ≠ Hash dune) ∧
  (∀ r, r ∈ table_books_fts (w_db w0) →
        books_fts.docid r ≠ next_rowid (map books.id (table_books (w_db w0)))) ∧
  moveOrCopyFile lib0 env_ok w0
    (set_Id (next_rowid (map books.id (table_books (w_db w0)))) dune) false
    = ((moveOrCopyFile lib0 env_ok w0 (set_Id 1 dune) false).1, None) ∧
  (ImportBook lib0 env_ok w0 dune false).2 = None ∧
  table_books (w_db (ImportBook lib0 env_ok w0 dune false).1)
    = table_books (w_db w0)
      ++ [row_of_book env_ok (next_rowid (map books.id (table_books (w_db w0)))) dune].
Proof.
  assert (H1 : Forall (fun c => fails env_ok c = None) catalog_calls)
    by (repeat constructor).
  assert (H3 : ∀ r, r ∈ table_books (w_db w0) → books.hash r ≠ Hash dune)
    by (intros r Hr; by apply elem_of_nil in Hr).
  assert (H4 : ∀ r, r ∈ table_books_fts (w_db w0) →
            books_fts.docid r ≠ next_rowid (map books.id (table_books (w_db w0))))
    by (intros r Hr; by apply elem_of_nil in Hr).
  assert (H5 : moveOrCopyFile lib0 env_ok w0
                 (set_Id (next_rowid (map books.id (table_books (w_db w0)))) dune)
                 false
               = ((moveOrCopyFile lib0 env_ok w0 (set_Id 1 dune) false).1, None))
    by (vm_compute; reflexivity).
  pose proof (ImportBook_commits lib0 env_ok w0 dune false _ H1 eq_refl H3 H4 H5)
    as (Hr & Hrows & _).
  split_and!; [exact H1 | reflexivity | exact H3 | exact H4 | exact H5
              | exact Hr | exact Hrows].
Defined.

Lemma ImportBook_error_keeps_catalog_witness :
  ImportBook lib0 env_mkdir_fails w1 emma true
    = (record (EvMkdirAll "/srv/books/Austen") w1,
       Some (WithMessage (ErrorString "permission denied")
                         "Moving or copying book")) ∧
  w_db (record (EvMkdirAll "/srv/books/Austen") w1) = w_db w1 ∧
  (∀ env' ids, GetBooksById env' (record (EvMkdirAll "/srv/books/Austen") w1) ids
               = GetBooksById env' w1 ids).
Proof.
  assert (H : ImportBook lib0 env_mkdir_fails w1 emma true
              = (record (EvMkdirAll "/srv/books/Austen") w1,
                 Some (WithMessage (ErrorString "permission denied")
                                   "Moving or copying book")))
    by (vm_compute; reflexivity).
  pose proof (ImportBook_error_keeps_catalog lib0 env_mkdir_fails w1 emma true
                _ _ H) as (Hdb & Hget & _).
  split_and!; [exact H | exact Hdb | exact Hget].
Defined.

Lemma ImportBook_refused_makes_no_call_witness :
  Exists (fun c => is_Some (fails env_insert_fails c)) catalog_calls ∧
  (ImportBook lib0 env_insert_fails w1 emma true).1 = w1.
Proof.
  assert (H : Exists (fun c => is_Some (fails env_insert_fails c)) catalog_calls).
  { unfold catalog_calls. do 3 apply Exists_cons_tl.
    apply Exists_cons_hd. by eexists. }
  split; [exact H|].
  exact (ImportBook_refused_makes_no_call lib0 env_insert_fails w1 emma true H).
Defined.

Lemma catalog_ok_w1 : catalog_ok (w_db w1).
Proof.
  split_and!.
  - vm_compute. repeat constructor.
  - vm_compute. apply NoDup_singleton.
  - by vm_compute.
Defined.

Lemma ImportBook_keeps_catalog_ok_witness :
  catalog_ok (w_db w1) ∧
  catalog_ok (w_db (ImportBook lib0 env_ok w1 emma false).1).
Proof.
  split; [exact catalog_ok_w1|].
  exact (ImportBook_keeps_catalog_ok lib0 env_ok w1 emma false catalog_ok_w1).
Defined.

Lemma library_ids_count_up_witness :
  CreateLibrary None None None = (Some initial_catalog, None) ∧
  w_db w0 = initial_catalog ∧
  catalog_ok (w_db (imports lib0 [(env_ok, dune, false);
                                  (env_mkdir_fails, emma, false);
                                  (env_ok, dune_again, true);
                                  (env_ok, emma, true)] w0)) ∧
  ids_dense (w_db (imports lib0 [(env_ok, dune, false);
                                 (env_mkdir_fails, emma, false);
                                 (env_ok, dune_again, true);
                                 (env_ok, emma, true)] w0)).
Proof.
  split; [reflexivity|]. split; [reflexivity|].
  exact (proj2 (library_ids_count_up lib0) None None initial_catalog w0
           [(env_ok, dune, false); (env_mkdir_fails, emma, false);
            (env_ok, dune_again, true); (env_ok, emma, true)]
           eq_refl eq_refl).
Defined.

Example imports_sample :
  map books.id (table_books (w_db (imports lib0
    [(env_ok, dune, false); (env_mkdir_fails, emma, false);
     (env_ok, dune_again, true); (env_ok, emma, true)] w0))) = [1; 2]%Z.
Proof. by vm_compute. Qed.

Lemma ImportBook_twice_witness :
  ImportBook lib0 env_ok w0 dune false = (w1, None) ∧
  fails env_ok CDupRows = None ∧ fails env_ok CCommit = None ∧
  Hash dune_again = Hash dune ∧
  fails env_whole_column CBegin = None ∧
  fails env_whole_column CDupQuery = None ∧
  fails env_whole_column CDupRows = None ∧
  ImportBook lib0 env_whole_column w1 dune_again true
  = (w1, Some (duplicate_error
                 (next_rowid (map books.id (table_books (w_db w0)))))).
Proof.
  assert (H : ImportBook lib0 env_ok w0 dune false = (w1, None))
    by (vm_compute; reflexivity).
  split_and!; [exact H | reflexivity..|].
  exact (ImportBook_twice lib0 env_ok w0 dune false w1 env_whole_column
           dune_again true H eq_refl eq_refl eq_refl eq_refl eq_refl eq_refl).
Defined.

Lemma ImportBook_then_GetBooksById_witness :
  ImportBook lib0 env_ok w0 dune false = (w1, None) ∧
  fails env_ok CDupRows = None ∧ fails env_ok CCommit = None ∧
  fails env_ok (CByIdQuery 1) = None ∧ fails env_ok CByIdScan = None ∧
  fails env_ok CByIdRows = None ∧
  GetBooksById env_ok w1 [next_rowid (map books.id (table_books (w_db w0)))]
  = ([mkBook (next_rowid (map books.id (table_books (w_db w0))))
        (Hash dune) (Author dune) (Series dune) (Title dune) (Extension dune)
        (strings_Split (strings_Join (Tags dune) "/") "/")
        "" (CurrentFilename dune) 0 0 "" ""], None).
Proof.
  assert (H : ImportBook lib0 env_ok w0 dune false = (w1, None))
    by (vm_compute; reflexivity).
  split_and!; [exact H | reflexivity..|].
  exact (proj1 (ImportBook_then_GetBooksById lib0 env_ok w0 dune false w1 env_ok
                  H eq_refl eq_refl eq_refl eq_refl eq_refl)).
Defined.

Lemma tags_round_trip_iff_witness :
  ["sf/f"; "classic"] ≠ [] ∧
  strings_Split (strings_Join ["sf/f"; "classic"] "/") "/"
  = concat (map (fun t => strings_Split t "/") ["sf/f"; "classic"]).
Proof.
  assert (H : ["sf/f"; "classic"] ≠ @nil string) by discriminate.
  split; [exact H|]. exact (proj1 (tags_round_trip_iff ["sf/f"; "classic"]) H).
Defined.

Example slashed_tag_sample :
  strings_Split (strings_Join ["sf/f"; "classic"] "/") "/" = ["sf"; "f"; "classic"].
Proof. reflexivity. Qed.

Lemma GetBooksById_ids_as_set_witness :
  (∀ i, i ∈ [2; 1; 2]%Z ↔ i ∈ [1; 2]%Z) ∧
  fails env_sqlite (CByIdQuery (length [2; 1; 2]%Z))
    = fails env_sqlite (CByIdQuery (length [1; 2]%Z)) ∧
  GetBooksById env_sqlite w2 [2; 1; 2]%Z = GetBooksById env_sqlite w2 [1; 2]%Z.
Proof.
  assert (H : ∀ i, i ∈ [2; 1; 2]%Z ↔ i ∈ [1; 2]%Z).
  { intros i. rewrite !elem_of_cons. pose proof (elem_of_nil i). tauto. }
  split; [exact H|]. split; [reflexivity|].
  exact (GetBooksById_ids_as_set env_sqlite w2 [2; 1; 2]%Z [1; 2]%Z H eq_refl).
Defined.

Lemma Search_sound_witness :
  fails env_ok CFtsQuery = None ∧ fails env_ok CFtsRows = None ∧
  fts_match env_ok "dune" (table_books_fts (w_db w0)) = [] ∧
  Search env_ok w0 "dune" = ([], None).
Proof.
  split_and!; [reflexivity..|].
  exact (proj2 (Search_sound env_ok w0 "dune") eq_refl eq_refl eq_refl).
Defined.

Lemma copyFile_touches_dst_only_witness :
  os_Stat (w_fs w0) "/in/none.epub" = false ∧
  is_Some (copyFile env_ok w0 "/in/none.epub" "/in/dune.epub").2 ∧
  w_fs (copyFile env_ok w0 "/in/none.epub" "/in/dune.epub").1 = w_fs w0 ∧
  w_calls (copyFile env_ok w0 "/in/none.epub" "/in/dune.epub").1
    = EvOpen "/in/none.epub" :: w_calls w0.
Proof.
  assert (H : os_Stat (w_fs w0) "/in/none.epub" = false)
    by (vm_compute; reflexivity).
  split; [exact H|].
  exact (proj2 (proj2 (proj2
           (copyFile_touches_dst_only env_ok w0 "/in/none.epub" "/in/dune.epub")))
           H).
Defined.

Lemma copyFile_copies_witness :
  copyFile env_chtimes_fails w0 "/in/dune.epub" "/srv/books/dune.epub"
    = ((copyFile env_chtimes_fails w0 "/in/dune.epub" "/srv/books/dune.epub").1,
       None) ∧
  "/in/dune.epub" ≠ "/srv/books/dune.epub" ∧
  ∃ f, files (w_fs w0) !! "/in/dune.epub" = Some f ∧
       files (w_fs (copyFile env_chtimes_fails w0 "/in/dune.epub"
                      "/srv/books/dune.epub").1) !! "/in/dune.epub" = Some f ∧
       content <$> files (w_fs (copyFile env_chtimes_fails w0 "/in/dune.epub"
                                  "/srv/books/dune.epub").1)
                   !! "/srv/books/dune.epub" = Some (content f).
Proof.
  assert (H : copyFile env_chtimes_fails w0 "/in/dune.epub" "/srv/books/dune.epub"
              = ((copyFile env_chtimes_fails w0 "/in/dune.epub"
                    "/srv/books/dune.epub").1, None))
    by (vm_compute; reflexivity).
  assert (Hne : "/in/dune.epub" ≠ "/srv/books/dune.epub") by discriminate.
  split; [exact H|]. split; [exact Hne|].
  exact (copyFile_copies env_chtimes_fails w0 "/in/dune.epub"
           "/srv/books/dune.epub" _ H Hne).
Defined.

Lemma copyFile_onto_itself_witness :
  copyFile env_ok w0 "/in/dune.epub" "/in/dune.epub"
    = ((copyFile env_ok w0 "/in/dune.epub" "/in/dune.epub").1, None) ∧
  content <$> files (w_fs w0) !! "/in/dune.epub" = Some "dune!" ∧
  content <$> files (w_fs (copyFile env_ok w0 "/in/dune.epub" "/in/dune.epub").1)
              !! "/in/dune.epub" = Some "".
Proof.
  assert (H : copyFile env_ok w0 "/in/dune.epub" "/in/dune.epub"
              = ((copyFile env_ok w0 "/in/dune.epub" "/in/dune.epub").1, None))
    by (vm_compute; reflexivity).
  split; [exact H|]. split; [by vm_compute|].
  exact (proj2 (copyFile_onto_itself env_ok w0 "/in/dune.epub" _ H)).
Defined.

Lemma moveFile_renames_witness :
  fails env_ok CRename = None ∧
  files (w_fs w0) !! "/in/dune.epub" = Some (mkFile "dune!" 1000) ∧
  (moveFile env_ok w0 "/in/dune.epub" "/srv/books/dune.epub").2 = None ∧
  w_calls (moveFile env_ok w0 "/in/dune.epub" "/srv/books/dune.epub").1
    = EvRename "/in/dune.epub" "/srv/books/dune.epub" :: w_calls w0 ∧
  files (w_fs (moveFile env_ok w0 "/in/dune.epub" "/srv/books/dune.epub").1)
    !! "/srv/books/dune.epub" = Some (mkFile "dune!" 1000).
Proof.
  assert (H : files (w_fs w0) !! "/in/dune.epub" = Some (mkFile "dune!" 1000))
    by (vm_compute; reflexivity).
  pose proof (moveFile_renames env_ok w0 "/in/dune.epub" "/srv/books/dune.epub"
                _ eq_refl H) as (H1 & H2 & H3 & _).
  split_and!; [reflexivity | exact H | exact H1 | exact H2 | exact H3].
Defined.

Lemma moveFile_keeps_the_bytes_witness :
  "/in/dune.epub" ≠ "/srv/books/dune.epub" ∧
  files (w_fs w0) !! "/in/dune.epub" = Some (mkFile "dune!" 1000) ∧
  (files (w_fs (moveFile env_other_device w0 "/in/dune.epub"
                  "/srv/books/dune.epub").1) !! "/in/dune.epub"
     = Some (mkFile "dune!" 1000) ∨
   content <$> files (w_fs (moveFile env_other_device w0 "/in/dune.epub"
                              "/srv/books/dune.epub").1)
               !! "/srv/books/dune.epub" = Some "dune!").
Proof.
  assert (Hne : "/in/dune.epub" ≠ "/srv/books/dune.epub") by discriminate.
  assert (H : files (w_fs w0) !! "/in/dune.epub" = Some (mkFile "dune!" 1000))
    by (vm_compute; reflexivity).
  split; [exact Hne|]. split; [exact H|].
  exact (proj1 (moveFile_keeps_the_bytes env_other_device w0 "/in/dune.epub"
                  "/srv/books/dune.epub" _ Hne H)).
Defined.


Lemma moveOrCopyFile_without_directory_witness :
  os_MkdirAll env_mkdir_fails_late w0
    (path_Dir (path_Join [booksRoot lib0; CurrentFilename dune]))
    = (mkWorld (w_db w0) (mkFS (files fs0) {["/in"; "/srv"]})
         [EvMkdirAll "/srv/books/Herbert"],
       Some (ErrorString "no space left on device")) ∧
  moveOrCopyFile lib0 env_mkdir_fails_late w0 dune true
    = (mkWorld (w_db w0) (mkFS (files fs0) {["/in"; "/srv"]})
         [EvMkdirAll "/srv/books/Herbert"],
       Some (ErrorString "no space left on device")) ∧
  ∃ made,
    made `prefix_of` ["/srv"; "/srv/books"] ∧
    ({["/in"; "/srv"]} : gset string) = dirs (w_fs w0) ∪ list_to_set made.
Proof.
  assert (H : os_MkdirAll env_mkdir_fails_late w0
                (path_Dir (path_Join [booksRoot lib0; CurrentFilename dune]))
              = (mkWorld (w_db w0) (mkFS (files fs0) {["/in"; "/srv"]})
                   [EvMkdirAll "/srv/books/Herbert"],
                 Some (ErrorString "no space left on device")))
    by (vm_compute; reflexivity).
  pose proof (moveOrCopyFile_without_directory lib0 env_mkdir_fails_late w0
                dune true _ _ H) as (H1 & _ & _ & H2).
  split_and!; [exact H | exact H1 | exact H2].
Defined.

Lemma GetUniqueName_is_free_witness :
  GetUniqueName 3 fs0 "/in/dune.epub" = Some "/in/dune (1).epub" ∧
  os_Stat fs0 "/in/dune (1).epub" = false.
Proof.
  assert (H : GetUniqueName 3 fs0 "/in/dune.epub" = Some "/in/dune (1).epub")
    by (vm_compute; reflexivity).
  split; [exact H|].
  exact (proj1 (proj1 GetUniqueName_is_free 3%nat fs0 "/in/dune.epub" _ H)).
Defined.

Lemma parse_title_series_witness :
  "Dune  Messiah" ≠ "" ∧
  commands.parse (list (list Z)) UpdateBook_taken MergeBooks_logged edited []
    "title Dune  Messiah"
  = Some (commands.mkBook 3 "Dune  Messiah" ["Frank Herbert"] "Dune", [], []).
Proof.
  assert (H : "Dune  Messiah" ≠ "") by discriminate.
  split; [exact H|].
  exact (proj1 (proj1 (parse_title_series (list (list Z)) UpdateBook_taken
                         MergeBooks_logged edited [] "Dune  Messiah") H)).
Defined.

Lemma parse_authors_show_witness :
  "Frank Herbert & Brian Herbert" ≠ "" ∧
  commands.parse (list (list Z)) UpdateBook_taken MergeBooks_logged edited []
    "authors Frank Herbert & Brian Herbert"
  = Some (commands.mkBook 3 "Dune" ["Frank Herbert"; "Brian Herbert"] "Dune",
          [], []).
Proof.
  assert (H : "Frank Herbert & Brian Herbert" ≠ "") by discriminate.
  split; [exact H|].
  exact (proj1 (parse_authors_show (list (list Z)) UpdateBook_taken
                  MergeBooks_logged edited [] "Frank Herbert & Brian Herbert" H)).
Defined.

Lemma parse_unknown_command_witness :
  strings_Contains "quit" " " = false ∧
  ("quit" ∉ ["a"; "authors"; "show"; "title"; "series"; "save"]) ∧
  commands.parse (list (list Z)) UpdateBook_taken MergeBooks_logged edited []
    "quit now"
  = Some (edited, [], [(commands.Stdout, "Unknown command." +:+ LF)]).
Proof.
  assert (H1 : strings_Contains "quit" " " = false) by reflexivity.
  assert (H2 : "quit" ∉ ["a"; "authors"; "show"; "title"; "series"; "save"]).
  { intros H. repeat (apply elem_of_cons in H as [H|H]; [discriminate H|]).
    by apply elem_of_nil in H. }
  split; [exact H1|]. split; [exact H2|].
  exact (proj2 (parse_unknown_command (list (list Z)) UpdateBook_taken
                  MergeBooks_logged edited [] "quit now")
           "quit" (or_intror (ex_intro _ "now" eq_refl)) H1 H2).
Defined.

Example edit_session_sample :
  commands.edit_loop (list (list Z)) UpdateBook_taken MergeBooks_logged
    ["title Dune Messiah"; "a Frank Herbert"; "save"; "save -m"; ""] edited []
  = Some (commands.mkBook 3 "Dune Messiah" ["Frank Herbert"] "Dune",
          [[1; 3]%Z],
          [(commands.Stdout,
            "A duplicate book already exists, id: 1. To merge, type save -m."
            +:+ LF);
           (commands.Stdout, "Merged into 1" +:+ LF);
           (commands.Stdout, "Unknown command." +:+ LF)]).
Proof. by vm_compute. Qed.

(** * Partial answers and silent failures *)

Section Partial.

Lemma scan_rows_prefix env i rows results :
  match scan_rows env i rows results with
  | inl rs => rs
  | inr (rs, _) => rs
  end `prefix_of` results ++ map scan_book rows.
Proof.
  revert i results. induction rows as [|r rows IH]; intros i results;
    cbn [scan_rows map].
  - by rewrite app_nil_r.
  - assert (Hstep : match scan_rows env (S i) rows (results ++ [scan_book r]) with
                    | inl rs => rs
                    | inr (rs, _) => rs
                    end `prefix_of` results ++ scan_book r :: map scan_book rows).
    { specialize (IH (S i) (results ++ [scan_book r])).
      by rewrite <- app_assoc in IH. }
    destruct (fails env CByIdScan); [|done].
    destruct (upto env CByIdScan <=? i)%nat; [|done].
    by apply prefix_app_r.
Qed.

(** X20. Whatever fails in [GetBooksById], the books it returns are a
    beginning of the full answer, the scan of the selected rows in the
    order of the table: it may be cut short, it is never reordered and
    holds nothing else.  When it is the iteration of the rows that fails,
    the answer is cut after the rows read so far and the error is nil all
    the same. *)
Theorem GetBooksById_partial env w ids :
  (GetBooksById env w ids).1
    `prefix_of` map scan_book (select_by_ids (w_db w) ids) ∧
  (ids ≠ [] → fails env (CByIdQuery (length ids)) = None →
   fails env CByIdScan = None →
   is_Some (fails env CByIdRows) →
   GetBooksById env w ids
   = (map scan_book (take (upto env CByIdRows) (select_by_ids (w_db w) ids)),
      None)).
Proof.
  split.
  - unfold GetBooksById.
    destruct (length ids =? 0)%nat; [apply prefix_nil|].
    destruct (db_Query env (CByIdQuery _) _ _); [apply prefix_nil|].
    unfold iterate. destruct (fails env CByIdRows) as [e|].
    + pose proof (scan_rows_prefix env 0
        (take (upto env CByIdRows) (select_by_ids (w_db w) ids)) []) as Hp.
      cbn [app] in Hp.
      assert (Hq : map scan_book
                     (take (upto env CByIdRows) (select_by_ids (w_db w) ids))
                   `prefix_of` map scan_book (select_by_ids (w_db w) ids)).
      { rewrite <- (take_drop (upto env CByIdRows)
                      (select_by_ids (w_db w) ids)) at 2.
        rewrite map_app. by apply prefix_app_r. }
      destruct (scan_rows env 0 _ []) as [rs|[rs e']]; cbn [fst];
        by etrans.
    + pose proof (scan_rows_prefix env 0 (select_by_ids (w_db w) ids) []) as Hp.
      by destruct (scan_rows env 0 _ []) as [rs|[rs e']].
  - intros Hne Hq Hs [e Hr]. destruct ids as [|i ids]; [done|].
    by apply GetBooksById_rows_error with (e := e).
Qed.

(** X21. A nil from [ImportBook] does not say that the book is in the
    catalog.  When the iteration of the duplicate query fails before its
    first row, [ImportBook] returns nil and has done nothing at all.  When
    everything up to the placement of the file goes well and the commit is
    then refused, [ImportBook] returns nil all the same: the world is the
    one that the placement left, with the file in its place, and the
    catalog is the one before the call, without a row for the book. *)
Theorem ImportBook_nil_without_row lib env w book move :
  (fails env CBegin = None → fails env CDupQuery = None →
   is_Some (fails env CDupRows) → upto env CDupRows = O →
   ImportBook lib env w book move = (w, None)) ∧
  (Forall (fun c => fails env c = None) catalog_calls →
   is_Some (fails env CCommit) →
   (∀ r, r ∈ table_books (w_db w) → books.hash r ≠ Hash book) →
   (∀ r, r ∈ table_books_fts (w_db w) →
         books_fts.docid r ≠ next_rowid (map books.id (table_books (w_db w)))) →
   ∀ w1,
     moveOrCopyFile lib env w
       (set_Id (next_rowid (map books.id (table_books (w_db w)))) book) move
       = (w1, None) →
     ImportBook lib env w book move = (w1, None) ∧ w_db w1 = w_db w).
Proof.
  split.
  - intros Hb Hq [e Hr] Hu. by apply ImportBook_rows_error with (e := e).
  - intros Hcalls [e Hc] Hhash Hdoc w1 Hp. split.
    + unfold catalog_calls in Hcalls.
      repeat apply Forall_cons in Hcalls as [? Hcalls].
      unfold ImportBook, iterate.
      repeat match goal with
             | H : fails env ?c = None |- _ => rewrite H; clear H
             end.
      rewrite select_id_by_hash_none by done.
      rewrite insert_into_books_ok by done.
      rewrite insert_into_books_fts_ok by done.
      by rewrite Hp, Hc.
    + pose proof (moveOrCopyFile_db env lib w
        (set_Id (next_rowid (map books.id (table_books (w_db w)))) book) move)
        as Hdb.
      by rewrite Hp in Hdb.
Qed.

(** X22. In a catalog in good order, with a full-text engine that yields
    docids of the index only, and the two queries served, [Search] resolves
    every hit: the ids of the books it returns are exactly the ids that the
    index pass yielded. *)
Theorem Search_resolves_every_hit env w terms :
  catalog_ok (w_db w) →
  (∀ i, i ∈ fts_match env terms (table_books_fts (w_db w)) →
        i ∈ map books_fts.docid (table_books_fts (w_db w))) →
  fails env CFtsQuery = None → fails env CFtsRows = None →
  fails env
    (CByIdQuery (length (fts_match env terms (table_books_fts (w_db w)))))
    = None →
  fails env CByIdScan = None →
  fails env CByIdRows = None →
  ∀ i, i ∈ map Id (Search env w terms).1 ↔
       i ∈ fts_match env terms (table_books_fts (w_db w)).
Proof.
  intros (_ & _ & Hfts) Hsound Hfq Hfr Hq Hs Hr i.
  unfold Search. rewrite Hfq, iterate_ok, GetBooksById_ok by done.
  cbn [fst]. rewrite map_Id_scan_book. unfold select_docid_match. split.
  - intros (r & -> & [_ Hin]%elem_of_select_by_ids)%list_elem_of_fmap. done.
  - intros Hi. specialize (Hsound i Hi). rewrite Hfts in Hsound.
    apply list_elem_of_fmap in Hsound as (fr & -> & Hfr').
    apply list_elem_of_fmap in Hfr' as (r & -> & Hr').
    apply list_elem_of_fmap. exists r. split; [done|].
    by apply elem_of_select_by_ids.
Qed.

End Partial.

Lemma GetBooksById_partial_witness :
  [1; 2]%Z ≠ [] ∧
  fails (mkEnv (fun c => match c with
                         | CByIdRows => Some (ErrorString "disk I/O error")
                         | _ => None
                         end)
               (fun _ => 1%nat) 2000 every_row (fun _ _ => Exited 0))
        (CByIdQuery 2) = None ∧
  GetBooksById
    (mkEnv (fun c => match c with
                     | CByIdRows => Some (ErrorString "disk I/O error")
                     | _ => None
                     end)
           (fun _ => 1%nat) 2000 every_row (fun _ _ => Exited 0))
    w2 [1; 2]%Z
  = (map scan_book (take 1 (select_by_ids (w_db w2) [1; 2]%Z)), None).
Proof.
  assert (H : [1; 2]%Z ≠ @nil Z) by discriminate.
  split; [exact H|]. split; [reflexivity|].
  exact (proj2 (GetBooksById_partial
                  (mkEnv (fun c => match c with
                                   | CByIdRows => Some (ErrorString "disk I/O error")
                                   | _ => None
                                   end)
                         (fun _ => 1%nat) 2000 every_row (fun _ _ => Exited 0))
                  w2 [1; 2]%Z)
           H eq_refl eq_refl (ex_intro _ _ eq_refl)).
Defined.

Lemma ImportBook_nil_without_row_witness :
  is_Some (fails env_dup_rows_fail CDupRows) ∧
  ImportBook lib0 env_dup_rows_fail w1 emma false = (w1, None) ∧
  is_Some (fails env_commit_fails CCommit) ∧
  (ImportBook lib0 env_commit_fails w1 emma false).2 = None ∧
  table_books (w_db (ImportBook lib0 env_commit_fails w1 emma false).1)
    = [row_dune] ∧
  content <$> files (w_fs (ImportBook lib0 env_commit_fails w1 emma false).1)
                !! "/srv/books/Austen/Emma.epub" = Some "emma".
Proof.
  assert (H1 : is_Some (fails env_dup_rows_fail CDupRows)) by by eexists.
  assert (H2 : is_Some (fails env_commit_fails CCommit)) by by eexists.
  assert (Hcalls : Forall (fun c => fails env_commit_fails c = None)
                     catalog_calls) by (by repeat constructor).
  assert (Hhash : ∀ r, r ∈ table_books (w_db w1) → books.hash r ≠ Hash emma).
  { intros r Hr. vm_compute in Hr. apply list_elem_of_singleton in Hr as ->.
    discriminate. }
  assert (Hdoc : ∀ r, r ∈ table_books_fts (w_db w1) →
            books_fts.docid r
            ≠ next_rowid (map books.id (table_books (w_db w1)))).
  { intros r Hr. vm_compute in Hr. apply list_elem_of_singleton in Hr as ->.
    discriminate. }
  destruct (moveOrCopyFile lib0 env_commit_fails w1
              (set_Id (next_rowid (map books.id (table_books (w_db w1)))) emma)
              false) as [wp rp] eqn:Hp.
  assert (Hrp : rp = None).
  { apply (f_equal snd) in Hp. vm_compute in Hp. by subst rp. }
  subst rp.
  assert (Hfile : content <$> files (w_fs wp) !! "/srv/books/Austen/Emma.epub"
                  = Some "emma").
  { apply (f_equal fst) in Hp. cbn [fst] in Hp. subst wp. by vm_compute. }
  assert (Hdb : table_books (w_db w1) = [row_dune]) by (by vm_compute).
  destruct (proj2 (ImportBook_nil_without_row lib0 env_commit_fails w1 emma
                     false) Hcalls H2 Hhash Hdoc wp Hp) as [Himp Hsame].
  split; [exact H1|]. split.
  { exact (proj1 (ImportBook_nil_without_row lib0 env_dup_rows_fail w1 emma
                    false) eq_refl eq_refl H1 eq_refl). }
  split; [exact H2|]. rewrite Himp. cbn [fst snd].
  split; [reflexivity|]. split; [by rewrite Hsame|exact Hfile].
Defined.

Lemma Search_resolves_every_hit_witness :
  catalog_ok (w_db w1) ∧
  (∀ i, i ∈ map Id (Search env_ok w1 "dune").1 ↔
        i ∈ fts_match env_ok "dune" (table_books_fts (w_db w1))).
Proof.
  split; [exact catalog_ok_w1|].
  apply (Search_resolves_every_hit env_ok w1 "dune" catalog_ok_w1);
    [|reflexivity..].
  intros i Hi. exact Hi.
Defined.

(** * The extension and the directory of a unique name *)

Section NameParts.

Lemma Contains_byte_cons x c s :
  strings_Contains (String c s) (String x "")
  = bool_decide (x = c) || strings_Contains s (String x "").
Proof.
  change (strings_Contains (String c s) (String x ""))
    with (String.prefix (String x "") (String c s)
          || strings_Contains s (String x "")).
  by rewrite prefix_byte.
Qed.

Lemma Contains_byte_app x (a b : string) :
  strings_Contains (a +:+ b) (String x "")
  = strings_Contains a (String x "") || strings_Contains b (String x "").
Proof.
  induction a as [|c a IH].
  - rewrite append_nil_l. by destruct b.
  - rewrite append_cons, !Contains_byte_cons, IH. by rewrite orb_assoc.
Qed.

Lemma Contains_byte_get x t n c :
  strings_Contains t (String x "") = false →
  String.get n t = Some c → c ≠ x.
Proof.
  revert n. induction t as [|c' t IH]; intros n; [by destruct n|].
  rewrite Contains_byte_cons. intros [Hc Ht]%orb_false_iff.
  apply bool_decide_eq_false in Hc.
  destruct n as [|n]; cbn [String.get]; [intros [= <-]; congruence|].
  by apply IH.
Qed.

Lemma plain_cons c s :
  plain (String c s)
  = negb (bool_decide ("."%char = c)) && negb (bool_decide ("/"%char = c))
    && plain s.
Proof.
  unfold plain. rewrite !Contains_byte_cons, !negb_orb.
  by repeat (destruct (negb _)).
Qed.

Lemma plain_app (a b : string) : plain (a +:+ b) = plain a && plain b.
Proof.
  unfold plain. rewrite !Contains_byte_app, !negb_orb.
  by repeat (destruct (negb _)).
Qed.

Lemma plain_get t n c :
  plain t = true → String.get n t = Some c → c ≠ "."%char ∧ c ≠ "/"%char.
Proof.
  unfold plain. intros [H1 H2]%andb_true_iff.
  apply negb_true_iff in H1, H2. intros Hget.
  split; by eapply Contains_byte_get.
Qed.

Lemma get_lt_Some (s : string) i :
  (i < String.length s)%nat → ∃ c, String.get i s = Some c.
Proof.
  revert i. induction s as [|c s IH]; intros i Hi; cbn in Hi; [lia|].
  destruct i as [|i]; [by exists c|]. apply IH. lia.
Qed.

Lemma get_app_l (a b : string) i :
  (i < String.length a)%nat → String.get i (a +:+ b) = String.get i a.
Proof. intros Hi. symmetry. by apply String.append_correct1. Qed.

Lemma get_app_r (a b : string) n :
  String.get (String.length a + n) (a +:+ b) = String.get n b.
Proof. rewrite Nat.add_comm. symmetry. apply String.append_correct2. Qed.

Lemma substring_app_l (a b : string) i :
  (i ≤ String.length a)%nat →
  String.substring i (String.length (a +:+ b) - i) (a +:+ b)
  = String.substring i (String.length a - i) a +:+ b.
Proof.
  revert i. induction a as [|c a IH]; intros i Hi.
  - cbn in Hi. assert (i = 0%nat) as -> by lia.
    rewrite append_nil_l, Nat.sub_0_r, substring_all. by destruct b.
  - rewrite append_cons. destruct i as [|i].
    + rewrite !Nat.sub_0_r.
      change (String c (a +:+ b)) with (String c a +:+ b).
      by rewrite !substring_all.
    + cbn [String.length String.substring Nat.sub]. apply IH.
      cbn in Hi. lia.
Qed.

Lemma substring_get_cons (s : string) i c :
  String.get i s = Some c →
  String.substring i (String.length s - i) s
  = String c (String.substring (S i) (String.length s - S i) s).
Proof.
  revert i. induction s as [|c' s IH]; intros i; [by destruct i|].
  destruct i as [|i]; cbn [String.get].
  - intros [= ->]. cbn [String.length String.substring Nat.sub].
    by rewrite Nat.sub_0_r.
  - intros Hget. cbn [String.length String.substring Nat.sub].
    by apply IH.
Qed.

(** The scan for the extension passes over a plain tail. *)
Lemma Ext_loop_plain_tail (a t : string) n :
  plain t = true → (n ≤ String.length t)%nat →
  Ext_loop (a +:+ t) (String.length a + n) = Ext_loop (a +:+ t) (String.length a).
Proof.
  intros Ht. induction n as [|n IH]; intros Hn; [by rewrite Nat.add_0_r|].
  rewrite Nat.add_succ_r. cbn [Ext_loop]. rewrite get_app_r.
  destruct (get_lt_Some t n ltac:(lia)) as [c Hc]. rewrite Hc.
  destruct (plain_get t n c Ht Hc) as [Hdot Hslash].
  apply Ascii.eqb_neq in Hdot, Hslash. rewrite Hdot, Hslash. apply IH. lia.
Qed.

(** Within the head of a string the scan goes as in the head alone; what
    it finds there has the tail behind it. *)
Lemma Ext_loop_head (a b : string) n :
  (n ≤ String.length a)%nat →
  Ext_loop (a +:+ b) n
  = match Ext_loop a n with
    | EmptyString => ""
    | r => r +:+ b
    end.
Proof.
  induction n as [|n IH]; intros Hn; [done|].
  cbn [Ext_loop]. rewrite get_app_l by lia.
  destruct (get_lt_Some a n ltac:(lia)) as [c Hc]. rewrite Hc.
  destruct (Ascii.eqb c "/"); [done|].
  destruct (Ascii.eqb c "."); [|apply IH; lia].
  rewrite substring_app_l by lia.
  rewrite (substring_get_cons a n c Hc). done.
Qed.

Lemma Ext_after_dot (x e : string) :
  plain e = true → path_Ext (x +:+ String "." e) = String "." e.
Proof.
  intros He. unfold path_Ext.
  change (x +:+ String "." e) with (x +:+ (String "." "" +:+ e)).
  rewrite <- append_assoc, length_append.
  rewrite Ext_loop_plain_tail, Ext_loop_head by done.
  rewrite length_append. cbn [String.length]. rewrite Nat.add_1_r.
  cbn [Ext_loop].
  replace (String.get (String.length x) (x +:+ "."))
    with (String.get 0 ".") by (rewrite <- (get_app_r x "." 0); f_equal; lia).
  cbn [String.get Ascii.eqb Bool.eqb].
  pose proof (substring_after x ".") as Hs.
  rewrite length_append in Hs. cbn [String.length] in Hs.
  rewrite length_append. cbn [String.length]. by rewrite Hs.
Qed.

Lemma Ext_plain_tail (a t : string) :
  path_Ext a = "" → plain t = true → path_Ext (a +:+ t) = "".
Proof.
  unfold path_Ext. intros Ha Ht.
  rewrite length_append, Ext_loop_plain_tail, Ext_loop_head by done.
  by rewrite Ha.
Qed.

(** An extension is empty, or a dot and a plain rest. *)
Lemma Ext_loop_form f n :
  (n ≤ String.length f)%nat →
  plain (String.substring n (String.length f - n) f) = true →
  Ext_loop f n = "" ∨ ∃ e, Ext_loop f n = String "." e ∧ plain e = true.
Proof.
  induction n as [|n IH]; intros Hn Hp; [by left|].
  cbn [Ext_loop].
  destruct (get_lt_Some f n ltac:(lia)) as [c Hc]. rewrite Hc.
  destruct (Ascii.eqb_spec c "/"); [by left|].
  destruct (Ascii.eqb_spec c ".") as [->|Hdot].
  - right. rewrite (substring_get_cons f n "." Hc). by eexists.
  - apply IH; [lia|]. rewrite (substring_get_cons f n c Hc), plain_cons, Hp.
    rewrite !bool_decide_eq_false_2 by congruence. done.
Qed.

Lemma Ext_form f : path_Ext f = "" ∨ ∃ e, path_Ext f = String "." e ∧ plain e = true.
Proof.
  apply Ext_loop_form; [done|]. by rewrite Nat.sub_diag, substring_none.
Qed.

End NameParts.

Section UniqueNameParts.

Lemma plain_pretty_N_go x s : plain s = true → plain (pretty_N_go x s) = true.
Proof.
  revert s. induction (N.lt_wf_0 x) as [x _ IH]; intros s Hs.
  assert (x = 0 ∨ 0 < x)%N as [->|Hx] by lia.
  - by rewrite pretty_N_go_0.
  - rewrite pretty_N_go_step by done. apply IH; [by apply N.div_lt|].
    rewrite plain_cons, Hs. unfold pretty_N_char. by repeat case_match.
Qed.

(** The digits of a number, and its sign, are plain. *)
Lemma plain_Itoa (i : Z) : plain (strconv_Itoa i) = true.
Proof.
  assert (Hpos : ∀ p : positive, plain (pretty p) = true).
  { intros p. unfold pretty, pretty_positive, pretty, pretty_N.
    case_decide; [done|]. by apply plain_pretty_N_go. }
  unfold strconv_Itoa, pretty, pretty_Z. destruct i as [|p|p]; [done|apply Hpos|].
  rewrite plain_app. by rewrite (Hpos p).
Qed.

Lemma plain_no_slash t : plain t = true → strings_Contains t "/" = false.
Proof. unfold plain. intros [_ H]%andb_true_iff. by apply negb_true_iff. Qed.

(** What [GetUniqueName] puts in: a number in brackets. *)
Lemma plain_number (i : Z) : plain (" (" +:+ strconv_Itoa i +:+ ")") = true.
Proof. by rewrite !plain_app, plain_Itoa. Qed.

Lemma lastSlash_loop_le s n : (lastSlash_loop s n ≤ n)%nat.
Proof.
  induction n as [|n IH]; [done|]. cbn [lastSlash_loop].
  destruct (String.get n s) as [c|]; [destruct (Ascii.eqb c "/")|]; lia.
Qed.

Lemma lastSlash_loop_tail (a t : string) n :
  strings_Contains t "/" = false → (n ≤ String.length t)%nat →
  lastSlash_loop (a +:+ t) (String.length a + n)
  = lastSlash_loop (a +:+ t) (String.length a).
Proof.
  intros Ht. induction n as [|n IH]; intros Hn; [by rewrite Nat.add_0_r|].
  rewrite Nat.add_succ_r. cbn [lastSlash_loop]. rewrite get_app_r.
  destruct (get_lt_Some t n ltac:(lia)) as [c Hc]. rewrite Hc.
  pose proof (Contains_byte_get "/" t n c Ht Hc) as Hslash.
  apply Ascii.eqb_neq in Hslash. rewrite Hslash. apply IH. lia.
Qed.

Lemma lastSlash_loop_head (a b : string) n :
  (n ≤ String.length a)%nat →
  lastSlash_loop (a +:+ b) n = lastSlash_loop a n.
Proof.
  induction n as [|n IH]; intros Hn; [done|].
  cbn [lastSlash_loop]. rewrite get_app_l by lia.
  destruct (String.get n a) as [c|]; [destruct (Ascii.eqb c "/")|];
    [done|apply IH; lia..].
Qed.

Lemma substring_0_app (a b : string) k :
  (k ≤ String.length a)%nat →
  String.substring 0 k (a +:+ b) = String.substring 0 k a.
Proof.
  revert k. induction a as [|c a IH]; intros k Hk.
  - cbn in Hk. assert (k = 0%nat) as -> by lia.
    rewrite append_nil_l. by destruct b.
  - rewrite append_cons. destruct k as [|k]; [done|].
    cbn [String.substring]. f_equal. apply IH. cbn in Hk. lia.
Qed.

(** A tail without a slash does not change the directory. *)
Lemma path_Dir_tail (a t : string) :
  strings_Contains t "/" = false → path_Dir (a +:+ t) = path_Dir a.
Proof.
  intros Ht. unfold path_Dir, path_Split. cbn [fst]. f_equal.
  rewrite length_append, lastSlash_loop_tail, lastSlash_loop_head by done.
  apply substring_0_app, lastSlash_loop_le.
Qed.

Lemma numbered_name_parts f (i : Z) :
  path_Ext (numbered_name f (path_Ext f) i) = path_Ext f ∧
  path_Dir (numbered_name f (path_Ext f) i) = path_Dir f.
Proof.
  pose proof (TrimSuffix_Ext f) as Hf. unfold numbered_name.
  set (stem := strings_TrimSuffix f (path_Ext f)) in *. clearbody stem.
  pose proof (plain_number i) as Hnum.
  destruct (Ext_form f) as [Hext|(e & Hext & He)].
  - rewrite Hext in Hf |- *.
    assert (Hstem : path_Ext stem = "").
    { rewrite <- Hext. f_equal.
      rewrite <- Hf. clear. induction stem as [|c s IH]; [done|].
      rewrite append_cons. by rewrite <- IH. }
    assert (Hdir : path_Dir stem = path_Dir f).
    { f_equal. rewrite <- Hf. clear. induction stem as [|c s IH]; [done|].
      rewrite append_cons. by rewrite <- IH. }
    split.
    + apply Ext_plain_tail; [done|]. rewrite !plain_app in Hnum |- *.
      by rewrite plain_Itoa in *.
    + rewrite <- Hdir. apply path_Dir_tail, plain_no_slash.
      rewrite !plain_app in Hnum |- *. by rewrite plain_Itoa in *.
  - rewrite Hext in Hf |- *. split.
    + replace (stem +:+ " (" +:+ strconv_Itoa i +:+ ")" +:+ String "." e)
        with ((stem +:+ " (" +:+ strconv_Itoa i +:+ ")") +:+ String "." e)
        by (by rewrite !append_assoc).
      by apply Ext_after_dot.
    + rewrite <- Hf.
      rewrite !path_Dir_tail; [done|..].
      * rewrite Contains_byte_cons, (plain_no_slash e He).
        by rewrite bool_decide_eq_false_2.
      * rewrite !Contains_byte_app, !Contains_byte_cons.
        rewrite (plain_no_slash e He), (plain_no_slash _ (plain_Itoa i)).
        by vm_compute.
Qed.

(** X23. The name that [GetUniqueName] returns has the extension of [f]
    and lies in the directory of [f]: the number goes into the last element
    of the path, before its last dot. *)
Theorem GetUniqueName_keeps_extension fuel fs f n :
  GetUniqueName fuel fs f = Some n →
  path_Ext n = path_Ext f ∧ path_Dir n = path_Dir f.
Proof.
  intros [_ [->|[j ->]]]%GetUniqueName_loop_free; [done|].
  apply numbered_name_parts.
Qed.

End UniqueNameParts.

Lemma GetUniqueName_keeps_extension_witness :
  GetUniqueName 3 fs0 "/in/dune.epub" = Some "/in/dune (1).epub" ∧
  path_Ext "/in/dune (1).epub" = path_Ext "/in/dune.epub" ∧
  path_Dir "/in/dune (1).epub" = path_Dir "/in/dune.epub".
Proof.
  assert (H : GetUniqueName 3 fs0 "/in/dune.epub" = Some "/in/dune (1).epub")
    by (vm_compute; reflexivity).
  split; [exact H|].
  exact (GetUniqueName_keeps_extension 3 fs0 "/in/dune.epub" _ H).
Defined.

(** * The cache file of a conversion *)

Section CleanPaths.

Lemma path_Clean_parts p :
  path_Clean p
  = clean_render (String.prefix "/" p)
      (fold_left (clean_elem (String.prefix "/" p)) (clean_elems p) []).
Proof. reflexivity. Qed.

Lemma Split_slash_pieces s :
  Forall (fun e => strings_Contains e "/" = false) (strings_Split s "/").
Proof.
  unfold strings_Split. induction s as [|c s IH]; [by repeat constructor|].
  destruct (decide (c = "/"%char)) as [->|Hc].
  - rewrite split_scan_cons_slash. by constructor.
  - rewrite split_scan_cons_other by done.
    pose proof (split_scan_length s) as Hlen.
    destruct (split_scan "/" 0 s) as [|piece pieces]; [cbn in Hlen; lia|].
    apply Forall_cons in IH as [Hp Hps]. constructor; [|done].
    rewrite Contains_slash_cons, Hp. by rewrite bool_decide_eq_false_2.
Qed.

Lemma clean_elems_elements p :
  Forall (fun e => path_element e = true) (clean_elems p).
Proof.
  unfold clean_elems. apply Forall_forall. intros e He.
  apply list_elem_of_In, filter_In in He as [He Hkeep].
  apply list_elem_of_In in He.
  pose proof (Split_slash_pieces p) as Hs. rewrite Forall_forall in Hs.
  unfold path_element. by rewrite Hkeep, (Hs e He).
Qed.

Lemma rev_replicate {A} (x : A) n : rev (replicate n x) = replicate n x.
Proof.
  induction n as [|n IH]; [done|]. cbn [replicate rev]. rewrite IH.
  clear IH. induction n as [|n IH]; [done|]. cbn. by rewrite IH.
Qed.

(** What the elements of a path leave on a stack of that form is a stack of
    that form, made of elements of the two. *)
Lemma fold_clean_shape rooted (L : list string) tops k :
  ".." ∉ tops → (rooted = true → k = 0%nat) →
  ∃ tops' k',
    fold_left (clean_elem rooted) L (tops ++ replicate k "..")
      = tops' ++ replicate k' ".." ∧
    (".." ∉ tops') ∧ (rooted = true → k' = 0%nat) ∧
    (∀ e, e ∈ tops' → e ∈ tops ∨ e ∈ L).
Proof.
  revert tops k. induction L as [|e L IH]; intros tops k Htops Hk.
  - exists tops, k. split_and!; [done..|]. by left.
  - cbn [fold_left]. unfold clean_elem at 2.
    destruct (String.eqb_spec e "..") as [->|He].
    + destruct tops as [|t tops].
      * cbn [app]. destruct k as [|k].
        -- cbn [replicate]. destruct rooted.
           ++ destruct (IH [] 0%nat) as (tops' & k' & Heq & H1 & H2 & H3);
                [done..|].
              exists tops', k'. split_and!; [done..|].
              intros e [?|?]%H3; [by left|right; by right].
           ++ destruct (IH [] 1%nat) as (tops' & k' & Heq & H1 & H2 & H3);
                [done..|].
              exists tops', k'. split_and!; [done..|].
              intros e [?|?]%H3; [by left|right; by right].
        -- cbn [replicate]. rewrite String.eqb_refl.
           destruct (IH [] (S (S k))) as (tops' & k' & Heq & H1 & H2 & H3);
             [done|intros Hr; specialize (Hk Hr); lia|].
           exists tops', k'. split_and!; [done..|].
           intros e [?|?]%H3; [by left|right; by right].
      * cbn [app]. apply not_elem_of_cons in Htops as [Ht Htops].
        destruct (String.eqb_spec t "..") as [->|_]; [done|].
        destruct (IH tops k) as (tops' & k' & Heq & H1 & H2 & H3); [done..|].
        exists tops', k'. split_and!; [done..|].
        intros e [?|?]%H3; [left; by right|right; by right].
    + destruct (IH (e :: tops) k) as (tops' & k' & Heq & H1 & H2 & H3);
        [by apply not_elem_of_cons|done|].
      exists tops', k'. split_and!; [done..|].
      intros e' [[->|?]%elem_of_cons|?]%H3;
        [right; left|by left|right; by right].
Qed.

Lemma clean_stack_fold rooted L :
  Forall (fun e => path_element e = true) L →
  clean_stack rooted (fold_left (clean_elem rooted) L []).
Proof.
  intros HL.
  destruct (fold_clean_shape rooted L [] 0%nat) as (tops & k & Heq & H1 & H2 & H3);
    [by apply not_elem_of_nil|done|].
  cbn [app replicate] in Heq. exists tops, k. split_and!; [done..|].
  rewrite Heq. apply Forall_app. split.
  - apply Forall_forall. intros e [He|He]%H3; [by apply elem_of_nil in He|].
    rewrite Forall_forall in HL. by apply HL.
  - apply Forall_forall. intros e ->%elem_of_replicate_inv. done.
Qed.

Lemma clean_stack_push rooted out e :
  clean_stack rooted out → path_element e = true → e ≠ ".." →
  clean_stack rooted (e :: out).
Proof.
  intros (tops & k & -> & H1 & H2 & H3) He Hne.
  exists (e :: tops), k. split_and!; [done| |done|by constructor].
  by apply not_elem_of_cons.
Qed.

(** Such a stack is what the elements of its own path leave behind. *)
Lemma fold_clean_again rooted out :
  clean_stack rooted out →
  fold_left (clean_elem rooted) (rev out) [] = out.
Proof.
  intros (tops & k & -> & Htops & Hk & _).
  rewrite rev_app_distr, fold_left_app, rev_replicate.
  assert (Hdots : ∀ j i, (rooted = true → j = 0%nat) →
            fold_left (clean_elem rooted) (replicate j "..") (replicate i "..")
            = replicate (j + i) "..").
  { clear. intros j. induction j as [|j IH]; intros i Hj; [done|].
    cbn [replicate fold_left].
    destruct rooted; [specialize (Hj eq_refl); lia|].
    destruct i as [|i].
    - change (clean_elem false (replicate 0 "..") "..")
        with (replicate 1 "..").
      rewrite (IH 1%nat) by done. f_equal. lia.
    - change (clean_elem false (replicate (S i) "..") "..")
        with (replicate (S (S i)) "..").
      rewrite (IH (S (S i))) by done. f_equal. lia. }
  pose proof (Hdots k 0%nat Hk) as Hd. cbn [replicate] in Hd.
  rewrite Hd, Nat.add_0_r. clear Hd Hdots.
  assert (Hpush : ∀ (L acc : list string), ".." ∉ L →
            fold_left (clean_elem rooted) L acc = rev L ++ acc).
  { clear. intros L. induction L as [|e L IH]; intros acc HL; [done|].
    apply not_elem_of_cons in HL as [He HL].
    cbn [fold_left rev]. rewrite IH by done. unfold clean_elem.
    destruct (String.eqb_spec e ".."); [done|]. by rewrite <- app_assoc. }
  rewrite Hpush, rev_involutive; [done|].
  intros Hin. apply Htops. by apply list_elem_of_In, in_rev, list_elem_of_In.
Qed.

Lemma Join_nonempty e L sep : e ≠ "" → strings_Join (e :: L) sep ≠ "".
Proof. destruct e; [done|]. intros _. by rewrite Join_cons_byte. Qed.

Lemma Join_snoc L x sep :
  L ≠ [] → strings_Join (L ++ [x]) sep = strings_Join L sep +:+ sep +:+ x.
Proof.
  induction L as [|a L IH]; [done|]. intros _.
  destruct L as [|b L]; [done|].
  change (strings_Join ((a :: b :: L) ++ [x]) sep)
    with (a +:+ sep +:+ strings_Join ((b :: L) ++ [x]) sep).
  rewrite IH by done.
  change (strings_Join (a :: b :: L) sep)
    with (a +:+ sep +:+ strings_Join (b :: L) sep).
  by rewrite !append_assoc.
Qed.

Lemma path_element_parts e :
  path_element e = true →
  e ≠ "" ∧ e ≠ "." ∧ strings_Contains e "/" = false.
Proof.
  unfold path_element. intros [[H1 H2]%andb_true_iff H3]%andb_true_iff.
  apply negb_true_iff in H1, H2, H3.
  apply String.eqb_neq in H1, H2. done.
Qed.

(** A path written from such a stack reads back as the stack. *)
Lemma clean_render_reads rooted out :
  clean_stack rooted out →
  clean_elems (clean_render rooted out) = rev out ∧
  String.prefix "/" (clean_render rooted out) = rooted.
Proof.
  intros (tops & k & Hout & _ & _ & Hall).
  apply Forall_rev in Hall. clear Hout tops k.
  unfold clean_render.
  destruct (rev out) as [|e L] eqn:HL.
  - by destruct rooted.
  - assert (Hkeep : List.filter
              (fun e => negb (String.eqb e "") && negb (String.eqb e "."))
              (e :: L) = e :: L).
    { apply forallb_filter_id, forallb_forall. intros x Hx.
      apply list_elem_of_In in Hx. rewrite Forall_forall in Hall.
      specialize (Hall x Hx). unfold path_element in Hall.
      by apply andb_true_iff in Hall as [? _]. }
    assert (Hsplit : strings_Split (strings_Join (e :: L) "/") "/" = e :: L).
    { apply Split_Join_nonempty. eapply Forall_impl; [exact Hall|].
      intros x Hx. by apply path_element_parts in Hx as (_ & _ & ?). }
    apply Forall_cons in Hall as [He _].
    apply path_element_parts in He as (He & _ & Hslash).
    pose proof (Join_nonempty e L "/" He) as Hne.
    destruct rooted.
    + rewrite append_cons, append_nil_l. cbn [String.eqb]. split.
      * unfold clean_elems, strings_Split.
        rewrite split_scan_cons_slash.
        change (split_scan "/" 0 (strings_Join (e :: L) "/"))
          with (strings_Split (strings_Join (e :: L) "/") "/").
        rewrite Hsplit. cbn [List.filter String.eqb negb andb].
        exact Hkeep.
      * by rewrite prefix_slash, bool_decide_eq_true_2.
    + rewrite append_nil_l.
      destruct (String.eqb_spec (strings_Join (e :: L) "/") ""); [done|].
      split.
      * unfold clean_elems. by rewrite Hsplit.
      * destruct e as [|c e]; [done|]. rewrite Join_cons_byte, prefix_slash.
        rewrite Contains_slash_cons in Hslash.
        apply orb_false_iff in Hslash as [Hc _]. done.
Qed.

(** [path.Clean] leaves a clean path as it is. *)
Lemma path_Clean_render rooted out :
  clean_stack rooted out →
  path_Clean (clean_render rooted out) = clean_render rooted out.
Proof.
  intros Hst. rewrite path_Clean_parts.
  destruct (clean_render_reads rooted out Hst) as [-> ->].
  by rewrite fold_clean_again.
Qed.

Lemma path_Clean_stack p :
  clean_stack (String.prefix "/" p)
    (fold_left (clean_elem (String.prefix "/" p)) (clean_elems p) []).
Proof. apply clean_stack_fold, clean_elems_elements. Qed.

Lemma path_Clean_idempotent p : path_Clean (path_Clean p) = path_Clean p.
Proof. rewrite path_Clean_parts. apply path_Clean_render, path_Clean_stack. Qed.

End CleanPaths.

Section CacheFile.

Lemma prefix_slash_app (q x : string) :
  q ≠ "" → String.prefix "/" (q +:+ x) = String.prefix "/" q.
Proof. destruct q as [|c q]; [done|]. intros _. by rewrite append_cons, !prefix_slash. Qed.

Lemma clean_elems_app (q x : string) :
  clean_elems (q +:+ String "/" x) = clean_elems q ++ clean_elems x.
Proof.
  unfold clean_elems, strings_Split. by rewrite split_scan_app, List.filter_app.
Qed.

Lemma clean_elems_element e : path_element e = true → clean_elems e = [e].
Proof.
  intros He. pose proof He as (H1 & H2 & H3)%path_element_parts.
  unfold clean_elems, strings_Split. rewrite split_scan_whole by done.
  cbn [List.filter]. apply String.eqb_neq in H1, H2. by rewrite H1, H2.
Qed.

(** One more element at the end of a path goes on top of the stack. *)
Lemma path_Clean_snoc (q name : string) :
  q ≠ "" → path_element name = true → name ≠ ".." →
  path_Clean (q +:+ String "/" name)
  = clean_render (String.prefix "/" q)
      (name :: fold_left (clean_elem (String.prefix "/" q)) (clean_elems q) []).
Proof.
  intros Hq Hname Hdots. rewrite path_Clean_parts.
  rewrite prefix_slash_app, clean_elems_app, fold_left_app by done.
  rewrite clean_elems_element by done. cbn [fold_left].
  unfold clean_elem at 1. by destruct (String.eqb_spec name "..").
Qed.

Lemma path_Clean_slash (q : string) :
  q ≠ "" → path_Clean (q +:+ "/") = path_Clean q.
Proof.
  intros Hq. rewrite !path_Clean_parts.
  rewrite prefix_slash_app, clean_elems_app by done.
  change (clean_elems "") with (@nil string). by rewrite app_nil_r.
Qed.

Lemma path_Join_two (q name : string) :
  q ≠ "" → path_Join [q; name] = path_Clean (q +:+ String "/" name).
Proof. destruct q; [done|]. reflexivity. Qed.

(** On a stack that is not empty, the path of one more element is the path
    of the stack, a slash and the element. *)
Lemma clean_render_push rooted out name :
  clean_stack rooted out → out ≠ [] →
  clean_render rooted (name :: out)
  = clean_render rooted out +:+ String "/" name.
Proof.
  intros (tops & k & _ & _ & _ & Hall) Hout.
  apply Forall_rev in Hall. unfold clean_render. cbn [rev].
  destruct (rev out) as [|e L] eqn:HL.
  { apply (f_equal (@rev string)) in HL. rewrite rev_involutive in HL. done. }
  rewrite Join_snoc by done.
  apply Forall_cons in Hall as [(He & _ & _)%path_element_parts _].
  pose proof (Join_nonempty e L "/" He) as Hne.
  destruct (strings_Join (e :: L) "/") as [|c J] eqn:HJ; [done|].
  destruct rooted; reflexivity.
Qed.

Lemma path_Dir_slash (q : string) : path_Dir (q +:+ "/") = path_Clean (q +:+ "/").
Proof.
  unfold path_Dir, path_Split. cbn [fst]. f_equal.
  rewrite length_append. cbn [String.length].
  rewrite Nat.add_1_r. cbn [lastSlash_loop].
  rewrite <- (Nat.add_0_r (String.length q)) at 1. rewrite get_app_r.
  cbn [String.get Ascii.eqb]. 
  replace (S (String.length q)) with (String.length (q +:+ "/"))
    by (rewrite length_append; cbn; lia).
  apply substring_all.
Qed.

Lemma epub_name_element (h : string) :
  strings_Contains h "/" = false →
  path_element (h +:+ ".epub") = true ∧ h +:+ ".epub" ≠ "..".
Proof.
  intros Hh.
  assert (Hlen : ∀ s, (String.length s < 5)%nat → h +:+ ".epub" ≠ s).
  { intros s Hs Heq. apply (f_equal String.length) in Heq.
    rewrite length_append in Heq. cbn in Heq. lia. }
  split; [|apply Hlen; cbn; lia].
  unfold path_element. rewrite Contains_byte_app, Hh.
  destruct (String.eqb_spec (h +:+ ".epub") "") as [Heq|_];
    [apply Hlen in Heq; [done|cbn; lia]|].
  destruct (String.eqb_spec (h +:+ ".epub") ".") as [Heq|_];
    [apply Hlen in Heq; [done|cbn; lia]|].
  reflexivity.
Qed.

Lemma cacheDir_stack (d : string) :
  d ≠ "" →
  ∃ rooted out,
    clean_stack rooted out ∧ out ≠ [] ∧
    path_Join [d; "cache"] = clean_render rooted out.
Proof.
  intros Hd. rewrite path_Join_two by done.
  rewrite path_Clean_snoc; [|done|by vm_compute|done].
  exists (String.prefix "/" d),
    ("cache" :: fold_left (clean_elem (String.prefix "/" d)) (clean_elems d) []).
  split_and!; [|done..].
  apply clean_stack_push; [apply path_Clean_stack|by vm_compute|done].
Qed.

End CacheFile.

Section CacheFileOfBook.
Context (lib : Library).

Lemma clean_render_nonempty rooted out : clean_render rooted out ≠ "".
Proof.
  unfold clean_render.
  match goal with |- (if String.eqb ?r "" then _ else _) ≠ _ =>
    destruct (String.eqb_spec r "") end; done.
Qed.

Lemma convert_newFile_in_cache book :
  strings_Contains (Hash book) "/" = false →
  convert_newFile lib book
  = path_Join [path_Dir (lib_filename lib); "cache"]
    +:+ "/" +:+ Hash book +:+ ".epub" ∧
  path_Clean (path_Join [path_Dir (lib_filename lib); "cache"])
  = path_Join [path_Dir (lib_filename lib); "cache"].
Proof.
  intros Hh. unfold convert_newFile.
  destruct (cacheDir_stack (path_Dir (lib_filename lib)))
    as (rooted & out & Hst & Hout & ->); [apply path_Clean_nonempty|].
  destruct (epub_name_element _ Hh) as [Hname Hdots].
  split; [|by apply path_Clean_render].
  rewrite path_Join_two by apply clean_render_nonempty.
  rewrite path_Clean_snoc by (done || apply clean_render_nonempty).
  destruct (clean_render_reads rooted out Hst) as [-> ->].
  rewrite fold_clean_again by done.
  by apply clean_render_push.
Qed.

(** X24.  The file that [ConvertToEpub] asks [ebook-convert] to write, for
    a book whose hash has no slash in it, is the cache directory (the
    directory [cache] beside the catalog file), a slash, the hash and
    [.epub]; and its directory is the cache directory. *)
Theorem ConvertToEpub_cache_file book :
  strings_Contains (Hash book) "/" = false →
  let cacheDir := path_Join [path_Dir (lib_filename lib); "cache"] in
  convert_newFile lib book = cacheDir +:+ "/" +:+ Hash book +:+ ".epub" ∧
  path_Dir (convert_newFile lib book) = cacheDir.
Proof.
  intros Hh cacheDir.
  destruct (convert_newFile_in_cache book Hh) as [Hfile Hclean].
  split; [exact Hfile|]. rewrite Hfile. fold cacheDir in Hclean |- *.
  destruct (epub_name_element _ Hh) as [(_ & _ & Hslash)%path_element_parts _].
  change (cacheDir +:+ "/" +:+ Hash book +:+ ".epub")
    with (cacheDir +:+ ("/" +:+ (Hash book +:+ ".epub"))).
  rewrite <- append_assoc, path_Dir_tail by done.
  rewrite path_Dir_slash, path_Clean_slash; [done|].
  intros Hempty. rewrite Hempty in Hclean. by vm_compute in Hclean.
Qed.

(** X25.  Books with different hashes, neither with a slash in it, are
    converted into different files. *)
Theorem ConvertToEpub_files_differ b1 b2 :
  strings_Contains (Hash b1) "/" = false →
  strings_Contains (Hash b2) "/" = false →
  Hash b1 ≠ Hash b2 →
  convert_newFile lib b1 ≠ convert_newFile lib b2.
Proof.
  intros H1 H2 Hne Heq.
  destruct (convert_newFile_in_cache b1 H1) as [E1 _].
  destruct (convert_newFile_in_cache b2 H2) as [E2 _].
  rewrite E1, E2 in Heq.
  apply append_inv_head, append_inv_head in Heq.
  by apply append_inv_tail in Heq.
Qed.

End CacheFileOfBook.

Lemma ConvertToEpub_cache_file_witness :
  strings_Contains (Hash dune) "/" = false ∧
  convert_newFile lib0 dune = "/home/u/cache/h-dune.epub" ∧
  path_Dir (convert_newFile lib0 dune) = "/home/u/cache".
Proof.
  assert (H : strings_Contains (Hash dune) "/" = false) by reflexivity.
  split; [exact H|].
  exact (ConvertToEpub_cache_file lib0 dune H).
Defined.

Lemma ConvertToEpub_files_differ_witness :
  strings_Contains (Hash dune) "/" = false ∧
  strings_Contains (Hash emma) "/" = false ∧
  Hash dune ≠ Hash emma ∧
  convert_newFile lib0 dune ≠ convert_newFile lib0 emma.
Proof.
  assert (H1 : strings_Contains (Hash dune) "/" = false) by reflexivity.
  assert (H2 : strings_Contains (Hash emma) "/" = false) by reflexivity.
  assert (H3 : Hash dune ≠ Hash emma) by discriminate.
  split_and!; [exact H1|exact H2|exact H3|].
  exact (ConvertToEpub_files_differ lib0 dune emma H1 H2 H3).
Defined.

(** A hash with slashes in it takes the file out of the cache directory. *)
Example convert_newFile_escapes :
  convert_newFile lib0
    (mkBook 0 "../../x" "" "" "" "epub" [] "" "" 0 0 "" "")
  = "/home/x.epub".
Proof. vm_compute. reflexivity. Qed.

Lemma edit_loop_keeps_id_witness :
  ∃ b' out,
    commands.edit_loop (list (list Z)) UpdateBook_taken MergeBooks_logged
      ["title Dune Messiah"; "a Frank Herbert & Brian Herbert"] edited []
      = Some (b', [], out) ∧
    commands.ID b' = 3%Z.
Proof.
  destruct (edit_loop_keeps_id (list (list Z)) UpdateBook_taken
              MergeBooks_logged
              ["title Dune Messiah"; "a Frank Herbert & Brian Herbert"]
              edited [])
    as (b' & lib' & out & Hrun & Hid & Hlib).
  assert (lib' = []) as ->.
  { apply Hlib. intros line Hin.
    repeat (apply elem_of_cons in Hin as [->|Hin]; [by vm_compute|]).
    by apply elem_of_nil in Hin. }
  by exists b', out.
Defined.

Lemma cmdSave_merges_on_request_witness :
  (UpdateBook_taken [] edited true).2 = Some (commands.BookExistsError 1) ∧
  (commands.cmdSave (list (list Z)) UpdateBook_taken MergeBooks_logged
     edited [] "-m").1.2 = [[1; 3]%Z] ∧
  (commands.cmdSave (list (list Z)) UpdateBook_taken MergeBooks_logged
     edited [] "").1.2 = [].
Proof.
  assert (H : (UpdateBook_taken [] edited true).2
              = Some (commands.BookExistsError 1)) by reflexivity.
  split; [exact H|]. split.
  - exact (proj1 (proj2 (cmdSave_merges_on_request (list (list Z))
                           UpdateBook_taken MergeBooks_logged edited [] "-m"))
             1%Z H eq_refl).
  - refine (proj2 (proj2 (cmdSave_merges_on_request (list (list Z))
                            UpdateBook_taken MergeBooks_logged edited [] ""))
              (or_introl _)).
    discriminate.
Defined.

